(** * A shallow embedding of the media deep-link bot (src/bot.py)

    The development follows the layout of the Python module:
    the [media] table and the tokens stored in it, the parallel
    download, the per-user upload sessions kept in [PENDING_UPLOADS],
    the preview and collage stages and the watermark blend.

    Conventions.
    - Python [int] is [Z]. The durations and offsets of the preview
      and collage stages, Python [float]s, are modelled by exact
      rationals [Q] (the comparisons and sums of the source are kept,
      their rounding error is not modelled). The watermark blend is
      modelled with its roundings: the weights are floats and OpenCV
      evaluates the blend in single precision.
    - A [str] is held as its UTF-8 encoding.
    - A raised exception is a value [Raise e] of the [result] type.
    - Random draws, HTTP responses and the outcome of external
      tools are inputs of the functions that consume them. *)

From Stdlib Require Import ZArith QArith Qpower Qround Qabs String Ascii List Lia Lqa.
From Stdlib Require Import Sorting.Sorted Sorting.Permutation Sorting.Mergesort Orders.
From stdpp Require Import base option gmap strings list pretty sorting.

Close Scope Q_scope.
Local Open Scope string_scope.
Local Open Scope list_scope.
Local Open Scope Z_scope.

(** ** Exceptions *)

Inductive exn :=
  | IntegrityError      (* sqlite3: PRIMARY KEY constraint failed *)
  | KeyError            (* dict lookup or [del] of an absent key *)
  | ZeroDivisionError
  | ValueError
  | FileNotFoundError
  | DownloadError       (* Exception("Failed to download one or more parts") *)
  | OverflowError       (* [int] of an infinite float *)
  | ApiException.       (* a call to the Bot API that fails *)

Inductive result (A : Type) :=
  | Ok (a : A)
  | Raise (e : exn).
Arguments Ok {A} a.
Arguments Raise {A} e.

(** ** Tokens: [str(uuid.uuid4())[:12].replace('-', '')] *)

(** One lower-case hexadecimal digit. *)
Definition hex_digit (d : N) : ascii :=
  nth (N.to_nat d)
      ["0"; "1"; "2"; "3"; "4"; "5"; "6"; "7";
       "8"; "9"; "a"; "b"; "c"; "d"; "e"; "f"]%char "0"%char.

(** The [i]-th nibble of [n], counted from the least significant one. *)
Definition nibble (n : N) (i : nat) : N :=
  N.land (N.shiftr n (4 * N.of_nat i)) 15.

(** ['%0wx' % n] for an [n] below [16^w]: [w] digits, most significant
    first. *)
Fixpoint hex_pad (w : nat) (n : N) : string :=
  match w with
  | O => EmptyString
  | S w' => String (hex_digit (nibble n w')) (hex_pad w' n)
  end.

(** [uuid.UUID.__str__]: the 32 hexadecimal digits of the 128-bit
    value, grouped 8-4-4-4-12. *)
Definition uuid_str (u : N) : string :=
  let h := hex_pad 32 u in
  substring 0 8 h +:+ "-" +:+ substring 8 4 h +:+ "-" +:+
  substring 12 4 h +:+ "-" +:+ substring 16 4 h +:+ "-" +:+
  substring 20 12 h.

(** [s.replace(c, '')] for a one-character [c]. *)
Fixpoint remove_char (c : ascii) (s : string) : string :=
  match s with
  | EmptyString => EmptyString
  | String a s' =>
      if Ascii.eqb a c then remove_char c s' else String a (remove_char c s')
  end.

(** [payload = str(uuid.uuid4())[:12].replace('-', '')], with the UUID
    drawn by [uuid4] as the argument. *)
Definition make_payload (u : N) : string :=
  remove_char "-"%char (substring 0 12 (uuid_str u)).

(** ** The [media] table

    [payload TEXT PRIMARY KEY, file_id TEXT, media_type TEXT,
     content_protection INTEGER DEFAULT 1]; a column value may be NULL. *)

Record media_row := MediaRow {
  row_file_id : string;
  row_media_type : string;
  row_content_protection : option Z   (* None is SQL NULL *)
}.

(** [INSERT INTO media (payload, file_id, media_type, content_protection)
     VALUES (?, ?, ?, ?)]: the primary key rejects a payload that is
    already stored. *)
Definition insert_media (db : gmap string media_row) (payload : string)
    (row : media_row) : result (gmap string media_row) :=
  match db !! payload with
  | Some _ => Raise IntegrityError
  | None => Ok (<[payload := row]> db)
  end.

(** [SELECT file_id, media_type, content_protection FROM media
     WHERE payload=?] followed by [fetchone()]. *)
Definition select_media (db : gmap string media_row) (payload : string)
    : option (string * string * option Z) :=
  match db !! payload with
  | Some r => Some (row_file_id r, row_media_type r, row_content_protection r)
  | None => None
  end.

(** [bool(content_protection) if content_protection is not None else True] *)
Definition protect_of (content_protection : option Z) : bool :=
  match content_protection with
  | Some v => negb (v =? 0)
  | None => true
  end.

(** [protection_int = 1 if settings['content_protection'] else 0] *)
Definition protection_int (p : bool) : Z := if p then 1 else 0.

(** The INSERT of [process_media] (the same four statements in its
    instant path and after the pipeline): a fresh UUID [u] gives the
    payload, the row is inserted and the payload returned. An
    [IntegrityError] of the INSERT is not caught. *)
Definition issue_token (db : gmap string media_row) (u : N)
    (file_id media_type : string) (content_protection : bool)
    : result (string * gmap string media_row) :=
  let payload := make_payload u in
  match insert_media db payload
          (MediaRow file_id media_type (Some (protection_int content_protection))) with
  | Ok db' => Ok (payload, db')
  | Raise e => Raise e
  end.

(** The registry after a run of issue attempts; an attempt whose INSERT
    raises leaves the table as it was. *)
Definition issue_step (acc : list string * gmap string media_row)
    (req : N * string * string * bool) : list string * gmap string media_row :=
  let '(u, m, k, p) := req in
  match issue_token acc.2 u m k p with
  | Ok (payload, db') => (acc.1 ++ [payload], db')
  | Raise _ => acc
  end.

Definition issue_many (db : gmap string media_row)
    (reqs : list (N * string * string * bool)) : list string * gmap string media_row :=
  fold_left issue_step reqs ([], db).

(** The invariant of a run of issue attempts that started from [db0]:
    the tokens handed out so far are pairwise distinct, none of them
    was in [db0], all of them are stored, and nothing was removed. *)
Definition issued_inv (db0 : gmap string media_row)
    (acc : list string * gmap string media_row) : Prop :=
  NoDup acc.1 /\
  (forall t, t ∈ acc.1 -> db0 !! t = None /\ is_Some (acc.2 !! t)) /\
  (forall t, is_Some (db0 !! t) -> is_Some (acc.2 !! t)).

(** Rows inserted one after the other, as [process_media] does over the
    life of the table. *)
Definition insert_step (db : gmap string media_row)
    (req : string * string * string * bool) : gmap string media_row :=
  let '(payload, m, k, p) := req in
  match insert_media db payload (MediaRow m k (Some (protection_int p))) with
  | Ok db' => db'
  | Raise _ => db
  end.

Definition inserted (reqs : list (string * string * string * bool))
    : gmap string media_row :=
  fold_left insert_step reqs ∅.

(** ** Messages and [handle_start] *)

(** A [str] is held as its UTF-8 encoding. The white space of
    [str.split()] is that of [str.isspace]: U+0009 to U+000D, U+001C to
    U+0020, U+0085, U+00A0, U+1680, U+2000 to U+200A, U+2028, U+2029,
    U+202F, U+205F and U+3000. *)
Definition byte_in (lo hi : N) (c : ascii) : bool :=
  ((lo <=? N_of_ascii c) && (N_of_ascii c <=? hi))%N.

(** The white space of one byte. *)
Definition is_space (c : ascii) : bool := byte_in 9 13 c || byte_in 28 32 c.

(** U+0085 and U+00A0: [C2 85] and [C2 A0]. *)
Definition is_space2 (a : ascii) (r : string) : bool :=
  match r with
  | String b _ => byte_in 0xC2 0xC2 a && (byte_in 0x85 0x85 b || byte_in 0xA0 0xA0 b)
  | EmptyString => false
  end.

(** U+1680 is [E1 9A 80]; U+2000 to U+200A, U+2028, U+2029 and U+202F
    are [E2 80 80] to [E2 80 8A], [E2 80 A8], [E2 80 A9] and
    [E2 80 AF]; U+205F is [E2 81 9F]; U+3000 is [E3 80 80]. *)
Definition is_space3 (a : ascii) (r : string) : bool :=
  match r with
  | String b (String c _) =>
      byte_in 0xE1 0xE1 a && byte_in 0x9A 0x9A b && byte_in 0x80 0x80 c
      || byte_in 0xE2 0xE2 a && byte_in 0x80 0x80 b
         && (byte_in 0x80 0x8A c || byte_in 0xA8 0xA9 c || byte_in 0xAF 0xAF c)
      || byte_in 0xE2 0xE2 a && byte_in 0x81 0x81 b && byte_in 0x9F 0x9F c
      || byte_in 0xE3 0xE3 a && byte_in 0x80 0x80 b && byte_in 0x80 0x80 c
  | _ => false
  end.

(** The number of bytes of the white-space character that [s] starts
    with; 0 when it starts with none. *)
Definition space_width (s : string) : nat :=
  match s with
  | EmptyString => 0
  | String a r =>
      if is_space a then 1
      else if is_space2 a r then 2
      else if is_space3 a r then 3
      else 0
  end.

(** [s.split()]: the maximal runs of characters that are not white
    space. [cur] holds the word being read; [skip] counts the bytes
    that are left of the white-space character being passed. *)
Fixpoint split_go (cur : option string) (skip : nat) (s : string) : list string :=
  let flush := match cur with Some w => [w] | None => [] end in
  match s with
  | EmptyString => flush
  | String c s' =>
      match skip with
      | S k => split_go cur k s'
      | O =>
          match space_width s with
          | O => split_go (Some (default EmptyString cur +:+ String c EmptyString)) 0 s'
          | S k => flush ++ split_go None k s'
          end
      end
  end.

Definition split (s : string) : list string := split_go None 0 s.

(** The calls that a handler makes to the Bot API. *)
Inductive action :=
  | SendVideo (chat : Z) (file : string) (protect_content : bool)
  | SendPhoto (chat : Z) (file : string) (protect_content : bool)
  | ReplyInvalidLink          (* "Invalid or expired link" *)
  | ReplyAdminWelcome
  | ReplyChannelMessage
  | AnswerExpired             (* "Upload expired. Please send media again." *)
  | AnswerCallback (text : string)
  | DeleteMessage
  | ShowSubMenu (menu : string)
  | ShowAllOptionsMenu (preview collage : option Z) (watermark protection : bool)
  | AskWatermarkText
  | ReplyText (text : string)
  | StatusMessage (text : string)
  | DeepLink (payload : string)
  | RunStage (stage : string).

(** [is_admin]: [user_id in ADMINS]. *)
Definition is_admin (ADMINS : list Z) (user_id : Z) : bool :=
  bool_decide (user_id ∈ ADMINS).

(** The rows [handle_start] reads: file, type and the protection it
    sends with. *)
Definition redeem (db : gmap string media_row) (payload : string)
    : option (string * string * bool) :=
  match select_media db payload with
  | Some (file_id, media_type, content_protection) =>
      Some (file_id, media_type, protect_of content_protection)
  | None => None
  end.

(** What [handle_start] sends for a row of kind [k]. *)
Definition sent_for (chat : Z) (m k : string) (p : bool) : list action :=
  if String.eqb k "video" then [SendVideo chat m p]
  else if String.eqb k "photo" then [SendPhoto chat m p]
  else [].

(** ** The parallel download *)

Abbreviation filesystem := (gmap string (list Byte.byte)).

(** What a GET gives the code that streams it into a file. *)
Inductive response :=
  | Body (data : list Byte.byte)      (* every chunk arrived *)
  | Broken (written : list Byte.byte) (* the stream raised after [written] was written *)
  | Refused.                          (* [requests.get] itself raised *)

(** The server behind [url]: the HEAD request with its content-length
    header, the plain GET, and the GET of worker [part_num] with
    [Range: bytes=start-end]. *)
Record remote := {
  head : result (option Z);
  get : response;
  get_range : nat -> Z -> Z -> response;
}.

(** [f"{destination}.part{part_num}"] *)
Definition part_path (destination : string) (part_num : nat) : string :=
  destination +:+ ".part" +:+ pretty part_num.

(** The inner function [download_part]; [temp_files] is the list of the
    enclosing call, which every worker appends to before it requests. *)
Definition download_part (srv : remote) (destination : string)
    (part_num : nat) (start_byte end_byte : Z)
    (st : filesystem * list string) : filesystem * list string * bool :=
  let temp_file := part_path destination part_num in
  let temp_files := st.2 ++ [temp_file] in
  match get_range srv part_num start_byte end_byte with
  | Body data => (<[temp_file := data]> st.1, temp_files, true)
  | Broken written => (<[temp_file := written]> st.1, temp_files, false)
  | Refused => (st.1, temp_files, false)
  end.

(** [start_byte] and [end_byte] of the submit loop. *)
Definition start_byte (file_size num_connections i : Z) : Z :=
  i * (file_size / num_connections).

Definition end_byte (file_size num_connections i : Z) : Z :=
  if i <? num_connections - 1
  then start_byte file_size num_connections i + file_size / num_connections - 1
  else file_size - 1.

(** The tasks submitted by [for i in range(num_connections)]. *)
Definition submitted (file_size num_connections : Z) : list (nat * Z * Z) :=
  map (fun i : nat => (i, start_byte file_size num_connections (Z.of_nat i),
                          end_byte file_size num_connections (Z.of_nat i)))
      (seq 0 (Z.to_nat num_connections)).

(** The pool runs every submitted task; [schedule] lists the task
    numbers in the order in which the workers get to run. Leaving the
    [with] block waits for all of them, also when the loop over
    [as_completed] has raised. The results come in completion order. *)
Fixpoint run_workers (srv : remote) (destination : string)
    (tasks : list (nat * Z * Z)) (schedule : list nat)
    (st : filesystem * list string) : filesystem * list string * list bool :=
  match schedule with
  | [] => (st, [])
  | i :: rest =>
      match tasks !! i with
      | Some (part_num, s, e) =>
          let '(st', r) := download_part srv destination part_num s e st in
          let '(st'', rs) := run_workers srv destination tasks rest st' in
          (st'', r :: rs)
      | None => run_workers srv destination tasks rest st
      end
  end.

(** The merge loop, after [open(destination, 'wb')]: read part [i],
    append it to the output, remove it. *)
Fixpoint merge_parts (destination : string) (parts : list nat)
    (fs : filesystem) : result filesystem * filesystem :=
  match parts with
  | [] => (Ok fs, fs)
  | i :: rest =>
      let temp_file := part_path destination i in
      match fs !! temp_file with
      | Some data =>
          merge_parts destination rest
            (delete temp_file
               (<[destination := default [] (fs !! destination) ++ data]> fs))
      | None => (Raise FileNotFoundError, fs)
      end
  end.

(** The [except] block: remove every temp file that exists. *)
Definition remove_temp_files (temp_files : list string) (fs : filesystem)
    : filesystem :=
  foldr (fun temp_file acc => delete temp_file acc) fs temp_files.

Record download_outcome := {
  disk : filesystem;          (* the files after the call *)
  returned : bool;            (* its return value *)
  temp_files : list string;   (* the local list when it returns *)
}.

(** [download_file_parallel(url, destination, num_connections)] *)
Definition download_file_parallel (srv : remote) (destination : string)
    (num_connections : Z) (schedule : list nat) (fs : filesystem)
    : download_outcome :=
  match head srv with
  | Raise _ => {| disk := fs; returned := false; temp_files := [] |}
  | Ok content_length =>
      let file_size := default 0 content_length in
      if file_size =? 0 then
        match get srv with
        | Body data =>
            {| disk := <[destination := data]> fs; returned := true; temp_files := [] |}
        | Broken written =>
            {| disk := <[destination := written]> fs; returned := false; temp_files := [] |}
        | Refused => {| disk := fs; returned := false; temp_files := [] |}
        end
      else if num_connections <=? 0 then
        (* ZeroDivisionError in [file_size // 0], ValueError of the pool
           for a negative [max_workers] *)
        {| disk := fs; returned := false; temp_files := [] |}
      else
        let tasks := submitted file_size num_connections in
        let '(fs1, started, results) :=
          run_workers srv destination tasks schedule (fs, []) in
        if forallb (fun r : bool => r) results then
          match merge_parts destination (seq 0 (Z.to_nat num_connections))
                  (<[destination := []]> fs1) with
          | (Ok _, fs2) => {| disk := fs2; returned := true; temp_files := started |}
          | (Raise _, fs2) =>
              {| disk := remove_temp_files started fs2; returned := false;
                 temp_files := started |}
          end
        else
          {| disk := remove_temp_files started fs1; returned := false;
             temp_files := started |}
  end.

(** The arithmetic of the ranges: they follow one another without gap
    or overlap from offset 0 to the last offset, the first [n - 1] have
    [file_size // n] bytes, the last one takes the remainder as well,
    and every offset of the file lies in exactly one of them. *)
Definition ranges_tile (file_size n : Z) : Prop :=
  start_byte file_size n 0 = 0 /\
  end_byte file_size n (n - 1) = file_size - 1 /\
  (forall i, 0 <= i < n - 1 ->
     end_byte file_size n i - start_byte file_size n i + 1 = file_size / n /\
     start_byte file_size n (i + 1) = end_byte file_size n i + 1) /\
  end_byte file_size n (n - 1) - start_byte file_size n (n - 1) + 1
  = file_size / n + file_size mod n /\
  (forall x, 0 <= x < file_size ->
     exists i, 0 <= i < n /\
       start_byte file_size n i <= x <= end_byte file_size n i /\
       forall j, 0 <= j < n ->
         start_byte file_size n j <= x <= end_byte file_size n j -> j = i).

(** The bytes of [content] at the offsets [a], ..., [b]: the body of
    a response to [Range: bytes=a-b] from a server that honours the
    header. No offset lies in an interval with [b < a]. *)
Definition byte_range (content : list Byte.byte) (a b : Z) : list Byte.byte :=
  take (Z.to_nat (b + 1 - a)) (drop (Z.to_nat a) content).

(** The same server when its HEAD response carries no content-length:
    the call then takes the single-connection path. *)
Definition without_length (srv : remote) : remote :=
  {| head := Ok None; get := get srv; get_range := get_range srv |}.

(** The response that worker [i] gets for its range. *)
Definition response_of (srv : remote) (file_size n : Z) (i : nat) : response :=
  get_range srv i (start_byte file_size n (Z.of_nat i))
            (end_byte file_size n (Z.of_nat i)).

(** Whether a response is a complete body. *)
Definition complete (r : response) : bool :=
  match r with Body _ => true | _ => false end.

(** ** Floating point *)

(** [int(x)]: truncation towards zero. *)
Definition Qtruncate (x : Q) : Z := Z.quot (Qnum x) (Zpos (Qden x)).

(** [rint]: the nearest integer, a tie goes to the even one. *)
Definition rint (x : Q) : Z :=
  let f := Qfloor x in
  match (x - inject_Z f ?= 1 # 2)%Q with
  | Lt => f
  | Gt => f + 1
  | Eq => if Z.even f then f else f + 1
  end.

(** The exponent of the leading bit of [x <> 0]:
    [2^e <= |x| < 2^(e+1)]. *)
Definition ilog2 (x : Q) : Z :=
  let k := Z.log2 (Z.abs (Qnum x)) - Z.log2 (Zpos (Qden x)) in
  if Qle_bool (2 ^ k)%Q (Qabs x) then k else k - 1.

(** Rounding to the nearest float with [prec] significant bits and
    least spacing [2^emin], a tie to the one with an even last bit: the
    value that an IEEE 754 operation, or a cast, returns for the exact
    result [x]. Small values lose precision gradually, as subnormal
    numbers do; overflow to an infinity is not modelled. *)
Definition round_float (prec emin : Z) (x : Q) : Q :=
  let x := Qred x in
  if Qeq_bool x 0 then 0%Q
  else
    let e := Z.max (ilog2 x - (prec - 1)) emin in
    (inject_Z (rint (x / 2 ^ e)) * 2 ^ e)%Q.

(** Double precision, the Python [float], and single precision. *)
Definition binary64 : Q -> Q := round_float 53 (-1074).
Definition binary32 : Q -> Q := round_float 24 (-149).

(** A Python [float]: a finite value, an infinity or [nan]. *)
Inductive pyfloat :=
  | Finite (q : Q)
  | Infinity (negative : bool)
  | NaN.

(** [int(opacity*100)]: the product overflows to an infinity when it
    reaches [2^1024 - 2^970], half way between the largest double and
    [2^1024]; [int] raises [OverflowError] on an infinity and
    [ValueError] on [nan]. *)
Definition percent (opacity : pyfloat) : result Z :=
  match opacity with
  | Finite q =>
      if Qle_bool (inject_Z (2 ^ 1024 - 2 ^ 970)) (Qabs (q * 100))
      then Raise OverflowError
      else Ok (Qtruncate (binary64 (q * 100)))
  | Infinity _ => Raise OverflowError
  | NaN => Raise ValueError
  end.

(** ** Upload sessions: [PENDING_UPLOADS] and the handlers *)

Record Message := {
  from_user : Z;
  chat_id : Z;
  message_id : Z;
  text : string;
  video : option string;    (* [message.video.file_id] *)
  photo : list string;      (* the file ids of [message.photo] *)
}.

Record CallbackQuery := {
  call_from_user : Z;
  data : string;
  call_message : Message;
}.

(** The entries of [BOT_CONFIG] that the handlers read. *)
Record config := {
  cfg_watermark_text : string;
  cfg_watermark_position : string;
  cfg_watermark_opacity : pyfloat;
  cfg_collage_quality : Z;
}.

(** The dict stored in [PENDING_UPLOADS[user_id]]. The key
    ['waiting_for'] is absent until the watermark text is asked for. *)
Record settings := {
  file_id : string;
  media_type : string;
  message : Message;
  generate_preview : bool;
  generate_collage : bool;
  preview_length : option Z;
  collage_frames : option Z;
  watermark_enabled : bool;
  watermark_text : string;
  watermark_position : string;
  watermark_opacity : pyfloat;
  content_protection : bool;
  setup_step : string;
  waiting_for : option string;
}.

Record bot_state := {
  media : gmap string media_row;
  users : gset Z;
  PENDING_UPLOADS : gmap Z settings;
  BOT_CONFIG : config;
}.

Definition set_media (db : gmap string media_row) (st : bot_state) : bot_state :=
  {| media := db; users := users st;
     PENDING_UPLOADS := PENDING_UPLOADS st; BOT_CONFIG := BOT_CONFIG st |}.

Definition set_users (us : gset Z) (st : bot_state) : bot_state :=
  {| media := media st; users := us;
     PENDING_UPLOADS := PENDING_UPLOADS st; BOT_CONFIG := BOT_CONFIG st |}.

Definition set_pending (p : gmap Z settings) (st : bot_state) : bot_state :=
  {| media := media st; users := users st;
     PENDING_UPLOADS := p; BOT_CONFIG := BOT_CONFIG st |}.

(** [handle_start]: the state after the call, the calls made to the
    Bot API and the exception that left the handler, if any.
    [delivers] tells for which chats [send_video] and [send_photo]
    return; when the call raises, the [INSERT OR IGNORE INTO users]
    that follows it is not reached. *)
Definition handle_start (ADMINS : list Z) (delivers : Z -> bool)
    (st : bot_state) (message : Message)
    : bot_state * list action * option exn :=
  match split (text message) with
  | _ :: payload :: _ =>
      match redeem (media st) payload with
      | Some (file_id, media_type, protect) =>
          let recorded := set_users ({[chat_id message]} ∪ users st) st in
          let send (call : action) :=
            if delivers (chat_id message) then (recorded, [call], None)
            else (st, [call], Some ApiException) in
          if String.eqb media_type "video"
          then send (SendVideo (chat_id message) file_id protect)
          else if String.eqb media_type "photo"
          then send (SendPhoto (chat_id message) file_id protect)
          else (recorded, [], None)
      | None => (st, [ReplyInvalidLink], None)
      end
  | _ =>
      if is_admin ADMINS (from_user message)
      then (st, [ReplyAdminWelcome], None)
      else (st, [ReplyChannelMessage], None)
  end.

(** [show_all_options_menu]: nothing without a session, else the menu
    with the current summary. *)
Definition show_all_options_menu (st : bot_state) (user_id : Z) : list action :=
  match PENDING_UPLOADS st !! user_id with
  | None => []
  | Some s =>
      [ShowAllOptionsMenu (preview_length s) (collage_frames s)
         (watermark_enabled s) (content_protection s)]
  end.

(** [handle_media]: an upload by an admin creates or replaces the
    session of that user, every option off. *)
Definition handle_media (ADMINS : list Z) (st : bot_state) (msg : Message)
    : bot_state * list action :=
  if negb (is_admin ADMINS (from_user msg)) then (st, [ReplyChannelMessage])
  else
    let media_type := match video msg with Some _ => "video" | None => "photo" end in
    let file_id :=
      match video msg with
      | Some f => f
      | None => List.last (photo msg) EmptyString
      end in
    let s := {|
      file_id := file_id; media_type := media_type; message := msg;
      generate_preview := false; generate_collage := false;
      preview_length := None; collage_frames := None;
      watermark_enabled := false;
      watermark_text := cfg_watermark_text (BOT_CONFIG st);
      watermark_position := cfg_watermark_position (BOT_CONFIG st);
      watermark_opacity := cfg_watermark_opacity (BOT_CONFIG st);
      content_protection := true;
      setup_step := "all_options";
      waiting_for := None |} in
    let st' := set_pending (<[from_user msg := s]> (PENDING_UPLOADS st)) st in
    (st', show_all_options_menu st' (from_user msg)).

(** What a handler needs from outside: the UUID that [uuid.uuid4()]
    draws, the built-ins [int] and [float] on strings (raising
    [ValueError]; [float] also reads ["nan"] and ["inf"]), and whether
    the download of the pipeline succeeds. *)
Record env := {
  uuid4 : N;
  py_int : string -> result Z;
  py_float : string -> result pyfloat;
  download_succeeds : bool;
}.

(** [process_media(chat_id, user_id)]. The result is the state after
    the call, what was sent, and the exception that left the function,
    if any. The stages of the pipeline touch files only; they are
    listed in the order in which they run. *)
Definition process_media (e : env) (st : bot_state) (user_id : Z)
    : bot_state * list action * option exn :=
  match PENDING_UPLOADS st !! user_id with
  | None => (st, [], Some KeyError)
  | Some s =>
      let needs_processing :=
        generate_preview s || generate_collage s || watermark_enabled s in
      if negb needs_processing then
        match issue_token (media st) (uuid4 e) (file_id s) (media_type s)
                (content_protection s) with
        | Raise x => (st, [StatusMessage "instant"], Some x)
        | Ok (payload, db') =>
            (set_pending (delete user_id (PENDING_UPLOADS st)) (set_media db' st),
             [StatusMessage "instant"; DeepLink payload], None)
        end
      else
        let stages :=
          if String.eqb (media_type s) "video" then
            RunStage "download" ::
            (if download_succeeds e then
               (if watermark_enabled s && negb (String.eqb (watermark_text s) EmptyString)
                then [RunStage "watermark"] else []) ++
               (if generate_preview s then [RunStage "preview"] else []) ++
               (if generate_collage s then [RunStage "collage"] else [])
             else [StatusMessage "error"]) ++
            [RunStage "cleanup"]
          else [] in
        let sent := StatusMessage "processing" :: stages in
        match issue_token (media st) (uuid4 e) (file_id s) (media_type s)
                (content_protection s) with
        | Raise x => (st, sent, Some x)
        | Ok (payload, db') => (set_media db' st, sent ++ [DeepLink payload], None)
        end
  end.

(** Field updates of the session of [user_id] (the dict is mutated in
    place). *)
Definition update_settings (f : settings -> settings) (user_id : Z)
    (st : bot_state) : bot_state :=
  set_pending (alter f user_id (PENDING_UPLOADS st)) st.

Definition with_preview (len : option Z) (on : bool) (s : settings) : settings :=
  {| file_id := file_id s; media_type := media_type s; message := message s;
     generate_preview := on; generate_collage := generate_collage s;
     preview_length := len; collage_frames := collage_frames s;
     watermark_enabled := watermark_enabled s; watermark_text := watermark_text s;
     watermark_position := watermark_position s;
     watermark_opacity := watermark_opacity s;
     content_protection := content_protection s; setup_step := setup_step s;
     waiting_for := waiting_for s |}.

Definition with_collage (frames : option Z) (on : bool) (s : settings) : settings :=
  {| file_id := file_id s; media_type := media_type s; message := message s;
     generate_preview := generate_preview s; generate_collage := on;
     preview_length := preview_length s; collage_frames := frames;
     watermark_enabled := watermark_enabled s; watermark_text := watermark_text s;
     watermark_position := watermark_position s;
     watermark_opacity := watermark_opacity s;
     content_protection := content_protection s; setup_step := setup_step s;
     waiting_for := waiting_for s |}.

Definition with_watermark (on : bool) (txt pos : string) (op : pyfloat)
    (s : settings) : settings :=
  {| file_id := file_id s; media_type := media_type s; message := message s;
     generate_preview := generate_preview s; generate_collage := generate_collage s;
     preview_length := preview_length s; collage_frames := collage_frames s;
     watermark_enabled := on; watermark_text := txt;
     watermark_position := pos; watermark_opacity := op;
     content_protection := content_protection s; setup_step := setup_step s;
     waiting_for := waiting_for s |}.

Definition with_protection (p : bool) (s : settings) : settings :=
  {| file_id := file_id s; media_type := media_type s; message := message s;
     generate_preview := generate_preview s; generate_collage := generate_collage s;
     preview_length := preview_length s; collage_frames := collage_frames s;
     watermark_enabled := watermark_enabled s; watermark_text := watermark_text s;
     watermark_position := watermark_position s;
     watermark_opacity := watermark_opacity s;
     content_protection := p; setup_step := setup_step s;
     waiting_for := waiting_for s |}.

Definition with_waiting_for (w : option string) (s : settings) : settings :=
  {| file_id := file_id s; media_type := media_type s; message := message s;
     generate_preview := generate_preview s; generate_collage := generate_collage s;
     preview_length := preview_length s; collage_frames := collage_frames s;
     watermark_enabled := watermark_enabled s; watermark_text := watermark_text s;
     watermark_position := watermark_position s;
     watermark_opacity := watermark_opacity s;
     content_protection := content_protection s; setup_step := setup_step s;
     waiting_for := w |}.

(** [s.startswith(p)] *)
Definition startswith (s p : string) : bool := String.prefix p s.

(** The characters of [s] before the first [c]. *)
Fixpoint before_char (c : ascii) (s : string) : string :=
  match s with
  | EmptyString => EmptyString
  | String a s' => if Ascii.eqb a c then EmptyString else String a (before_char c s')
  end.

(** [s.split("_")[-1]] *)
Definition last_field (s : string) : string :=
  String.rev (before_char "_"%char (String.rev s)).

(** [s.replace(old, '')] for a non-empty [old]: the occurrences are
    removed from left to right; [skip] counts the characters of the
    occurrence being dropped. *)
Fixpoint remove_sub (old : string) (skip : nat) (s : string) : string :=
  match s with
  | EmptyString => EmptyString
  | String c s' =>
      match skip with
      | S k => remove_sub old k s'
      | O =>
          if String.prefix old s
          then remove_sub old (String.length old - 1) s'
          else String c (remove_sub old 0 s')
      end
  end.

(** The common tail of the option branches: delete the menu message
    (a failure is ignored) and show the main menu again. *)
Definition back_to_main (st : bot_state) (user_id : Z) : list action :=
  DeleteMessage :: show_all_options_menu st user_id.

(** [handle_callback(call)]: the state after the call, what was sent
    and the exception that left the handler, if any. *)
Definition handle_callback (ADMINS : list Z) (e : env) (st : bot_state)
    (call : CallbackQuery) : bot_state * list action * option exn :=
  let user_id := call_from_user call in
  if negb (is_admin ADMINS user_id) then (st, [], None)
  else
    match PENDING_UPLOADS st !! user_id with
    | None => (st, [AnswerExpired], None)
    | Some s =>
        let d := data call in
        let apply (f : settings -> settings) (answer : string) :=
          let st' := update_settings f user_id st in
          (st', AnswerCallback answer :: back_to_main st' user_id, None) in
        if String.eqb d "menu_set_preview" then
          (st, [ShowSubMenu "preview"; AnswerCallback EmptyString], None)
        else if startswith d "set_preview_" then
          if String.eqb d "set_preview_no" then
            apply (with_preview None false) "Preview disabled"
          else
            match py_int e (last_field d) with
            | Raise x => (st, [], Some x)
            | Ok duration => apply (with_preview (Some duration) true) "Preview"
            end
        else if String.eqb d "menu_set_collage" then
          (st, [ShowSubMenu "collage"; AnswerCallback EmptyString], None)
        else if startswith d "set_collage_" then
          if String.eqb d "set_collage_no" then
            apply (with_collage None false) "Collage disabled"
          else
            match py_int e (last_field d) with
            | Raise x => (st, [], Some x)
            | Ok frames => apply (with_collage (Some frames) true) "Collage"
            end
        else if String.eqb d "menu_set_watermark" then
          (st, [ShowSubMenu "watermark"; AnswerCallback EmptyString], None)
        else if String.eqb d "set_watermark_on" then
          apply (fun s => with_watermark true (watermark_text s)
                            (watermark_position s) (watermark_opacity s) s)
                "Watermark enabled"
        else if String.eqb d "set_watermark_off" then
          apply (fun s => with_watermark false (watermark_text s)
                            (watermark_position s) (watermark_opacity s) s)
                "Watermark disabled"
        else if String.eqb d "watermark_text" then
          (update_settings (with_waiting_for (Some "watermark_text")) user_id st,
           [AnswerCallback "Send watermark text..."; AskWatermarkText], None)
        else if String.eqb d "watermark_position" then
          (st, [AnswerCallback EmptyString; ShowSubMenu "position"], None)
        else if startswith d "pos_" then
          let position := remove_sub "pos_" 0 d in
          apply (fun s => with_watermark (watermark_enabled s) (watermark_text s)
                            position (watermark_opacity s) s)
                "Position"
        else if String.eqb d "watermark_opacity" then
          (st, [AnswerCallback EmptyString; ShowSubMenu "opacity"], None)
        else if startswith d "opacity_" then
          match py_float e (remove_sub "opacity_" 0 d) with
          | Raise x => (st, [], Some x)
          | Ok opacity =>
              (* the opacity is stored before the answer text
                 [f"Opacity: {int(opacity*100)}%"] is built *)
              let st' :=
                update_settings
                  (fun s => with_watermark (watermark_enabled s) (watermark_text s)
                              (watermark_position s) opacity s)
                  user_id st in
              match percent opacity with
              | Raise x => (st', [], Some x)
              | Ok _ => (st', AnswerCallback "Opacity" :: back_to_main st' user_id, None)
              end
          end
        else if String.eqb d "menu_toggle_protection" then
          apply (fun s => with_protection (negb (content_protection s)) s)
                "Protection"
        else if String.eqb d "back_to_menu" then
          (st, back_to_main st user_id, None)
        else if String.eqb d "process_now" then
          let before := [AnswerCallback "Processing..."; DeleteMessage] in
          match process_media e st user_id with
          | (st', sent, Some x) => (st', before ++ sent, Some x)
          | (st', sent, None) =>
              (* [del PENDING_UPLOADS[user_id]] *)
              match PENDING_UPLOADS st' !! user_id with
              | None => (st', before ++ sent, Some KeyError)
              | Some _ =>
                  (set_pending (delete user_id (PENDING_UPLOADS st')) st',
                   before ++ sent, None)
              end
          end
        else (st, [], None)
    end.


(** ** The handler of a text message *)






(** ** Preview and collage *)

(** Comparisons of floats, on rationals. *)
Definition Qlt_bool (a b : Q) : bool := negb (Qle_bool b a).

(** [sorted] on floats. *)
Module QOrder <: TotalLeBool.
Definition t := Q.
Definition leb := Qle_bool.
Theorem leb_total : forall a1 a2, is_true (leb a1 a2) \/ is_true (leb a2 a1).
Proof.
  intros a1 a2. unfold leb, is_true. rewrite !Qle_bool_iff.
  destruct (Qlt_le_dec a1 a2) as [H|H]; [left; apply Qlt_le_weak, H | right; exact H].
Qed.
End QOrder.

Module QSort := Sort QOrder.

Definition sorted (l : list Q) : list Q := QSort.sort l.

(** The calls of the external tools, in the order in which a stage
    makes them. *)
Inductive tool_cmd :=
  | ShutilCopy (src dst : string)
  | FfmpegClip (ss : Q) (src : string) (t : Z) (out : string)
  | FfmpegConcat (files : list string) (out : string)
  | SendPreview (file : string).

(** [random.uniform(a, b)] is [a + (b - a) * random()]; the draws of
    [random()] are the values [rng 0], [rng 1], ... *)
Definition uniform (a b r : Q) : Q := (a + (b - a) * r)%Q.

(** [range(n)] for an [int] [n]. *)
Definition range (n : Z) : list nat := seq 0 (Z.to_nat n).

(** [f'temp_clip_{i}.mp4'] *)
Definition temp_clip (i : nat) : string := "temp_clip_" +:+ pretty i +:+ ".mp4".

Definition clip_duration : Z := 2.

(** [num_clips = int(preview_length / clip_duration)] *)
Definition num_clips (preview_length : Z) : Z := Z.quot preview_length clip_duration.

(** [random_starts] of the preview. *)
Definition random_starts (video_duration : Q) (preview_length : Z)
    (rng : nat -> Q) : list Q :=
  let available_duration := (video_duration - inject_Z clip_duration)%Q in
  sorted (map (fun i => uniform 0 available_duration (rng i))
              (range (num_clips preview_length))).

(** [generate_video_preview]: the tool calls made when each of them
    succeeds. [video_duration] is the number printed by ffprobe. *)
Definition generate_video_preview (source_video : string) (preview_length : Z)
    (video_duration : Q) (rng : nat -> Q) : list tool_cmd :=
  if Qle_bool video_duration (inject_Z preview_length) then
    [ShutilCopy source_video "preview.mp4"; SendPreview "preview.mp4"]
  else
    let starts := random_starts video_duration preview_length rng in
    imap (fun i start_time =>
            FfmpegClip start_time source_video clip_duration (temp_clip i)) starts
    ++ [FfmpegConcat (imap (fun i _ => temp_clip i) starts) "preview.mp4";
        SendPreview "preview.mp4"].

(** The timestamps of the collage and the frame count that goes with
    them (the branch may lower [collage_frames]). *)
Definition collage_timestamps (video_duration : Q) (collage_frames : Z)
    (rng : nat -> Q) : list Q * Z :=
  if Qlt_bool video_duration 1 then ([1 # 2]%Q, 1)
  else if Qlt_bool video_duration (inject_Z collage_frames) then
    let actual_frames := Z.max 1 (Qtruncate video_duration) in
    (map (fun i : nat =>
            (video_duration * (inject_Z (Z.of_nat i) + (1 # 2)) / inject_Z actual_frames)%Q)
         (range actual_frames),
     actual_frames)
  else if Qlt_bool 10 video_duration then
    let safe_duration := (video_duration - 10)%Q in
    (sorted (map (fun i => (5 + rng i * safe_duration)%Q) (range collage_frames)),
     collage_frames)
  else
    let margin := (video_duration * (1 # 10))%Q in
    let safe_duration := (video_duration - 2 * margin)%Q in
    (sorted (map (fun i => (margin + rng i * safe_duration)%Q) (range collage_frames)),
     collage_frames).

(** The grid table. *)
Definition grid (collage_frames : Z) : Z * Z :=
  if collage_frames =? 4 then (2, 2)
  else if collage_frames =? 6 then (3, 2)
  else if collage_frames =? 9 then (3, 3)
  else if collage_frames =? 12 then (4, 3)
  else (2, 2).

(** [l[:n]] *)
Definition slice_to {A} (n : Z) (l : list A) : list A :=
  if n <? 0 then take (length l - Z.to_nat (- n)) l else take (Z.to_nat n) l.

Inductive collage_outcome :=
  | Collage (collage_width collage_height : Z)
            (pasted : list (Q * (Z * Z)))   (* frame of a timestamp, at (x, y) *)
            (caption_frames : Z)
  | OnlyExtracted (extracted : nat) (wanted : Z).
            (* "Only extracted k frames, skipping collage" *)

(** The frames that were extracted: [extracted idx] tells whether
    ffmpeg and [Image.open] succeeded for the timestamp of index [idx]. *)
Definition extract_frames (random_times : list Q) (extracted : nat -> bool)
    : list Q :=
  omap (fun p : nat * Q => if extracted p.1 then Some p.2 else None)
       (imap (fun i t => (i, t)) random_times).

(** [generate_video_collage]; a duration that does not parse is taken
    as 60 seconds. *)
Definition generate_video_collage (collage_frames : Z) (video_duration : option Q)
    (rng : nat -> Q) (extracted : nat -> bool) : collage_outcome :=
  let video_duration := default (60 : Q) video_duration in
  let '(random_times, collage_frames) :=
    collage_timestamps video_duration collage_frames rng in
  let frames := extract_frames random_times extracted in
  if Z.of_nat (length frames) >=? collage_frames then
    let target_width := 640 in
    let target_height := 480 in
    let '(grid_cols, grid_rows) := grid collage_frames in
    Collage (target_width * grid_cols) (target_height * grid_rows)
      (imap (fun idx frame =>
               let row := Z.of_nat idx / grid_cols in
               let col := Z.of_nat idx mod grid_cols in
               (frame, (col * target_width, row * target_height)))
            (slice_to collage_frames frames))
      collage_frames
  else OnlyExtracted (length frames) collage_frames.

(** ** The watermark *)

(** A frame is its 8-bit channel values, row after row. *)
Abbreviation image := (list Z).

Definition is_uint8 (v : Z) : Prop := 0 <= v <= 255.

(** The OpenCV build: the two text routines, which the source calls
    and does not define ([getTextSize] gives
    [((text_width, text_height), baseline)], [putText] draws on a
    frame), and whether its multiply-add is one fused operation. *)
Record cv2 := {
  getTextSize : string -> Q -> Z -> Z * Z * Z;
  putText : image -> string -> Z * Z -> Q -> Z * Z * Z -> Z -> image;
  fused_multiply_add : bool;
}.

(** [saturate_cast<uchar>] *)
Definition saturate_cast (v : Z) : Z := Z.max 0 (Z.min 255 v).

(** [cvRound]: the nearest integer, a tie goes to the even one. *)
Definition cvRound (x : Q) : Z := rint x.

(** [v_fma(a, b, c)], [a * b + c] in single precision: one rounding
    when the operation is fused, one after the product and one after
    the sum when it is not. *)
Definition v_fma (fused : bool) (a b c : Q) : Q :=
  if fused then binary32 (a * b + c)
  else binary32 (binary32 (a * b) + c).

(** [cv2.addWeighted(src1, alpha, src2, beta, gamma)] on 8-bit frames:
    [saturate(src1*alpha + src2*beta + gamma)] for every channel value,
    the weights cast from double to single precision and the sum
    evaluated in single precision as
    [v_fma(src1, alpha, v_fma(src2, beta, gamma))]. *)
Definition addWeighted (cv : cv2) (src1 : image) (alpha : Q) (src2 : image)
    (beta gamma : Q) : image :=
  let fused := fused_multiply_add cv in
  zip_with (fun a b =>
              saturate_cast
                (cvRound (v_fma fused (inject_Z a) (binary32 alpha)
                            (v_fma fused (inject_Z b) (binary32 beta)
                               (binary32 gamma)))))
           src1 src2.

Definition margin : Z := 20.

(** [positions_map.get(position, positions_map['bottom-right'])] *)
Definition text_position (width height text_width text_height : Z)
    (position : string) : Z * Z :=
  if String.eqb position "top-left" then (margin, margin + text_height)
  else if String.eqb position "top-center"
  then ((width - text_width) / 2, margin + text_height)
  else if String.eqb position "top-right"
  then (width - text_width - margin, margin + text_height)
  else if String.eqb position "center-left" then (margin, (height + text_height) / 2)
  else if String.eqb position "center"
  then ((width - text_width) / 2, (height + text_height) / 2)
  else if String.eqb position "center-right"
  then (width - text_width - margin, (height + text_height) / 2)
  else if String.eqb position "bottom-left" then (margin, height - margin)
  else if String.eqb position "bottom-center"
  then ((width - text_width) / 2, height - margin)
  else (width - text_width - margin, height - margin).

(** The overlay of one frame: a copy with the black outline and the
    white text drawn on it. *)
Definition draw_overlay (cv : cv2) (width height : Z)
    (watermark_text position : string) (frame : image) : image :=
  let font_scale := (inject_Z height / 1000)%Q in
  let font_thickness := Z.max 1 (Qtruncate (inject_Z height / 400)%Q) in
  let '(text_width, text_height, baseline) :=
    getTextSize cv watermark_text font_scale font_thickness in
  let pos := text_position width height text_width text_height position in
  let outline_thickness := font_thickness + 2 in
  let overlay := putText cv frame watermark_text pos font_scale (0, 0, 0)
                   outline_thickness in
  putText cv overlay watermark_text pos font_scale (255, 255, 255) font_thickness.

(** The body of the frame loop of [apply_watermark_to_video], for a
    finite [opacity]; [1 - alpha] is a Python [float]. *)
Definition watermark_frame (cv : cv2) (width height : Z)
    (watermark_text position : string) (opacity : Q) (frame : image) : image :=
  let overlay := draw_overlay cv width height watermark_text position frame in
  let alpha := opacity in
  addWeighted cv overlay alpha frame (binary64 (1 - alpha)) 0.

(** [apply_watermark_to_video]: the frames written to the output. *)
Definition apply_watermark_to_video (cv : cv2) (width height : Z)
    (frames : list image) (watermark_text position : string) (opacity : Q)
    : list image :=
  map (watermark_frame cv width height watermark_text position opacity) frames.

(** ** The admin utilities *)

(** [sep.join(l)] *)
Fixpoint join (sep : string) (l : list string) : string :=
  match l with
  | [] => EmptyString
  | [w] => w
  | w :: rest => w +:+ sep +:+ join sep rest
  end.

(** The loop of [broadcast]: one [send_message] per user; [delivers]
    tells for which users the call does not raise. *)
Fixpoint broadcast_loop (delivers : Z -> bool) (broadcast_msg : string)
    (users : list Z) (sent_count failed_count : Z)
    : list (Z * string) * Z * Z :=
  match users with
  | [] => ([], sent_count, failed_count)
  | user_id :: rest =>
      if delivers user_id then
        let '(sent, sc, fc) :=
          broadcast_loop delivers broadcast_msg rest (sent_count + 1) failed_count in
        ((user_id, broadcast_msg) :: sent, sc, fc)
      else broadcast_loop delivers broadcast_msg rest sent_count (failed_count + 1)
  end.

Inductive broadcast_reply :=
  | BroadcastChannelMessage                   (* not an admin *)
  | BroadcastUsage                            (* "Usage: /broadcast <message>" *)
  | BroadcastReport (sent_count failed_count : Z).

(** [SELECT user_id FROM users]: the table is scanned in the order of
    its integer primary key. *)
Definition select_users (users : gset Z) : list Z :=
  merge_sort Z.le (elements users).

(** [broadcast]: the messages delivered, in the order of the sends, and
    the reply to the admin. *)
Definition broadcast (ADMINS : list Z) (st : bot_state) (delivers : Z -> bool)
    (message : Message) : list (Z * string) * broadcast_reply :=
  if negb (is_admin ADMINS (from_user message)) then ([], BroadcastChannelMessage)
  else
    match split (text message) with
    | _ :: w :: ws =>
        let broadcast_msg := join " " (w :: ws) in
        let '(sent, sent_count, failed_count) :=
          broadcast_loop delivers broadcast_msg (select_users (users st)) 0 0 in
        (sent, BroadcastReport sent_count failed_count)
    | _ => ([], BroadcastUsage)
    end.

(** ** The stored configuration: [load_config] and [save_config] *)

(** [json.dumps] and [json.loads] on the values kept in [BOT_CONFIG],
    and a column value as a Python value. A column value is a text or
    [NULL] ([None]); [json.dumps] raises on a value it cannot
    serialize, [json.loads] on [None] and on a text that is not
    JSON. *)
Record json (V : Type) := {
  dumps : V -> result string;
  loads : option string -> result V;
  py_value : option string -> V;
}.
Arguments dumps {V} _ _.
Arguments loads {V} _ _.
Arguments py_value {V} _ _.

(** One row of [load_config]: a key of [BOT_CONFIG] takes the decoded
    value, or the column value as it is when decoding raises; other
    keys are skipped. *)
Definition load_row {V} (J : json V) (key : string) (value : option string)
    (BOT_CONFIG : gmap string V) : gmap string V :=
  match BOT_CONFIG !! key with
  | Some _ =>
      match loads J value with
      | Ok v => <[key := v]> BOT_CONFIG
      | Raise _ => <[key := py_value J value]> BOT_CONFIG
      end
  | None => BOT_CONFIG
  end.

(** [load_config]: every row of the [config] table in turn. The table
    has [key] as its primary key. *)
Definition load_config {V} (J : json V) (config : gmap string (option string))
    (BOT_CONFIG : gmap string V) : gmap string V :=
  map_fold (load_row J) BOT_CONFIG config.

(** [save_config(key, value)]: [INSERT OR REPLACE] into the table, and
    the entry of [BOT_CONFIG]. The value is serialized first, so an
    exception of [json.dumps] leaves both as they were. *)
Definition save_config {V} (J : json V) (key : string) (value : V)
    (st : gmap string (option string) * gmap string V)
    : result (gmap string (option string) * gmap string V) :=
  match dumps J value with
  | Raise x => Raise x
  | Ok text => Ok (<[key := Some text]> st.1, <[key := value]> st.2)
  end.

(** ** The progress callback of the large-file download *)

(** [progress(current, total)] at time [current_time]: the new
    [last_update] and whether a line is printed. With [total = 0] the
    percentage cannot be computed and the call raises, after
    [last_update] has been set. *)
Definition progress (last_update current_time : Q) (current total : Z)
    : Q * result bool :=
  if Qle_bool 2 (current_time - last_update) || (current =? total) then
    (current_time, if total =? 0 then Raise ZeroDivisionError else Ok true)
  else (last_update, Ok false).

(** The calls of one download, [(current_time, current)] each, up to
    the first one in which the callback raises; the calls at which a
    line was printed. *)
Fixpoint progress_run (last_update : Q) (total : Z) (calls : list (Q * Z))
    : result (list (Q * Z)) :=
  match calls with
  | [] => Ok []
  | (current_time, current) :: rest =>
      match progress last_update current_time current total with
      | (_, Raise x) => Raise x
      | (last_update', Ok printed) =>
          match progress_run last_update' total rest with
          | Raise x => Raise x
          | Ok lines =>
              Ok (if printed then (current_time, current) :: lines else lines)
          end
      end
  end.

(** ** Vocabulary of the further properties *)

(** The seconds of video that the clips of a preview add up to. *)
Fixpoint clip_seconds (cmds : list tool_cmd) : Z :=
  match cmds with
  | [] => 0
  | FfmpegClip _ _ t _ :: rest => t + clip_seconds rest
  | _ :: rest => clip_seconds rest
  end.

(** Printed lines that keep their distance: each comes two seconds or
    more after the one before it (after [last_update] for the first),
    or reports the end of the download. *)
Fixpoint spaced (total : Z) (last_update : Q) (lines : list (Q * Z)) : Prop :=
  match lines with
  | [] => True
  | (current_time, current) :: rest =>
      ((2 <= current_time - last_update)%Q \/ current = total) /\
      spaced total current_time rest
  end.

(** What [load_config] makes of a column value. *)
Definition decoded {V} (J : json V) (value : option string) : V :=
  match loads J value with
  | Ok v => v
  | Raise _ => py_value J value
  end.

(** The values of [BOT_CONFIG] that the samples use. *)
Inductive config_value :=
  | CNone
  | CBool (b : bool)
  | CStr (s : string).

(** A string in which no white-space character starts, and a word:
    such a string that is not empty. *)
Fixpoint no_space (s : string) : bool :=
  match s with
  | EmptyString => true
  | String c s' => (space_width s =? 0)%nat && no_space s'
  end.

(** The same for a string [w] that is followed by [s]: the word being
    read by [split]. *)
Fixpoint clear_before (w s : string) : bool :=
  match w with
  | EmptyString => true
  | String _ w' => (space_width (w +:+ s) =? 0)%nat && clear_before w' s
  end.

Definition is_word (w : string) : Prop := w <> EmptyString /\ no_space w = true.

(** The bytes that worker [i] received, when its response is complete. *)
Definition body_of (srv : remote) (file_size n : Z) (i : nat) : list Byte.byte :=
  match response_of srv file_size n i with
  | Body data => data
  | _ => []
  end.

(** What a handler run for [user_id] may change between [st] and [st']:
    the session of that user, and rows added to the registry. *)
Definition only_touches (user_id : Z) (st st' : bot_state) : Prop :=
  users st' = users st /\
  BOT_CONFIG st' = BOT_CONFIG st /\
  (forall other, other <> user_id ->
     PENDING_UPLOADS st' !! other = PENDING_UPLOADS st !! other) /\
  (forall tok row, media st !! tok = Some row -> media st' !! tok = Some row).

(** ** Sample values, used to run the definitions *)

Definition demo_message (t : string) : Message :=
  {| from_user := 7; chat_id := 7; message_id := 1; text := t;
     video := None; photo := [] |}.

Definition demo_config : config :=
  {| cfg_watermark_text := EmptyString; cfg_watermark_position := "bottom-right";
     cfg_watermark_opacity := Finite (1 # 2); cfg_collage_quality := 85 |}.

Definition demo_state (db : gmap string media_row) : bot_state :=
  {| media := db; users := ∅; PENDING_UPLOADS := ∅; BOT_CONFIG := demo_config |}.

Definition demo_uuid : N := 0x123e4567e89b42d3a456426614174000.

Definition demo_content : list Byte.byte :=
  [Byte.x00; Byte.x01; Byte.x02; Byte.x03; Byte.x04;
   Byte.x05; Byte.x06; Byte.x07; Byte.x08; Byte.x09].

(** A server that honours range requests for [demo_content]. *)
Definition demo_server : remote :=
  {| head := Ok (Some 10);
     get := Body demo_content;
     get_range := fun _ a b => Body (byte_range demo_content a b) |}.

(** A server for a file of two bytes that honours a Range header and,
    as HTTP has it, ignores one that is not a range, sending the whole
    file. *)
Definition demo_short_content : list Byte.byte := [Byte.x0a; Byte.x0b].

Definition demo_short_server : remote :=
  {| head := Ok (Some 2);
     get := Body demo_short_content;
     get_range := fun _ a b =>
       if (0 <=? a) && (a <=? b) then Body (byte_range demo_short_content a b)
       else Body demo_short_content |}.

(** The same server, except that the request of worker 0 is refused. *)
Definition demo_failing_server : remote :=
  {| head := Ok (Some 10);
     get := Body demo_content;
     get_range := fun i a b =>
       if (i =? 0)%nat then Refused else Body (byte_range demo_content a b) |}.

Definition demo_upload : Message :=
  {| from_user := 7; chat_id := 7; message_id := 5; text := EmptyString;
     video := Some "FILE"; photo := [] |}.

Definition demo_env : env :=
  {| uuid4 := demo_uuid;
     py_int := fun _ => Ok 3;
     py_float := fun _ => Ok (Finite (1 # 2));
     download_succeeds := true |}.

Definition demo_call (d : string) : CallbackQuery :=
  {| call_from_user := 7; data := d; call_message := demo_upload |}.

(** The state after admin 7 has uploaded a video. *)
Definition demo_session_state : bot_state :=
  (handle_media [7] (demo_state ∅) demo_upload).1.

(** A generator whose draws are 3/4, 2/4, 1/4, 0, 3/4, ... *)
Definition demo_rng : nat -> Q := fun i => (Z.of_nat (3 - i mod 4) # 4)%Q.

(** Text routines that paint the first channel value of an image. *)
Definition demo_cv2 : cv2 :=
  {| getTextSize := fun _ _ _ => (2, 1, 0);
     putText := fun img _ _ _ color _ =>
       match img with
       | [] => []
       | _ :: rest => color.1.1 :: rest
       end;
     fused_multiply_add := false |}.

(** The same routines in a build with a fused multiply-add. *)
Definition demo_cv2_fma : cv2 :=
  {| getTextSize := getTextSize demo_cv2; putText := putText demo_cv2;
     fused_multiply_add := true |}.

(** A state with sessions of the admins 7 and 8. *)
Definition demo_two_sessions : bot_state :=
  (handle_media [7; 8] demo_session_state
     {| from_user := 8; chat_id := 8; message_id := 6; text := EmptyString;
        video := None; photo := ["SMALL"; "LARGE"] |}).1.



(** A broadcast text with a no-break space (U+00A0) after the command,
    doubled spaces and a line break. *)
Definition demo_broadcast_text : string :=
  "/broadcast" +:+ String "194" (String "160" "hello  big")
  +:+ String "010"%char "world".

(** A state whose users table holds the chats 9, 7 and 8. *)
Definition demo_users_state : bot_state :=
  set_users {[9; 7; 8]} (demo_state ∅).

(** A server that ignores the Range header and always sends the whole
    of [demo_content]. *)
Definition demo_rangeless_server : remote :=
  {| head := Ok (Some 10);
     get := Body demo_content;
     get_range := fun _ _ _ => Body demo_content |}.

(** A codec for the JSON constants [null], [true] and [false]; it
    takes every other text as one that does not decode, and does not
    serialize strings. *)
Definition demo_json : json config_value :=
  {| dumps := fun v =>
       match v with
       | CNone => Ok "null"
       | CBool true => Ok "true"
       | CBool false => Ok "false"
       | CStr _ => Raise ValueError
       end;
     loads := fun value =>
       match value with
       | Some text =>
           if String.eqb text "null" then Ok CNone
           else if String.eqb text "true" then Ok (CBool true)
           else if String.eqb text "false" then Ok (CBool false)
           else Raise ValueError
       | None => Raise ValueError
       end;
     py_value := fun value =>
       match value with
       | Some text => CStr text
       | None => CNone
       end |}.

(** Defaults of two switches and a text, and a table with a row that
    does not decode and a row of an unknown key. *)
Definition demo_defaults : gmap string config_value :=
  <["generate_preview" := CBool true]>
    (<["content_protection" := CBool true]>
       (<["watermark_text" := CStr "none"]> ∅)).

Definition demo_config_table : gmap string (option string) :=
  <["watermark_text" := Some "@channel"]>
    (<["language" := Some "true"]> ∅).

(** The progress calls of a download of 100 bytes, [(time, current)]
    each. *)
Definition demo_progress_calls : list (Q * Z) :=
  [(10%Q, 10); (11%Q, 40); (13%Q, 70); ((27 # 2)%Q, 100)].

(** * Properties *)

(** ** The registry *)

Section registry.
Implicit Types (db : gmap string media_row) (tok m k : string) (p : bool).


Lemma insert_media_Ok db tok row db' :
  insert_media db tok row = Ok db' ->
  db !! tok = None /\ db' = <[tok := row]> db.
Proof.
  unfold insert_media. destruct (db !! tok) eqn:E; [discriminate|].
  intros [= <-]. done.
Qed.

Lemma insert_media_Raise db tok row :
  is_Some (db !! tok) -> insert_media db tok row = Raise IntegrityError.
Proof. intros [r Hr]. unfold insert_media. by rewrite Hr. Qed.

(** A stored row is never replaced by a later insert. *)
Lemma insert_step_stored db req tok r :
  db !! tok = Some r -> insert_step db req !! tok = Some r.
Proof.
  destruct req as [[[tok' m] k] p]. intros Hr. unfold insert_step, insert_media.
  destruct (db !! tok') eqn:E; [done|].
  rewrite lookup_insert_ne; [done|]. intros ->. congruence.
Qed.

Lemma fold_insert_step_stored later db tok r :
  db !! tok = Some r -> fold_left insert_step later db !! tok = Some r.
Proof.
  revert db. induction later as [|req later IH]; intros db Hr; [done|].
  simpl. apply IH. by apply insert_step_stored.
Qed.

(** A payload that no insert names stays absent. *)
Lemma fold_insert_step_absent reqs db tok :
  tok ∉ map (fun r => r.1.1.1) reqs ->
  fold_left insert_step reqs db !! tok = db !! tok.
Proof.
  revert db. induction reqs as [|[[[tok' m] k] p] reqs IH]; intros db Hn; [done|].
  simpl in *. apply not_elem_of_cons in Hn as [Hne Hn].
  rewrite IH by done. unfold insert_media.
  destruct (db !! tok'); [done|]. by rewrite lookup_insert_ne.
Qed.

Lemma redeem_lookup db tok :
  redeem db tok =
  (fun r => (row_file_id r, row_media_type r, protect_of (row_content_protection r)))
    <$> db !! tok.
Proof. unfold redeem, select_media. by destruct (db !! tok). Qed.

End registry.

(** C1. A row inserted under a token is what the token resolves to,
    now and after any later inserts: file, kind and protection flag
    come back as they were stored, and [handle_start] sends that file
    with that flag. A string that no insert ever named resolves to
    nothing, and [handle_start] answers that the link is invalid. *)
Theorem issue_resolve_roundtrip :
  (forall db tok m k p db' later ADMINS delivers st msg cmd rest,
     insert_media db tok (MediaRow m k (Some (protection_int p))) = Ok db' ->
     media st = fold_left insert_step later db' ->
     split (text msg) = cmd :: tok :: rest ->
     redeem (media st) tok = Some (m, k, p) /\
     (handle_start ADMINS delivers st msg).1.2 = sent_for (chat_id msg) m k p)
  /\
  (forall reqs tok ADMINS delivers st msg cmd rest,
     tok ∉ map (fun r => r.1.1.1) reqs ->
     media st = inserted reqs ->
     split (text msg) = cmd :: tok :: rest ->
     redeem (media st) tok = None /\
     handle_start ADMINS delivers st msg = (st, [ReplyInvalidLink], None)).
Proof.
  split.
  - intros db tok m k p db' later ADMINS delivers st msg cmd rest Hins Hst Hsplit.
    apply insert_media_Ok in Hins as [_ ->].
    assert (Hred : redeem (media st) tok = Some (m, k, p)).
    { rewrite redeem_lookup, Hst.
      rewrite (fold_insert_step_stored later _ tok
                 (MediaRow m k (Some (protection_int p)))).
      - simpl. by destruct p.
      - apply lookup_insert_eq. }
    split; [exact Hred|].
    unfold handle_start, sent_for. rewrite Hsplit, Hred.
    destruct (String.eqb k "video"), (String.eqb k "photo"),
      (delivers (chat_id msg)); reflexivity.
  - intros reqs tok ADMINS delivers st msg cmd rest Hn Hst Hsplit.
    assert (Hred : redeem (media st) tok = None).
    { rewrite redeem_lookup, Hst. unfold inserted.
      rewrite fold_insert_step_absent by done. by rewrite lookup_empty. }
    split; [exact Hred|].
    unfold handle_start. by rewrite Hsplit, Hred.
Qed.

Lemma issue_resolve_roundtrip_witness :
  let row := MediaRow "FILE" "video" (Some (protection_int false)) in
  let st := demo_state (fold_left insert_step [("bbbb", "G", "photo", true)]
                          (<[ "123e4567e89" := row ]> ∅)) in
  (redeem (media st) "123e4567e89" = Some ("FILE", "video", false) /\
   (handle_start [1] (fun _ => true) st (demo_message "/start 123e4567e89")).1.2
   = [SendVideo 7 "FILE" false])
  /\
  (let st' := demo_state (inserted [("bbbb", "G", "photo", true)]) in
   redeem (media st') "123e4567e89" = None /\
   handle_start [1] (fun _ => true) st' (demo_message "/start 123e4567e89")
   = (st', [ReplyInvalidLink], None)).
Proof.
  split.
  - exact (proj1 issue_resolve_roundtrip ∅ "123e4567e89" "FILE" "video" false
             _ [("bbbb", "G", "photo", true)] [1] (fun _ => true)
             (demo_state (fold_left insert_step [("bbbb", "G", "photo", true)]
                (<[ "123e4567e89" :=
                      MediaRow "FILE" "video" (Some (protection_int false)) ]> ∅)))
             (demo_message "/start 123e4567e89") "/start" []
             eq_refl eq_refl eq_refl).
  - refine (proj2 issue_resolve_roundtrip [("bbbb", "G", "photo", true)]
             "123e4567e89" [1] (fun _ => true)
             (demo_state (inserted [("bbbb", "G", "photo", true)]))
             (demo_message "/start 123e4567e89") "/start" [] _ eq_refl eq_refl).
    simpl. rewrite list_elem_of_In. simpl. intros [H|[]]. discriminate.
Defined.

(** C10. A row whose [content_protection] is NULL is sent protected;
    the redeem path sends unprotected only for a stored 0. *)
Theorem null_protection_is_protected :
  forall ADMINS delivers st msg cmd tok rest f k,
    split (text msg) = cmd :: tok :: rest ->
    media st !! tok = Some (MediaRow f k None) ->
    redeem (media st) tok = Some (f, k, true) /\
    (handle_start ADMINS delivers st msg).1.2 = sent_for (chat_id msg) f k true /\
    (forall v, protect_of v = false <-> v = Some 0).
Proof.
  intros ADMINS delivers st msg cmd tok rest f k Hsplit Hrow.
  assert (Hred : redeem (media st) tok = Some (f, k, true)).
  { rewrite redeem_lookup, Hrow. reflexivity. }
  split; [exact Hred|]. split.
  - unfold handle_start, sent_for. rewrite Hsplit, Hred.
    destruct (String.eqb k "video"), (String.eqb k "photo"),
      (delivers (chat_id msg)); reflexivity.
  - intros [v|]; simpl; split; try discriminate.
    + intros H. apply negb_false_iff, Z.eqb_eq in H. by subst.
    + intros [= ->]. reflexivity.
Qed.

Lemma null_protection_is_protected_witness :
  let st := demo_state (<[ "123e4567e89" := MediaRow "FILE" "photo" None ]> ∅) in
  redeem (media st) "123e4567e89" = Some ("FILE", "photo", true) /\
  (handle_start [1] (fun _ => true) st (demo_message "/start 123e4567e89")).1.2
  = [SendPhoto 7 "FILE" true] /\
  (forall v, protect_of v = false <-> v = Some 0).
Proof.
  exact (null_protection_is_protected [1] (fun _ => true)
           (demo_state (<[ "123e4567e89" := MediaRow "FILE" "photo" None ]> ∅))
           (demo_message "/start 123e4567e89") "/start" "123e4567e89" []
           "FILE" "photo" eq_refl eq_refl).
Defined.

(** ** Tokens *)

Lemma hex_digit_not_dash d : Ascii.eqb (hex_digit d) "-" = false.
Proof.
  unfold hex_digit. generalize (N.to_nat d) as n. intros n.
  do 16 (destruct n as [|n]; [reflexivity|]). simpl. by destruct n.
Qed.

Lemma make_payload_digits u :
  make_payload u =
  String (hex_digit (nibble u 31)) (String (hex_digit (nibble u 30))
  (String (hex_digit (nibble u 29)) (String (hex_digit (nibble u 28))
  (String (hex_digit (nibble u 27)) (String (hex_digit (nibble u 26))
  (String (hex_digit (nibble u 25)) (String (hex_digit (nibble u 24))
  (String (hex_digit (nibble u 23)) (String (hex_digit (nibble u 22))
  (String (hex_digit (nibble u 21)) EmptyString)))))))))).
Proof.
  unfold make_payload, uuid_str.
  cbv beta iota zeta delta [hex_pad substring String.append].
  cbn [remove_char]. rewrite !hex_digit_not_dash. reflexivity.
Qed.

Lemma make_payload_length u : String.length (make_payload u) = 11%nat.
Proof. rewrite make_payload_digits. reflexivity. Qed.

Lemma issue_token_Ok db u m k p tok db' :
  issue_token db u m k p = Ok (tok, db') ->
  tok = make_payload u /\ db !! tok = None /\
  db' = <[tok := MediaRow m k (Some (protection_int p))]> db.
Proof.
  unfold issue_token.
  destruct (insert_media _ _ _) as [d|] eqn:E; [|discriminate].
  intros [= <- <-]. apply insert_media_Ok in E as [? ->]. done.
Qed.

Lemma issue_step_inv db0 acc req :
  issued_inv db0 acc -> issued_inv db0 (issue_step acc req).
Proof.
  destruct acc as [toks db], req as [[[u m] k] p].
  intros (Hnd & Hin & Hkeep). unfold issue_step. cbn [fst snd].
  destruct (issue_token db u m k p) as [[tok db']|] eqn:E;
    [|split; [exact Hnd|split; [exact Hin|exact Hkeep]]].
  apply issue_token_Ok in E as (Htok & Hfresh & ->).
  clear Htok.
  assert (Hnew : tok ∉ toks).
  { intros Ht. destruct (Hin _ Ht) as [_ [r Hr]]. cbn [snd] in Hr. congruence. }
  assert (Hold : db0 !! tok = None).
  { destruct (db0 !! tok) eqn:E0; [|reflexivity].
    destruct (Hkeep tok) as [r Hr]; [by eexists|]. cbn [snd] in Hr. congruence. }
  unfold issued_inv. cbn [fst snd]. split; [|split].
  - apply NoDup_app. split; [exact Hnd|]. split; [|apply NoDup_singleton].
    intros t Ht Ht'. apply list_elem_of_singleton in Ht'. by subst.
  - intros t Ht. apply elem_of_app in Ht as [Ht|Ht].
    + destruct (Hin _ Ht) as [H1 H2]. split; [exact H1|]. cbn [snd] in H2.
      rewrite lookup_insert_ne; [exact H2|]. intros ->. by apply Hnew.
    + apply list_elem_of_singleton in Ht as ->. split; [exact Hold|].
      rewrite lookup_insert_eq. by eexists.
  - intros t Ht. destruct (decide (tok = t)) as [->|Hne].
    + rewrite lookup_insert_eq. by eexists.
    + rewrite lookup_insert_ne by exact Hne. by apply Hkeep.
Qed.

Lemma issue_many_inv db reqs : issued_inv db (issue_many db reqs).
Proof.
  unfold issue_many.
  assert (H0 : issued_inv db ([], db)).
  { unfold issued_inv. cbn [fst snd]. split; [apply NoDup_nil_2|]. split.
    - intros t Ht. by apply elem_of_nil in Ht.
    - intros t Ht. exact Ht. }
  revert H0. generalize (@nil string, db) as acc.
  induction reqs as [|req reqs IH]; intros acc Hacc; [exact Hacc|].
  simpl. apply IH. by apply issue_step_inv.
Qed.

(** C2, as the code has it. A token is the first 12 characters of the
    text of a fresh UUID without the hyphen among them, 11 hexadecimal
    digits. The INSERT refuses a token that is already stored: the
    issue then raises and hands out nothing; no second UUID is drawn.
    A token that is handed out was not stored before, so the tokens of
    any run of issues are pairwise distinct and distinct from what the
    table held at its start. *)
Theorem issued_tokens_distinct :
  (forall u, String.length (make_payload u) = 11%nat) /\
  (forall db u m k p,
     is_Some (db !! make_payload u) ->
     issue_token db u m k p = Raise IntegrityError) /\
  (forall db u m k p tok db',
     issue_token db u m k p = Ok (tok, db') ->
     db !! tok = None /\
     db' !! tok = Some (MediaRow m k (Some (protection_int p)))) /\
  (forall db reqs,
     NoDup (issue_many db reqs).1 /\
     forall t, t ∈ (issue_many db reqs).1 ->
               db !! t = None /\ is_Some ((issue_many db reqs).2 !! t)).
Proof.
  split; [exact make_payload_length|]. split; [|split].
  - intros db u m k p Hs. unfold issue_token.
    by rewrite (insert_media_Raise _ _ _ Hs).
  - intros db u m k p tok db' (-> & Hfresh & ->)%issue_token_Ok.
    split; [done|]. apply lookup_insert_eq.
  - intros db reqs. destruct (issue_many_inv db reqs) as (Hnd & Hin & _).
    split; [done|]. exact Hin.
Qed.

Lemma issued_tokens_distinct_witness :
  issue_token (<[make_payload demo_uuid := MediaRow "OLD" "video" (Some 1)]> ∅)
    demo_uuid "NEW" "photo" true = Raise IntegrityError
  /\
  (∅ : gmap string media_row) !! "123e4567e89" = None /\
  (<["123e4567e89" := MediaRow "NEW" "photo" (Some (protection_int true))]>
     (∅ : gmap string media_row)) !! "123e4567e89"
  = Some (MediaRow "NEW" "photo" (Some (protection_int true))).
Proof.
  split.
  - apply (proj1 (proj2 issued_tokens_distinct)).
    rewrite lookup_insert_eq. by eexists.
  - exact (proj1 (proj2 (proj2 issued_tokens_distinct)) ∅ demo_uuid "NEW" "photo"
             true "123e4567e89" _ eq_refl).
Defined.

(** C2 as stated fails: the token of this UUID has 11 characters, not
    12, and when it is already stored the issue raises instead of
    drawing another one. *)
Lemma token_length_and_regeneration_counterexample :
  make_payload demo_uuid = "123e4567e89" /\
  String.length (make_payload demo_uuid) <> 12%nat /\
  issue_token (<[make_payload demo_uuid := MediaRow "OLD" "video" (Some 1)]> ∅)
    demo_uuid "NEW" "photo" true = Raise IntegrityError.
Proof. split; [reflexivity|]. split; [discriminate|reflexivity]. Qed.

(** ** The parallel download *)

Lemma part_path_inj destination i j :
  part_path destination i = part_path destination j -> i = j.
Proof.
  unfold part_path. intros H.
  apply (inj (String.append destination)) in H.
  apply (inj (String.append ".part")) in H.
  by apply (inj pretty) in H.
Qed.

Lemma string_length_app (s1 s2 : string) :
  String.length (s1 +:+ s2) = (String.length s1 + String.length s2)%nat.
Proof. induction s1 as [|c s1 IH]; simpl; [done|]. by rewrite IH. Qed.

Lemma part_path_not_destination destination i :
  part_path destination i <> destination.
Proof.
  unfold part_path. intros H.
  assert (Hl : String.length (destination +:+ ".part" +:+ pretty i)
               = String.length destination) by (by rewrite H).
  rewrite !string_length_app in Hl. simpl in Hl. lia.
Qed.

Lemma lookup_remove_temp_files l (fs : filesystem) p :
  remove_temp_files l fs !! p = if decide (p ∈ l) then None else fs !! p.
Proof.
  unfold remove_temp_files. induction l as [|q l IH].
  - simpl. destruct (decide (p ∈ [])) as [H|H]; [by apply elem_of_nil in H|done].
  - cbn [foldr]. destruct (decide (q = p)) as [->|Hne].
    + rewrite lookup_delete_eq.
      destruct (decide (p ∈ p :: l)) as [H|H]; [done|].
      exfalso. apply H. left.
    + rewrite lookup_delete_ne by done. rewrite IH.
      destruct (decide (p ∈ l)) as [H|H], (decide (p ∈ q :: l)) as [H'|H'];
        try done.
      * exfalso. apply H'. by right.
      * apply elem_of_cons in H' as [->|?]; done.
Qed.

Lemma lookup_submitted file_size n (i : nat) :
  (i < Z.to_nat n)%nat ->
  submitted file_size n !! i
  = Some (i, start_byte file_size n (Z.of_nat i), end_byte file_size n (Z.of_nat i)).
Proof.
  intros Hi. unfold submitted.
  rewrite list_lookup_fmap, lookup_seq_lt by done. reflexivity.
Qed.

Section workers.
Variables (srv : remote) (destination : string) (file_size n : Z).

Local Abbreviation response_of := (response_of srv file_size n).

(** What the pool leaves behind, whatever the order of the workers:
    every scheduled worker has appended its temp file and has run to
    its result; the file of a worker holds what reached it; no other
    file is touched. *)
Lemma run_workers_spec schedule (fs : filesystem) started :
  (forall i, i ∈ schedule -> (i < Z.to_nat n)%nat) ->
  let out := run_workers srv destination (submitted file_size n) schedule
               (fs, started) in
  out.1.2 = started ++ map (part_path destination) schedule /\
  out.2 = map (fun i => complete (response_of i)) schedule /\
  (forall p, p ∉ map (part_path destination) schedule -> out.1.1 !! p = fs !! p) /\
  (forall i d, i ∈ schedule -> response_of i = Body d ->
               out.1.1 !! part_path destination i = Some d).
Proof.
  revert fs started. induction schedule as [|i rest IH]; intros fs started Hv.
  - simpl. rewrite app_nil_r. split; [done|]. split; [done|]. split; [done|].
    intros i d Hi. by apply elem_of_nil in Hi.
  - assert (Hi : (i < Z.to_nat n)%nat) by (apply Hv; left).
    assert (Hrest : forall j, j ∈ rest -> (j < Z.to_nat n)%nat)
      by (intros j Hj; apply Hv; by right).
    cbn [run_workers]. rewrite (lookup_submitted _ _ _ Hi).
    unfold download_part. cbn [fst snd]. fold (response_of i).
    set (fs' := match response_of i with
                | Body data => <[part_path destination i := data]> fs
                | Broken written => <[part_path destination i := written]> fs
                | Refused => fs
                end).
    specialize (IH fs' (started ++ [part_path destination i]) Hrest).
    assert (Hrun :
      (let '(st', r) :=
         match response_of i with
         | Body data =>
             (<[part_path destination i := data]> fs,
              started ++ [part_path destination i], true)
         | Broken written =>
             (<[part_path destination i := written]> fs,
              started ++ [part_path destination i], false)
         | Refused => (fs, started ++ [part_path destination i], false)
         end in
       let '(st'', rs) :=
         run_workers srv destination (submitted file_size n) rest st' in
       (st'', r :: rs))
      = ((run_workers srv destination (submitted file_size n) rest
            (fs', started ++ [part_path destination i])).1,
         complete (response_of i) ::
         (run_workers srv destination (submitted file_size n) rest
            (fs', started ++ [part_path destination i])).2)).
    { subst fs'. destruct (response_of i); simpl;
        by destruct (run_workers _ _ _ rest _). }
    rewrite Hrun. clear Hrun. cbn [fst snd] in *.
    destruct IH as (IH1 & IH2 & IH3 & IH4).
    split; [|split; [|split]].
    + rewrite IH1, <- app_assoc. reflexivity.
    + simpl. by rewrite IH2.
    + intros p Hp. cbn [map] in Hp. apply not_elem_of_cons in Hp as [Hne Hp].
      rewrite (IH3 p Hp). subst fs'.
      destruct (response_of i); by rewrite ?lookup_insert_ne.
    + intros j d Hj Hd.
      destruct (decide (j ∈ rest)) as [Hin|Hnin]; [by apply IH4|].
      apply elem_of_cons in Hj as [->|Hj]; [|done].
      rewrite IH3.
      * subst fs'. rewrite Hd. apply lookup_insert_eq.
      * intros Hp. apply list_elem_of_fmap in Hp as (k & Hk & Hkin).
        apply part_path_inj in Hk. by subst.
Qed.

End workers.

Lemma merge_parts_spec destination (seg : nat -> list Byte.byte) parts :
  forall (fs : filesystem) out,
    NoDup parts ->
    fs !! destination = Some out ->
    (forall i, i ∈ parts -> fs !! part_path destination i = Some (seg i)) ->
    exists fs' : filesystem,
      merge_parts destination parts fs = (Ok fs', fs') /\
      fs' !! destination = Some (out ++ concat (map seg parts)) /\
      (forall i, i ∈ parts -> fs' !! part_path destination i = None) /\
      (forall p, p <> destination -> p ∉ map (part_path destination) parts ->
                 fs' !! p = fs !! p).
Proof.
  induction parts as [|i rest IH]; intros fs out Hnd Hdest Hparts.
  - exists fs. simpl. rewrite app_nil_r. split; [done|]. split; [done|].
    split; [|done]. intros i Hi. by apply elem_of_nil in Hi.
  - apply NoDup_cons in Hnd as [Hi Hnd].
    cbn [merge_parts]. rewrite (Hparts i) by left. rewrite Hdest. cbn [default].
    set (fs1 := delete (part_path destination i)
                  (<[destination := out ++ seg i]> fs)).
    assert (Hd1 : fs1 !! destination = Some (out ++ seg i)).
    { subst fs1. rewrite lookup_delete_ne by apply part_path_not_destination.
      apply lookup_insert_eq. }
    assert (Hp1 : forall j, j ∈ rest ->
                            fs1 !! part_path destination j = Some (seg j)).
    { intros j Hj. subst fs1.
      rewrite lookup_delete_ne
        by (intros E; apply part_path_inj in E; by subst).
      rewrite lookup_insert_ne
        by (intros E; symmetry in E; by apply part_path_not_destination in E).
      apply Hparts. by right. }
    destruct (IH fs1 (out ++ seg i) Hnd Hd1 Hp1) as (fs' & Hm & Hd & Hgone & Hother).
    exists fs'. split; [exact Hm|]. split; [|split].
    + rewrite Hd. cbn [map concat]. by rewrite <- app_assoc.
    + intros j Hj. apply elem_of_cons in Hj as [->|Hj]; [|by apply Hgone].
      rewrite Hother.
      * subst fs1. apply lookup_delete_eq.
      * apply part_path_not_destination.
      * intros Hp. apply list_elem_of_fmap in Hp as (k & Hk & Hkin).
        apply part_path_inj in Hk. by subst.
    + intros p Hpd Hp. cbn [map] in Hp. apply not_elem_of_cons in Hp as [Hne Hp].
      rewrite (Hother p Hpd Hp). subst fs1.
      rewrite lookup_delete_ne by done. by rewrite lookup_insert_ne.
Qed.

(** The ranges of the submit loop tile the file. *)
Section ranges.
Variables (content : list Byte.byte) (n : Z).
Let file_size : Z := Z.of_nat (length content).
Hypothesis (Hsize : 0 < file_size) (Hn : 1 <= n).

Local Abbreviation part_size := (file_size / n).
Local Abbreviation segment :=
  (fun i : nat => byte_range content (start_byte file_size n (Z.of_nat i))
                    (end_byte file_size n (Z.of_nat i))).

Lemma part_size_bounds : 0 <= part_size /\ n * part_size <= file_size.
Proof.
  split; [apply Z.div_pos; lia|]. apply Z.mul_div_le. lia.
Qed.

Lemma segment_inner (i : nat) :
  Z.of_nat i < n - 1 ->
  segment i = take (Z.to_nat part_size) (drop (i * Z.to_nat part_size)%nat content).
Proof.
  intros Hi. destruct part_size_bounds as [H0 _].
  unfold byte_range, end_byte, start_byte.
  destruct (Z.ltb_spec (Z.of_nat i) (n - 1)) as [_|?]; [|lia].
  f_equal; [f_equal; lia|].
  f_equal. rewrite Z2Nat.inj_mul by lia. by rewrite Nat2Z.id.
Qed.

Lemma segment_last (i : nat) :
  Z.of_nat i = n - 1 ->
  segment i = drop (i * Z.to_nat part_size)%nat content.
Proof.
  intros Hi. destruct part_size_bounds as [H0 H1].
  unfold byte_range, end_byte, start_byte.
  destruct (Z.ltb_spec (Z.of_nat i) (n - 1)) as [?|_]; [lia|].
  rewrite Z2Nat.inj_mul, Nat2Z.id by lia.
  apply take_ge. rewrite length_drop. fold file_size. 
  assert (Z.of_nat (i * Z.to_nat part_size) = Z.of_nat i * part_size)
    by (rewrite Nat2Z.inj_mul, Z2Nat.id; lia).
  unfold file_size in *. lia.
Qed.

Lemma segments_prefix (j : nat) :
  Z.of_nat j <= n - 1 ->
  concat (map segment (seq 0 j)) = take (j * Z.to_nat part_size)%nat content.
Proof.
  induction j as [|j IH]; intros Hj; [done|].
  rewrite seq_S, map_app, concat_app, IH by lia. cbn [map concat Nat.add].
  rewrite app_nil_r, segment_inner by lia.
  rewrite take_take_drop. f_equal. lia.
Qed.

Lemma segments_concat :
  concat (map segment (seq 0 (Z.to_nat n))) = content.
Proof.
  destruct (Z.to_nat n) as [|k] eqn:E; [lia|].
  rewrite seq_S, map_app, concat_app, segments_prefix by lia.
  cbn [map concat Nat.add]. rewrite app_nil_r, segment_last by lia.
  apply take_drop.
Qed.

End ranges.

Lemma ranges_tile_holds file_size n :
  0 < file_size -> 1 <= n -> ranges_tile file_size n.
Proof.
  intros Hs Hn. unfold ranges_tile, end_byte, start_byte.
  assert (H0 : 0 <= file_size / n) by (apply Z.div_pos; lia).
  assert (H1 : n * (file_size / n) <= file_size) by (apply Z.mul_div_le; lia).
  assert (Hdm : file_size = n * (file_size / n) + file_size mod n)
    by (apply Z.div_mod; lia).
  set (ps := file_size / n) in *. clearbody ps.
  split; [lia|]. split.
  { destruct (Z.ltb_spec (n - 1) (n - 1)); lia. }
  split.
  { intros i Hi. destruct (Z.ltb_spec i (n - 1)); [|lia]. split; [lia|ring]. }
  split.
  { destruct (Z.ltb_spec (n - 1) (n - 1)); lia. }
  intros x Hx.
  destruct (Z_lt_le_dec x ((n - 1) * ps)) as [Hlt|Hge].
  - assert (Hps : 0 < ps) by nia.
    exists (x / ps).
    assert (Hq : ps * (x / ps) <= x) by (apply Z.mul_div_le; lia).
    assert (Hq' : x < ps * (x / ps + 1)).
    { pose proof (Z.mod_pos_bound x ps Hps). pose proof (Z.div_mod x ps). lia. }
    assert (Hqn : x / ps < n - 1) by (apply Z.div_lt_upper_bound; nia).
    assert (Hq0 : 0 <= x / ps) by (apply Z.div_pos; lia).
    split; [lia|]. split.
    + destruct (Z.ltb_spec (x / ps) (n - 1)); lia.
    + intros j Hj. destruct (Z.ltb_spec j (n - 1)); intros [Ha Hb].
      * apply (Z.div_unique x ps j (x - j * ps)); lia.
      * nia.
  - exists (n - 1). split; [lia|]. split.
    + destruct (Z.ltb_spec (n - 1) (n - 1)); lia.
    + intros j Hj. destruct (Z.ltb_spec j (n - 1)); intros [Ha Hb]; [|lia].
      nia.
Qed.

(** The body of the call once the size is known and workers exist. *)
Lemma download_file_parallel_known srv destination n schedule
    (fs : filesystem) file_size :
  head srv = Ok (Some file_size) -> file_size <> 0 -> 0 < n ->
  download_file_parallel srv destination n schedule fs =
  let '(fs1, started, results) :=
    run_workers srv destination (submitted file_size n) schedule (fs, []) in
  if forallb (fun r : bool => r) results then
    match merge_parts destination (seq 0 (Z.to_nat n))
            (<[destination := []]> fs1) with
    | (Ok _, fs2) => {| disk := fs2; returned := true; temp_files := started |}
    | (Raise _, fs2) =>
        {| disk := remove_temp_files started fs2; returned := false;
           temp_files := started |}
    end
  else
    {| disk := remove_temp_files started fs1; returned := false;
       temp_files := started |}.
Proof.
  intros Hhead Hsize Hn. unfold download_file_parallel. rewrite Hhead.
  cbn [from_option id].
  destruct (Z.eqb_spec file_size 0) as [?|_]; [lia|].
  destruct (Z.leb_spec n 0) as [?|_]; [lia|]. reflexivity.
Qed.

Lemma range_elem_lt n (schedule : list nat) i :
  schedule ≡ₚ range n -> i ∈ schedule <-> (i < Z.to_nat n)%nat.
Proof.
  intros Hp. rewrite Hp. unfold range. rewrite elem_of_seq. lia.
Qed.

(** With at least one byte for every worker, every submitted range is
    a range: it starts at an offset of the file and does not end before
    it starts. *)
Lemma submitted_range_valid file_size n i :
  1 <= n -> n <= file_size -> 0 <= i < n ->
  0 <= start_byte file_size n i <= end_byte file_size n i /\
  end_byte file_size n i < file_size.
Proof.
  intros Hn Hsize Hi. unfold end_byte, start_byte.
  assert (Hps : 1 <= file_size / n) by (apply Z.div_le_lower_bound; lia).
  assert (Hmul : n * (file_size / n) <= file_size)
    by (apply Z.mul_div_le; lia).
  set (ps := file_size / n) in *. clearbody ps.
  assert (H0 : 0 <= i * ps) by nia.
  destruct (Z.ltb_spec i (n - 1)) as [Hlt|Hge].
  - assert (H1 : (i + 1) * ps <= (n - 1) * ps) by nia.
    assert (H2 : (i + 1) * ps = i * ps + ps) by ring.
    assert (H3 : (n - 1) * ps = n * ps - ps) by ring.
    lia.
  - assert (i = n - 1) as -> by lia.
    assert (H3 : (n - 1) * ps = n * ps - ps) by ring.
    lia.
Qed.

(** C3, as the code has it. For a file of [file_size] bytes and [n]
    workers with [1 <= n <= file_size], on a server that answers a
    range request with the bytes of that range: the ranges tile
    [0, file_size - 1] (contiguous, disjoint, the first [n - 1] of
    [file_size // n] bytes, the remainder in the last, none empty),
    and in whatever order the workers run the call returns [True] with
    the destination holding the segments in range order, which is the
    source byte for byte and is what the single-connection path of the
    same function writes; no part file is left. *)
Theorem parallel_download_reassembles :
  forall (srv : remote) (destination : string) (content : list Byte.byte)
         (n : Z) (schedule : list nat) (fs : filesystem),
    1 <= n ->
    n <= Z.of_nat (length content) ->
    head srv = Ok (Some (Z.of_nat (length content))) ->
    get srv = Body content ->
    (forall i a b, 0 <= a <= b ->
                   get_range srv i a b = Body (byte_range content a b)) ->
    schedule ≡ₚ range n ->
    ranges_tile (Z.of_nat (length content)) n /\
    (forall i, 0 <= i < n ->
       0 <= start_byte (Z.of_nat (length content)) n i
         <= end_byte (Z.of_nat (length content)) n i) /\
    returned (download_file_parallel srv destination n schedule fs) = true /\
    disk (download_file_parallel srv destination n schedule fs) !! destination
    = Some (concat (map (fun i : nat =>
                           byte_range content
                             (start_byte (Z.of_nat (length content)) n (Z.of_nat i))
                             (end_byte (Z.of_nat (length content)) n (Z.of_nat i)))
                        (range n))) /\
    disk (download_file_parallel srv destination n schedule fs) !! destination
    = Some content /\
    disk (download_file_parallel srv destination n schedule fs) !! destination
    = disk (download_file_parallel (without_length srv) destination n schedule fs)
        !! destination /\
    (forall i, (i < Z.to_nat n)%nat ->
       disk (download_file_parallel srv destination n schedule fs)
         !! part_path destination i = None).
Proof.
  intros srv destination content n schedule fs Hn Hfit Hhead Hget Hrange Hsched.
  assert (Hsize : 0 < Z.of_nat (length content)) by lia.
  split; [by apply ranges_tile_holds|].
  split; [intros i Hi; by apply submitted_range_valid|].
  unfold range. rewrite (segments_concat content n Hsize Hn).
  pose proof (segments_concat content n Hsize Hn) as Hcat.
  set (file_size := Z.of_nat (length content)) in *.
  assert (Hanswer : forall i, (i < Z.to_nat n)%nat ->
            response_of srv file_size n i
            = Body (byte_range content (start_byte file_size n (Z.of_nat i))
                      (end_byte file_size n (Z.of_nat i)))).
  { intros i Hi. unfold response_of. apply Hrange.
    apply submitted_range_valid; lia. }
  assert (Hsingle :
    disk (download_file_parallel (without_length srv) destination n schedule fs)
      !! destination = Some content).
  { unfold download_file_parallel, without_length. cbn [head get from_option id].
    rewrite Hget. cbn. apply lookup_insert_eq. }
  rewrite Hsingle.
  rewrite (download_file_parallel_known _ _ _ _ _ file_size) by (done || lia).
  assert (Hvalid : forall i, i ∈ schedule -> (i < Z.to_nat n)%nat)
    by (intros i; by apply range_elem_lt).
  pose proof (run_workers_spec srv destination file_size n schedule fs [] Hvalid)
    as Hrun.
  destruct (run_workers srv destination (submitted file_size n) schedule (fs, []))
    as [[fs1 started] results].
  cbn [fst snd] in Hrun. destruct Hrun as (_ & Hres & Hother & Hbody).
  assert (Hall : forallb (fun r : bool => r) results = true).
  { rewrite Hres. apply forallb_forall. intros r Hr.
    apply in_map_iff in Hr as (i & <- & Hi).
    rewrite Hanswer; [reflexivity|]. apply Hvalid. by apply list_elem_of_In. }
  rewrite Hall.
  destruct (merge_parts_spec destination
              (fun i : nat => byte_range content
                                (start_byte file_size n (Z.of_nat i))
                                (end_byte file_size n (Z.of_nat i)))
              (seq 0 (Z.to_nat n)) (<[destination := []]> fs1) [])
    as (fs2 & Hm & Hd & Hgone & _).
  { apply NoDup_seq. }
  { apply lookup_insert_eq. }
  { intros i Hi.
    rewrite lookup_insert_ne
      by (intros E; symmetry in E; by apply part_path_not_destination in E).
    assert (Hlt : (i < Z.to_nat n)%nat) by (apply elem_of_seq in Hi; lia).
    apply Hbody; [|by apply Hanswer].
    by apply (range_elem_lt n schedule i Hsched). }
  rewrite Hm. cbn [disk returned].
  rewrite Hcat in Hd. cbn [app] in Hd.
  split; [done|]. split; [exact Hd|]. split; [exact Hd|]. split; [exact Hd|].
  intros i Hi. apply Hgone. apply elem_of_seq. lia.
Qed.

Lemma parallel_download_reassembles_witness :
  returned (download_file_parallel demo_server "temp.mp4" 3 [2; 0; 1]%nat ∅)
  = true /\
  disk (download_file_parallel demo_server "temp.mp4" 3 [2; 0; 1]%nat ∅)
    !! "temp.mp4" = Some demo_content /\
  disk (download_file_parallel demo_server "temp.mp4" 3 [2; 0; 1]%nat ∅)
    !! part_path "temp.mp4" 1 = None.
Proof.
  destruct (parallel_download_reassembles demo_server "temp.mp4" demo_content 3
              [2; 0; 1]%nat ∅) as (_ & _ & Hr & _ & Hc & _ & Hp).
  - discriminate.
  - discriminate.
  - reflexivity.
  - reflexivity.
  - intros i a b _. reflexivity.
  - etrans; [apply perm_swap|]. apply perm_skip, perm_swap.
  - split; [exact Hr|]. split; [exact Hc|]. apply Hp. vm_compute. lia.
Defined.

(** C3 as stated fails for a file with fewer bytes than workers. With 2
    bytes and 3 workers the first two tasks ask for [bytes=0--1], which
    is no range; a server that honours every range, and ignores a
    header that is none, sends them the whole file. The call returns
    [True] and the destination holds the file three times over (the
    last worker gets bytes 0 to 1), not what a single stream writes. *)
Lemma fewer_bytes_than_workers_counterexample :
  0 < Z.of_nat (length demo_short_content) /\
  head demo_short_server = Ok (Some (Z.of_nat (length demo_short_content))) /\
  get demo_short_server = Body demo_short_content /\
  (forall i a b, 0 <= a <= b ->
     get_range demo_short_server i a b = Body (byte_range demo_short_content a b)) /\
  submitted 2 3 = [(0%nat, 0, -1); (1%nat, 0, -1); (2%nat, 0, 1)] /\
  returned (download_file_parallel demo_short_server "temp.mp4" 3 [0; 1; 2]%nat ∅)
  = true /\
  disk (download_file_parallel demo_short_server "temp.mp4" 3 [0; 1; 2]%nat ∅)
    !! "temp.mp4"
  = Some (demo_short_content ++ demo_short_content ++ demo_short_content) /\
  disk (download_file_parallel (without_length demo_short_server) "temp.mp4" 3
          [0; 1; 2]%nat ∅) !! "temp.mp4"
  = Some demo_short_content /\
  disk (download_file_parallel demo_short_server "temp.mp4" 3 [0; 1; 2]%nat ∅)
    !! "temp.mp4"
  <> disk (download_file_parallel (without_length demo_short_server) "temp.mp4" 3
             [0; 1; 2]%nat ∅) !! "temp.mp4".
Proof.
  split; [reflexivity|]. split; [reflexivity|]. split; [reflexivity|]. split.
  { intros i a b [Ha Hb]. cbn [get_range demo_short_server].
    destruct (Z.leb_spec 0 a); [|lia]. destruct (Z.leb_spec a b); [|lia].
    reflexivity. }
  split; [reflexivity|].
  assert (H1 : disk (download_file_parallel demo_short_server "temp.mp4" 3
                       [0; 1; 2]%nat ∅) !! "temp.mp4"
               = Some (demo_short_content ++ demo_short_content
                       ++ demo_short_content)) by (vm_compute; reflexivity).
  assert (H2 : disk (download_file_parallel (without_length demo_short_server)
                       "temp.mp4" 3 [0; 1; 2]%nat ∅) !! "temp.mp4"
               = Some demo_short_content) by (vm_compute; reflexivity).
  split; [vm_compute; reflexivity|]. split; [exact H1|]. split; [exact H2|].
  rewrite H1, H2. discriminate.
Qed.

(** C4, as the code has it. When a worker fails, the call returns
    [False] once every worker has run to its result: the pool is left
    through its [with] block, which waits for the workers and cancels
    none. Nothing is merged, the destination is as it was before the
    call, every part file of the call is removed, and no other file is
    touched. *)
Theorem failed_worker_discards_segments :
  forall (srv : remote) (destination : string) (file_size n : Z)
         (schedule : list nat) (fs : filesystem) (failed : nat),
    head srv = Ok (Some file_size) ->
    0 < file_size ->
    1 <= n ->
    schedule ≡ₚ range n ->
    (failed < Z.to_nat n)%nat ->
    complete (response_of srv file_size n failed) = false ->
    returned (download_file_parallel srv destination n schedule fs) = false /\
    (run_workers srv destination (submitted file_size n) schedule (fs, [])).2
    = map (fun i => complete (response_of srv file_size n i)) schedule /\
    temp_files (download_file_parallel srv destination n schedule fs)
    ≡ₚ map (part_path destination) (range n) /\
    disk (download_file_parallel srv destination n schedule fs) !! destination
    = fs !! destination /\
    (forall i, (i < Z.to_nat n)%nat ->
       disk (download_file_parallel srv destination n schedule fs)
         !! part_path destination i = None) /\
    (forall p, p ∉ map (part_path destination) (range n) ->
       disk (download_file_parallel srv destination n schedule fs) !! p = fs !! p).
Proof.
  intros srv destination file_size n schedule fs failed
         Hhead Hsize Hn Hsched Hfailed Hbad.
  rewrite (download_file_parallel_known _ _ _ _ _ file_size) by (done || lia).
  assert (Hvalid : forall i, i ∈ schedule -> (i < Z.to_nat n)%nat)
    by (intros i; by apply range_elem_lt).
  pose proof (run_workers_spec srv destination file_size n schedule fs [] Hvalid)
    as Hrun.
  destruct (run_workers srv destination (submitted file_size n) schedule (fs, []))
    as [[fs1 started] results].
  cbn [fst snd] in *. destruct Hrun as (Hstarted & Hres & Hother & _).
  cbn [app] in Hstarted.
  assert (Hall : forallb (fun r : bool => r) results = false).
  { destruct (forallb (fun r : bool => r) results) eqn:E; [|done].
    rewrite forallb_forall in E. rewrite <- Hbad. symmetry. apply E.
    rewrite Hres. apply in_map_iff. exists failed. split; [done|].
    apply list_elem_of_In. by apply (range_elem_lt n). }
  rewrite Hall. cbn [disk returned temp_files].
  assert (Hparts : forall p, p ∈ started <->
                             p ∈ map (part_path destination) (range n)).
  { intros p. by rewrite Hstarted, Hsched. }
  split; [done|]. split; [done|]. split; [by rewrite Hstarted, Hsched|].
  split; [|split].
  - rewrite lookup_remove_temp_files.
    destruct (decide (destination ∈ started)) as [Hin|Hnin].
    + rewrite Hstarted in Hin. apply list_elem_of_fmap in Hin as (i & Hi & _).
      symmetry in Hi. by apply part_path_not_destination in Hi.
    + apply Hother. by rewrite <- Hstarted.
  - intros i Hi. rewrite lookup_remove_temp_files.
    destruct (decide (part_path destination i ∈ started)) as [_|Hnin]; [done|].
    exfalso. apply Hnin. apply Hparts. apply list_elem_of_fmap_2.
    unfold range. apply elem_of_seq. lia.
  - intros p Hp. rewrite lookup_remove_temp_files.
    destruct (decide (p ∈ started)) as [Hin|Hnin]; [by apply Hparts in Hin|].
    apply Hother. by rewrite <- Hstarted.
Qed.

Lemma failed_worker_discards_segments_witness :
  returned (download_file_parallel demo_failing_server "temp.mp4" 3
              [2; 0; 1]%nat ∅) = false /\
  disk (download_file_parallel demo_failing_server "temp.mp4" 3 [2; 0; 1]%nat ∅)
    !! "temp.mp4" = None /\
  disk (download_file_parallel demo_failing_server "temp.mp4" 3 [2; 0; 1]%nat ∅)
    !! part_path "temp.mp4" 2 = None.
Proof.
  destruct (failed_worker_discards_segments demo_failing_server "temp.mp4" 10 3
              [2; 0; 1]%nat ∅ 0%nat) as (Hr & _ & _ & Hd & Hp & _).
  - reflexivity.
  - reflexivity.
  - discriminate.
  - etrans; [apply perm_swap|]. apply perm_skip, perm_swap.
  - vm_compute. lia.
  - reflexivity.
  - split; [exact Hr|]. split; [exact Hd|]. apply Hp. vm_compute. lia.
Defined.

(** C4 as stated fails: worker 0 is refused and runs first, and yet
    workers 1 and 2 download their ranges to the end (their results are
    [True], the segment of worker 1 is on disk when the pool is left);
    nothing cancels them. *)
Lemma remaining_workers_not_cancelled_counterexample :
  (run_workers demo_failing_server "temp.mp4" (submitted 10 3) [0; 1; 2]%nat
     (∅, [])).2 = [false; true; true] /\
  (run_workers demo_failing_server "temp.mp4" (submitted 10 3) [0; 1; 2]%nat
     (∅, [])).1.1 !! "temp.mp4.part1" = Some [Byte.x03; Byte.x04; Byte.x05] /\
  temp_files (download_file_parallel demo_failing_server "temp.mp4" 3
                [0; 1; 2]%nat ∅)
  = ["temp.mp4.part0"; "temp.mp4.part1"; "temp.mp4.part2"] /\
  returned (download_file_parallel demo_failing_server "temp.mp4" 3
              [0; 1; 2]%nat ∅) = false.
Proof. repeat split; vm_compute; reflexivity. Qed.

(** ** Upload sessions *)

Lemma issue_token_fresh db u m k p :
  db !! make_payload u = None ->
  issue_token db u m k p
  = Ok (make_payload u,
        <[make_payload u := MediaRow m k (Some (protection_int p))]> db).
Proof. intros H. unfold issue_token, insert_media. by rewrite H. Qed.



(** [process_media] when the INSERT goes through. *)
Lemma process_media_fresh e st user_id s :
  PENDING_UPLOADS st !! user_id = Some s ->
  media st !! make_payload (uuid4 e) = None ->
  exists sent,
    DeepLink (make_payload (uuid4 e)) ∈ sent /\
    process_media e st user_id =
    (if negb (generate_preview s || generate_collage s || watermark_enabled s)
     then set_pending (delete user_id (PENDING_UPLOADS st))
            (set_media (<[make_payload (uuid4 e) :=
                            MediaRow (file_id s) (media_type s)
                              (Some (protection_int (content_protection s)))]>
                          (media st)) st)
     else set_media (<[make_payload (uuid4 e) :=
                         MediaRow (file_id s) (media_type s)
                           (Some (protection_int (content_protection s)))]>
                       (media st)) st,
     sent, None).
Proof.
  intros Hs Hfresh. unfold process_media. rewrite Hs.
  rewrite (issue_token_fresh _ _ _ _ _ Hfresh).
  destruct (negb (generate_preview s || generate_collage s || watermark_enabled s)).
  - eexists. split; [|reflexivity]. right. left.
  - eexists. split; [|reflexivity].
    apply elem_of_app. right. left.
Qed.




(** ** Preview and collage *)

Lemma sorted_ascending l : Sorted Qle (sorted l).
Proof.
  unfold sorted. pose proof (QSort.Sorted_sort l) as H.
  induction H as [|a l' Hs IH Hd]; constructor; [exact IH|].
  destruct Hd as [|b l'' Hab]; constructor.
  by apply Qle_bool_iff.
Qed.

Lemma sorted_permutation l : sorted l ≡ₚ l.
Proof. unfold sorted. symmetry. apply QSort.Permuted_sort. Qed.

Lemma sorted_length l : length (sorted l) = length l.
Proof. apply Permutation_length, sorted_permutation. Qed.

Lemma sorted_Forall (P : Q -> Prop) l : Forall P l -> Forall P (sorted l).
Proof. intros H. by rewrite sorted_permutation. Qed.

(** A draw scaled into an interval of width [w] that starts at [a]. *)
Lemma scaled_draw_bounds (a w r : Q) :
  (0 <= w)%Q -> (0 <= r)%Q -> (r < 1)%Q ->
  (a <= a + r * w)%Q /\ (a + r * w <= a + w)%Q.
Proof.
  intros Hw Hr0 Hr1.
  assert (H0 : (0 <= r * w)%Q) by (by apply Qmult_le_0_compat).
  assert (H1 : (r * w <= 1 * w)%Q)
    by (apply Qmult_le_compat_r; [by apply Qlt_le_weak|done]).
  split; lra.
Qed.

Lemma Qlt_bool_iff a b : Qlt_bool a b = true <-> (a < b)%Q.
Proof.
  unfold Qlt_bool. rewrite negb_true_iff. split.
  - intros H. apply Qnot_le_lt. intros Hle. apply Qle_bool_iff in Hle. congruence.
  - intros H. destruct (Qle_bool b a) eqn:E; [|done].
    apply Qle_bool_iff in E. exfalso. by apply (Qlt_not_le a b).
Qed.

Lemma Qlt_bool_false a b : Qlt_bool a b = false <-> (b <= a)%Q.
Proof.
  unfold Qlt_bool. rewrite negb_false_iff. apply Qle_bool_iff.
Qed.

Lemma Qle_bool_false a b : Qle_bool a b = false <-> (b < a)%Q.
Proof.
  split.
  - intros H. apply Qnot_le_lt. intros Hle. apply Qle_bool_iff in Hle. congruence.
  - intros H. destruct (Qle_bool a b) eqn:E; [|done].
    apply Qle_bool_iff in E. exfalso. by apply (Qlt_not_le b a).
Qed.

Lemma random_starts_bounds video_duration preview_length rng :
  (forall i, (0 <= rng i)%Q /\ (rng i < 1)%Q) ->
  (inject_Z preview_length < video_duration)%Q ->
  Forall (fun t => (0 <= t)%Q /\ (t <= video_duration - 2)%Q)
         (random_starts video_duration preview_length rng).
Proof.
  intros Hrng Hlong. unfold random_starts. apply sorted_Forall.
  apply Forall_map, Forall_forall. intros i Hi.
  unfold range in Hi. apply elem_of_seq in Hi.
  assert (Hl : 2 <= preview_length).
  { unfold num_clips, clip_duration in Hi.
    destruct (Z_lt_le_dec preview_length 2) as [Hlt|]; [|done].
    exfalso.
    destruct (Z_lt_le_dec preview_length 0).
    - assert (Z.quot preview_length 2 <= 0)
        by (apply Z.quot_le_upper_bound; lia). lia.
    - rewrite Z.quot_small in Hi by lia. simpl in Hi. lia. }
  assert (Hw : (0 <= video_duration - 2)%Q).
  { rewrite Zle_Qle in Hl. change (inject_Z 2) with 2%Q in Hl. lra. }
  destruct (Hrng i) as [Hr0 Hr1].
  destruct (scaled_draw_bounds 0 (video_duration - 2) (rng i) Hw Hr0 Hr1)
    as [Ha Hb].
  unfold uniform, clip_duration. change (inject_Z 2) with 2%Q. split; lra.
Qed.

Lemma num_clips_floor preview_length :
  (0 <= preview_length -> num_clips preview_length = preview_length / 2) /\
  Z.to_nat (num_clips preview_length) = Z.to_nat (preview_length / 2).
Proof.
  unfold num_clips, clip_duration. split.
  - intros H. apply Z.quot_div_nonneg; lia.
  - destruct (Z_lt_le_dec preview_length 0) as [Hneg|Hpos].
    + assert (Z.quot preview_length 2 <= 0)
        by (apply Z.quot_le_upper_bound; lia).
      assert (preview_length / 2 < 0) by (apply Z.div_lt_upper_bound; lia).
      lia.
    + by rewrite Z.quot_div_nonneg by lia.
Qed.

Lemma string_app_inj_r (s1 s2 t : string) : s1 +:+ t = s2 +:+ t -> s1 = s2.
Proof.
  revert s2. induction s1 as [|a s1 IH]; intros [|b s2] H.
  - reflexivity.
  - exfalso. assert (Hl := f_equal String.length H).
    rewrite !string_length_app in Hl. cbn in Hl. lia.
  - exfalso. assert (Hl := f_equal String.length H).
    rewrite !string_length_app in Hl. cbn in Hl. lia.
  - change (String a (s1 +:+ t) = String b (s2 +:+ t)) in H.
    injection H as -> H. by rewrite (IH s2 H).
Qed.

(** The clips of one run have names of their own. *)
Lemma clip_names_distinct (n : nat) :
  NoDup (map (fun i : nat => "temp_clip_" +:+ pretty i +:+ ".mp4") (seq 0 n)).
Proof.
  apply NoDup_fmap_2_strong; [|apply NoDup_seq].
  intros i j _ _ H.
  apply (inj (String.append "temp_clip_")) in H.
  apply string_app_inj_r in H. by apply (inj pretty) in H.
Qed.

Lemma imap_index {A B} (f : nat -> B) (l : list A) :
  imap (fun i _ => f i) l = map f (seq 0 (length l)).
Proof.
  revert f. induction l as [|x l IH]; intros f; [reflexivity|].
  cbn [imap length seq map]. f_equal.
  change (imap ((fun i _ => f i) ∘ S) l) with (imap (fun i (_ : A) => (f ∘ S) i) l).
  rewrite IH, <- seq_shift, map_map. reflexivity.
Qed.

(** C6. When the source is no longer than the requested length the
    preview is a plain file copy of the source and nothing is encoded.
    Otherwise [floor(L / 2)] offsets are drawn, each one
    [0 + (D - 2 - 0) * u] for a draw [u] of [random()], hence in
    [0, D - 2]; they are sorted ascending (equal offsets stay), a
    2-second clip is cut at each in that order, each into a file of its
    own, and the clip files are concatenated in that order. *)
Theorem preview_clips :
  forall (source_video : string) (preview_length : Z) (video_duration : Q)
         (rng : nat -> Q),
    (forall i, (0 <= rng i)%Q /\ (rng i < 1)%Q) ->
    ((video_duration <= inject_Z preview_length)%Q ->
     generate_video_preview source_video preview_length video_duration rng
     = [ShutilCopy source_video "preview.mp4"; SendPreview "preview.mp4"])
    /\
    ((inject_Z preview_length < video_duration)%Q ->
     (0 <= preview_length -> num_clips preview_length = preview_length / 2) /\
     length (random_starts video_duration preview_length rng)
     = Z.to_nat (preview_length / 2) /\
     random_starts video_duration preview_length rng
     ≡ₚ map (fun i => (0 + (video_duration - 2 - 0) * rng i)%Q)
            (seq 0 (Z.to_nat (preview_length / 2))) /\
     Forall (fun t => (0 <= t)%Q /\ (t <= video_duration - 2)%Q)
            (random_starts video_duration preview_length rng) /\
     Sorted Qle (random_starts video_duration preview_length rng) /\
     generate_video_preview source_video preview_length video_duration rng
     = imap (fun i start_time =>
               FfmpegClip start_time source_video 2
                 ("temp_clip_" +:+ pretty i +:+ ".mp4"))
            (random_starts video_duration preview_length rng)
       ++ [FfmpegConcat
             (map (fun i : nat => "temp_clip_" +:+ pretty i +:+ ".mp4")
                  (seq 0 (Z.to_nat (preview_length / 2))))
             "preview.mp4";
           SendPreview "preview.mp4"] /\
     NoDup (map (fun i : nat => "temp_clip_" +:+ pretty i +:+ ".mp4")
                (seq 0 (Z.to_nat (preview_length / 2))))).
Proof.
  intros source_video preview_length video_duration rng Hrng. split.
  - intros Hshort. unfold generate_video_preview.
    apply Qle_bool_iff in Hshort. by rewrite Hshort.
  - intros Hlong.
    destruct (num_clips_floor preview_length) as [Hfloor Hnat].
    assert (Hrange : range (num_clips preview_length)
                     = seq 0 (Z.to_nat (preview_length / 2)))
      by (unfold range; by rewrite Hnat).
    assert (Hlen : length (random_starts video_duration preview_length rng)
                   = Z.to_nat (preview_length / 2)).
    { unfold random_starts. rewrite sorted_length, length_map, Hrange.
      apply length_seq. }
    split; [exact Hfloor|]. split; [exact Hlen|].
    split; [|split; [|split; [|split]]].
    + unfold random_starts. rewrite sorted_permutation, Hrange. reflexivity.
    + by apply random_starts_bounds.
    + apply sorted_ascending.
    + unfold generate_video_preview.
      apply Qle_bool_false in Hlong. rewrite Hlong.
      rewrite (imap_index temp_clip), Hlen. reflexivity.
    + apply clip_names_distinct.
Qed.

Lemma preview_clips_witness :
  generate_video_preview "temp.mp4" 6 3 demo_rng
  = [ShutilCopy "temp.mp4" "preview.mp4"; SendPreview "preview.mp4"]
  /\
  length (random_starts 20 6 demo_rng) = 3%nat /\
  Forall (fun t => (0 <= t)%Q /\ (t <= 20 - 2)%Q) (random_starts 20 6 demo_rng) /\
  generate_video_preview "temp.mp4" 6 20 demo_rng
  = [FfmpegClip (18 * (1 # 4)) "temp.mp4" 2 "temp_clip_0.mp4";
     FfmpegClip (18 * (2 # 4)) "temp.mp4" 2 "temp_clip_1.mp4";
     FfmpegClip (18 * (3 # 4)) "temp.mp4" 2 "temp_clip_2.mp4";
     FfmpegConcat ["temp_clip_0.mp4"; "temp_clip_1.mp4"; "temp_clip_2.mp4"]
       "preview.mp4";
     SendPreview "preview.mp4"].
Proof.
  assert (Hrng : forall i, (0 <= demo_rng i)%Q /\ (demo_rng i < 1)%Q)
    by (intros i; unfold demo_rng, Qle, Qlt; simpl; lia).
  split.
  - apply (proj1 (preview_clips "temp.mp4" 6 3 demo_rng Hrng)). discriminate.
  - destruct (proj2 (preview_clips "temp.mp4" 6 20 demo_rng Hrng))
      as (_ & Hlen & _ & Hin & _ & Hcmds & _); [reflexivity|].
    split; [exact Hlen|]. split; [exact Hin|].
    rewrite Hcmds. vm_compute. reflexivity.
Defined.

Lemma Qtruncate_floor x : (0 <= x)%Q -> Qtruncate x = Qfloor x.
Proof.
  destruct x as [a b]. unfold Qle, Qtruncate, Qfloor. simpl. intros H.
  apply Z.quot_div_nonneg; lia.
Qed.

Lemma Qfloor_ge_1 x : (1 <= x)%Q -> 1 <= Qfloor x.
Proof. intros H. apply (Qfloor_resp_le 1 x) in H. exact H. Qed.

(** A monotone function over consecutive indices gives an ascending
    list. *)
Lemma map_seq_ascending (f : nat -> Q) :
  (forall i, (f i <= f (S i))%Q) ->
  forall n a, Sorted Qle (map f (seq a n)).
Proof.
  intros Hf n. induction n as [|n IH]; intros a; [constructor|].
  cbn [seq map]. constructor; [apply IH|].
  destruct n; cbn [seq map]; constructor. apply Hf.
Qed.

Lemma centers_step (d : Q) (a : Z) (i : nat) :
  (0 <= d)%Q -> 0 < a ->
  (d * (inject_Z (Z.of_nat i) + (1 # 2)) / inject_Z a
   <= d * (inject_Z (Z.of_nat (S i)) + (1 # 2)) / inject_Z a)%Q.
Proof.
  intros Hd Ha. unfold Qdiv. apply Qmult_le_compat_r.
  - rewrite Nat2Z.inj_succ. unfold Z.succ. rewrite inject_Z_plus.
    change (inject_Z 1) with 1%Q.
    assert (H : (0 <= d * 1)%Q) by lra.
    rewrite !Qmult_plus_distr_r. lra.
  - apply Qinv_le_0_compat. rewrite Zlt_Qlt in Ha. apply Qlt_le_weak.
    exact Ha.
Qed.

(** C7. The branches of the timestamp choice, in the order of the
    source, with their formulas; a random timestamp is [lo + u * width]
    for a draw [u] of [random()], hence inside the stated interval; in
    every branch the list is ascending. *)
Theorem collage_timestamp_branches :
  forall (video_duration : Q) (collage_frames : Z) (rng : nat -> Q),
    (forall i, (0 <= rng i)%Q /\ (rng i < 1)%Q) ->
    ((video_duration < 1)%Q ->
     collage_timestamps video_duration collage_frames rng = ([1 # 2]%Q, 1))
    /\
    ((1 <= video_duration)%Q -> (video_duration < inject_Z collage_frames)%Q ->
     collage_timestamps video_duration collage_frames rng
     = (map (fun i : nat =>
               (video_duration * (inject_Z (Z.of_nat i) + (1 # 2))
                / inject_Z (Qfloor video_duration))%Q)
            (range (Qfloor video_duration)),
        Qfloor video_duration))
    /\
    ((1 <= video_duration)%Q -> (inject_Z collage_frames <= video_duration)%Q ->
     (10 < video_duration)%Q ->
     (collage_timestamps video_duration collage_frames rng).2 = collage_frames /\
     length (collage_timestamps video_duration collage_frames rng).1
     = Z.to_nat collage_frames /\
     (collage_timestamps video_duration collage_frames rng).1
     ≡ₚ map (fun i => (5 + rng i * (video_duration - 10))%Q) (range collage_frames) /\
     Forall (fun t => (5 <= t)%Q /\ (t <= video_duration - 5)%Q)
            (collage_timestamps video_duration collage_frames rng).1)
    /\
    ((1 <= video_duration)%Q -> (inject_Z collage_frames <= video_duration)%Q ->
     (video_duration <= 10)%Q ->
     (collage_timestamps video_duration collage_frames rng).2 = collage_frames /\
     length (collage_timestamps video_duration collage_frames rng).1
     = Z.to_nat collage_frames /\
     (collage_timestamps video_duration collage_frames rng).1
     ≡ₚ map (fun i => (video_duration * (1 # 10)
                       + rng i * (video_duration
                                  - 2 * (video_duration * (1 # 10))))%Q)
            (range collage_frames) /\
     Forall (fun t => (video_duration * (1 # 10) <= t)%Q /\
                      (t <= video_duration - video_duration * (1 # 10))%Q)
            (collage_timestamps video_duration collage_frames rng).1)
    /\
    Sorted Qle (collage_timestamps video_duration collage_frames rng).1.
Proof.
  intros D N rng Hrng.
  assert (B1 : (D < 1)%Q -> collage_timestamps D N rng = ([1 # 2]%Q, 1)).
  { intros H. unfold collage_timestamps. apply Qlt_bool_iff in H. by rewrite H. }
  assert (B2 : (1 <= D)%Q -> (D < inject_Z N)%Q ->
               collage_timestamps D N rng
               = (map (fun i : nat =>
                         (D * (inject_Z (Z.of_nat i) + (1 # 2))
                          / inject_Z (Qfloor D))%Q) (range (Qfloor D)),
                  Qfloor D)).
  { intros H1 H2. unfold collage_timestamps.
    apply Qlt_bool_false in H1. apply Qlt_bool_iff in H2. rewrite H1, H2.
    apply Qlt_bool_false in H1.
    rewrite Qtruncate_floor by lra.
    pose proof (Qfloor_ge_1 D H1). by rewrite Z.max_r by lia. }
  assert (B3 : (1 <= D)%Q -> (inject_Z N <= D)%Q -> (10 < D)%Q ->
               collage_timestamps D N rng
               = (sorted (map (fun i => (5 + rng i * (D - 10))%Q) (range N)), N)).
  { intros H1 H2 H3. unfold collage_timestamps.
    apply Qlt_bool_false in H1. apply Qlt_bool_false in H2.
    apply Qlt_bool_iff in H3. by rewrite H1, H2, H3. }
  assert (B4 : (1 <= D)%Q -> (inject_Z N <= D)%Q -> (D <= 10)%Q ->
               collage_timestamps D N rng
               = (sorted (map (fun i => (D * (1 # 10)
                                         + rng i * (D - 2 * (D * (1 # 10))))%Q)
                              (range N)), N)).
  { intros H1 H2 H3. unfold collage_timestamps.
    apply Qlt_bool_false in H1. apply Qlt_bool_false in H2.
    apply Qlt_bool_false in H3. by rewrite H1, H2, H3. }
  split; [exact B1|]. split; [exact B2|]. split; [|split].
  - intros H1 H2 H3. rewrite (B3 H1 H2 H3). cbn [fst snd].
    split; [done|]. split; [|split].
    + rewrite sorted_length, length_map. apply length_seq.
    + apply sorted_permutation.
    + apply sorted_Forall, Forall_map, Forall_forall. intros i _.
      destruct (Hrng i) as [Hr0 Hr1].
      destruct (scaled_draw_bounds 5 (D - 10) (rng i)) as [Ha Hb];
        [lra|done|done|]. simpl. split; lra.
  - intros H1 H2 H3. rewrite (B4 H1 H2 H3). cbn [fst snd].
    split; [done|]. split; [|split].
    + rewrite sorted_length, length_map. apply length_seq.
    + apply sorted_permutation.
    + apply sorted_Forall, Forall_map, Forall_forall. intros i _.
      destruct (Hrng i) as [Hr0 Hr1].
      destruct (scaled_draw_bounds (D * (1 # 10)) (D - 2 * (D * (1 # 10)))
                  (rng i)) as [Ha Hb]; [lra|done|done|]. simpl. split; lra.
  - destruct (Qlt_le_dec D 1) as [H1|H1].
    { rewrite (B1 H1). cbn [fst]. repeat constructor. }
    destruct (Qlt_le_dec D (inject_Z N)) as [H2|H2].
    { rewrite (B2 H1 H2). cbn [fst]. unfold range.
      apply map_seq_ascending. intros i. apply centers_step; [lra|].
      pose proof (Qfloor_ge_1 D H1). lia. }
    destruct (Qlt_le_dec 10 D) as [H3|H3].
    + rewrite (B3 H1 H2 H3). apply sorted_ascending.
    + rewrite (B4 H1 H2 H3). apply sorted_ascending.
Qed.

Lemma collage_timestamp_branches_witness :
  collage_timestamps (4 # 10) 9 demo_rng = ([1 # 2]%Q, 1) /\
  collage_timestamps (5 # 2) 9 demo_rng
  = (map (fun i : nat =>
            ((5 # 2) * (inject_Z (Z.of_nat i) + (1 # 2)) / inject_Z 2)%Q)
         (range 2), 2) /\
  length (collage_timestamps 30 9 demo_rng).1 = 9%nat /\
  Forall (fun t => (5 <= t)%Q /\ (t <= 30 - 5)%Q)
         (collage_timestamps 30 9 demo_rng).1 /\
  Forall (fun t => (8 * (1 # 10) <= t)%Q /\ (t <= 8 - 8 * (1 # 10))%Q)
         (collage_timestamps 8 4 demo_rng).1.
Proof.
  assert (Hrng : forall i, (0 <= demo_rng i)%Q /\ (demo_rng i < 1)%Q)
    by (intros i; unfold demo_rng, Qle, Qlt; simpl; lia).
  destruct (collage_timestamp_branches (4 # 10) 9 demo_rng Hrng) as (H1 & _).
  destruct (collage_timestamp_branches (5 # 2) 9 demo_rng Hrng) as (_ & H2 & _).
  destruct (collage_timestamp_branches 30 9 demo_rng Hrng) as (_ & _ & H3 & _).
  destruct (collage_timestamp_branches 8 4 demo_rng Hrng) as (_ & _ & _ & H4 & _).
  split; [apply H1; reflexivity|].
  split; [apply H2; [discriminate|reflexivity]|].
  destruct H3 as (_ & Hlen & _ & Hin); [discriminate|discriminate|reflexivity|].
  destruct H4 as (_ & _ & _ & Hin4); [discriminate|discriminate|discriminate|].
  split; [exact Hlen|]. split; [exact Hin|exact Hin4].
Defined.

(** The frames kept by the extraction loop, with the index of a
    timestamp given by [f]. *)
Lemma extracted_frames_gen (extracted : nat -> bool) (ts : list Q) :
  forall f : nat -> nat,
    let frames :=
      omap (fun p : nat * Q => if extracted p.1 then Some p.2 else None)
           (imap (fun i t => (f i, t)) ts) in
    (length frames <= length ts)%nat /\
    ((forall i, (i < length ts)%nat -> extracted (f i) = true) -> frames = ts) /\
    (forall i, (i < length ts)%nat -> extracted (f i) = false ->
               (length frames < length ts)%nat).
Proof.
  induction ts as [|t ts IH]; intros f.
  - cbn. split; [lia|]. split; [done|]. intros i Hi. lia.
  - cbn [imap omap list_omap fst snd length].
    change (imap ((fun (i : nat) (t0 : Q) => (f i, t0)) ∘ S) ts)
      with (imap (fun (i : nat) (t0 : Q) => ((f ∘ S) i, t0)) ts).
    destruct (IH (f ∘ S)) as (Hle & Hall & Hfail). cbn zeta in *.
    destruct (extracted (f 0%nat)) eqn:E0; cbn [length].
    + split; [lia|]. split.
      * intros Hok. f_equal. apply Hall. intros i Hi. apply (Hok (S i)). lia.
      * intros [|i] Hi Hbad; [congruence|].
        assert (Hlt : (i < length ts)%nat) by lia.
        specialize (Hfail i Hlt Hbad). lia.
    + split; [lia|]. split.
      * intros Hok. specialize (Hok 0%nat). rewrite E0 in Hok.
        assert (0 < S (length ts))%nat by lia. specialize (Hok H). discriminate.
      * intros i Hi Hbad. lia.
Qed.

Lemma extract_frames_spec random_times extracted :
  (length (extract_frames random_times extracted) <= length random_times)%nat /\
  ((forall i, (i < length random_times)%nat -> extracted i = true) ->
   extract_frames random_times extracted = random_times) /\
  (forall i, (i < length random_times)%nat -> extracted i = false ->
     (length (extract_frames random_times extracted) < length random_times)%nat).
Proof. exact (extracted_frames_gen extracted random_times (fun i => i)). Qed.

Lemma collage_timestamps_length video_duration collage_frames rng :
  length (collage_timestamps video_duration collage_frames rng).1
  = Z.to_nat (collage_timestamps video_duration collage_frames rng).2.
Proof.
  unfold collage_timestamps, range.
  repeat match goal with |- context [if ?b then _ else _] => destruct b end;
    cbn [fst snd]; rewrite ?sorted_length, ?length_map, ?length_seq; done.
Qed.

Lemma generate_video_collage_unfold collage_frames video_duration rng extracted :
  generate_video_collage collage_frames video_duration rng extracted =
  let tn := collage_timestamps (default (60 : Q) video_duration)
              collage_frames rng in
  let frames := extract_frames tn.1 extracted in
  if Z.of_nat (length frames) >=? tn.2 then
    Collage (640 * (grid tn.2).1) (480 * (grid tn.2).2)
      (imap (fun idx frame =>
               (frame, (Z.of_nat idx mod (grid tn.2).1 * 640,
                        Z.of_nat idx / (grid tn.2).1 * 480)))
            (slice_to tn.2 frames))
      tn.2
  else OnlyExtracted (length frames) tn.2.
Proof.
  unfold generate_video_collage.
  destruct (collage_timestamps _ collage_frames rng) as [times n'].
  cbn [fst snd]. by destruct (grid n') as [cols rows].
Qed.

(** C8. A frame whose extraction fails is left out and the loop goes
    on. When fewer frames were extracted than the frame count of the
    run (the requested one, or the lowered one of a short video), the
    stage sends the "Only extracted ..." warning and composes nothing;
    a grid is composed exactly when the count is reached, with the
    columns and rows of the table. *)
Theorem collage_needs_every_frame :
  forall (collage_frames : Z) (video_duration : option Q) (rng : nat -> Q)
         (extracted : nat -> bool),
    let tn := collage_timestamps (default (60 : Q) video_duration)
                collage_frames rng in
    let frames := extract_frames tn.1 extracted in
    (length frames <= length tn.1)%nat /\
    (forall i, (i < length tn.1)%nat -> extracted i = false ->
       (length frames < length tn.1)%nat /\
       generate_video_collage collage_frames video_duration rng extracted
       = OnlyExtracted (length frames) tn.2) /\
    (Z.of_nat (length frames) < tn.2 ->
     generate_video_collage collage_frames video_duration rng extracted
     = OnlyExtracted (length frames) tn.2) /\
    (tn.2 <= Z.of_nat (length frames) ->
     generate_video_collage collage_frames video_duration rng extracted
     = Collage (640 * (grid tn.2).1) (480 * (grid tn.2).2)
         (imap (fun idx frame =>
                  (frame, (Z.of_nat idx mod (grid tn.2).1 * 640,
                           Z.of_nat idx / (grid tn.2).1 * 480)))
               (slice_to tn.2 frames))
         tn.2) /\
    grid 4 = (2, 2) /\ grid 6 = (3, 2) /\ grid 9 = (3, 3) /\ grid 12 = (4, 3) /\
    (forall n, n <> 4 -> n <> 6 -> n <> 9 -> n <> 12 -> grid n = (2, 2)).
Proof.
  intros collage_frames video_duration rng extracted tn frames.
  pose proof (extract_frames_spec tn.1 extracted) as (Hle & _ & Hfail).
  pose proof (collage_timestamps_length (default (60 : Q) video_duration)
                collage_frames rng) as Hlen.
  fold tn in Hlen. fold frames in Hle, Hfail.
  assert (Hwarn : Z.of_nat (length frames) < tn.2 ->
            generate_video_collage collage_frames video_duration rng extracted
            = OnlyExtracted (length frames) tn.2).
  { intros Hlt. rewrite generate_video_collage_unfold. cbn zeta.
    fold tn. fold frames. rewrite Z.geb_leb.
    destruct (Z.leb_spec tn.2 (Z.of_nat (length frames))); [lia|done]. }
  split; [exact Hle|]. split; [|split; [exact Hwarn|split]].
  - intros i Hi Hbad. specialize (Hfail i Hi Hbad). split; [exact Hfail|].
    apply Hwarn. lia.
  - intros Hge. rewrite generate_video_collage_unfold. cbn zeta.
    fold tn. fold frames. rewrite Z.geb_leb.
    destruct (Z.leb_spec tn.2 (Z.of_nat (length frames))); [done|lia].
  - repeat split. intros n H4 H6 H9 H12. unfold grid.
    destruct (Z.eqb_spec n 4); [done|]. destruct (Z.eqb_spec n 6); [done|].
    destruct (Z.eqb_spec n 9); [done|]. by destruct (Z.eqb_spec n 12).
Qed.

Lemma collage_needs_every_frame_witness :
  generate_video_collage 9 (Some (30 : Q)) demo_rng
    (fun i => negb ((i =? 3) || (i =? 5))%nat)
  = OnlyExtracted 7 9 /\
  generate_video_collage 4 (Some (30 : Q)) demo_rng (fun _ => true)
  = Collage 1280 960
      [((20 # 4)%Q, (0, 0)); ((40 # 4)%Q, (640, 0));
       ((60 # 4)%Q, (0, 480)); ((80 # 4)%Q, (640, 480))] 4.
Proof.
  destruct (collage_needs_every_frame 9 (Some (30 : Q)) demo_rng
              (fun i => negb ((i =? 3) || (i =? 5))%nat))
    as (_ & _ & Hwarn & _).
  destruct (collage_needs_every_frame 4 (Some (30 : Q)) demo_rng (fun _ => true))
    as (_ & _ & _ & Hgrid & _).
  split.
  - rewrite Hwarn; [reflexivity|]. vm_compute. reflexivity.
  - rewrite Hgrid; [|vm_compute; discriminate]. vm_compute. reflexivity.
Defined.

(** ** The watermark *)

#[local] Instance rint_comp : Proper (Qeq ==> eq) rint.
Proof.
  intros x y Hxy. unfold rint.
  rewrite (Qfloor_comp x y Hxy).
  assert (Hc : ((x - inject_Z (Qfloor y))%Q ?= 1 # 2)%Q
               = ((y - inject_Z (Qfloor y))%Q ?= 1 # 2)%Q)
    by (apply Qcompare_comp; [by rewrite Hxy | reflexivity]).
  by rewrite Hc.
Qed.

Lemma rint_Z z : rint (inject_Z z) = z.
Proof.
  unfold rint. rewrite Qfloor_Z.
  assert (H : ((inject_Z z - inject_Z z)%Q ?= 1 # 2)%Q = Lt).
  { apply Qlt_alt. unfold Qminus. rewrite Qplus_opp_r. reflexivity. }
  by rewrite H.
Qed.

Lemma rint_near x :
  (inject_Z (rint x) - x <= 1 # 2)%Q /\ (x - inject_Z (rint x) <= 1 # 2)%Q.
Proof.
  unfold rint.
  pose proof (Qfloor_le x) as Hlo. pose proof (Qlt_floor x) as Hhi.
  rewrite inject_Z_plus in Hhi. change (inject_Z 1) with 1%Q in Hhi.
  destruct ((x - inject_Z (Qfloor x))%Q ?= 1 # 2)%Q eqn:E.
  - apply Qeq_alt in E.
    destruct (Z.even (Qfloor x));
      rewrite ?inject_Z_plus; change (inject_Z 1) with 1%Q; split; lra.
  - apply Qlt_alt in E. split; lra.
  - apply Qgt_alt in E. rewrite inject_Z_plus. change (inject_Z 1) with 1%Q.
    split; lra.
Qed.

(** ** Rounding to a float *)

Lemma Qpower2_pos (e : Z) : (0 < 2 ^ e)%Q.
Proof. apply Qpower_0_lt. reflexivity. Qed.

Lemma Qpower2_succ (e : Z) : (2 ^ (e + 1) == 2 * 2 ^ e)%Q.
Proof. rewrite Qpower_plus by discriminate. change (2 ^ 1)%Q with 2%Q. ring. Qed.

Lemma Qpower2_pred (e : Z) : (2 * 2 ^ (e - 1) == 2 ^ e)%Q.
Proof.
  rewrite <- Qpower2_succ. replace (e - 1 + 1) with e by lia. reflexivity.
Qed.

Lemma Qabs_make (n : Z) (d : positive) :
  (Qabs (n # d) == inject_Z (Z.abs n) / inject_Z (Zpos d))%Q.
Proof.
  unfold Qabs. rewrite (Qmake_Qdiv (Z.abs n) d). reflexivity.
Qed.

(** [ilog2 x] is the exponent of the leading bit of [x]. *)
Lemma ilog2_spec (x : Q) :
  ~ (x == 0)%Q ->
  (2 ^ ilog2 x <= Qabs x)%Q /\ (Qabs x < 2 ^ (ilog2 x + 1))%Q.
Proof.
  intros Hx. destruct x as [n d]. unfold ilog2. cbn [Qnum Qden].
  assert (Hn : 0 < Z.abs n).
  { destruct (Z.eq_dec n 0) as [->|]; [|lia]. exfalso. apply Hx. reflexivity. }
  set (a := Z.log2 (Z.abs n)). set (b := Z.log2 (Zpos d)).
  assert (Ha0 : 0 <= a) by apply Z.log2_nonneg.
  assert (Hb0 : 0 <= b) by apply Z.log2_nonneg.
  destruct (Z.log2_spec (Z.abs n) Hn) as [Ha1 Ha2]. fold a in Ha1, Ha2.
  destruct (Z.log2_spec (Zpos d) eq_refl) as [Hb1 Hb2]. fold b in Hb1, Hb2.
  replace (Z.succ a) with (a + 1) in Ha2 by lia.
  replace (Z.succ b) with (b + 1) in Hb2 by lia.
  rewrite Z.pow_add_r in Ha2, Hb2 by lia. change (2 ^ 1) with 2 in Ha2, Hb2.
  rewrite Zle_Qle in Ha1, Hb1. rewrite Zlt_Qlt in Ha2, Hb2.
  rewrite inject_Z_mult in Ha2, Hb2.
  rewrite (Zpower_Qpower 2 a Ha0) in Ha1, Ha2.
  rewrite (Zpower_Qpower 2 b Hb0) in Hb1, Hb2.
  change (inject_Z 2) with 2%Q in *.
  pose proof (Qpower2_pos a) as HA. pose proof (Qpower2_pos b) as HB.
  assert (Hk : (2 ^ (a - b) == 2 ^ a / 2 ^ b)%Q)
    by (apply Qpower_minus; discriminate).
  assert (HD : (0 < inject_Z (Z.pos d))%Q) by reflexivity.
  assert (Habs := Qabs_make n d).
  set (N := inject_Z (Z.abs n)) in *. set (D := inject_Z (Z.pos d)) in *.
  set (A := (2 ^ a)%Q) in *. set (B := (2 ^ b)%Q) in *.
  assert (HiB : (B * / B == 1)%Q) by (apply Qmult_inv_r; lra).
  assert (HiD : (D * / D == 1)%Q) by (apply Qmult_inv_r; lra).
  assert (HiB0 : (0 < / B)%Q) by (apply Qinv_lt_0_compat; exact HB).
  assert (HiD0 : (0 < / D)%Q) by (apply Qinv_lt_0_compat; exact HD).
  unfold Qdiv in *.
  set (iB := (/ B)%Q) in *. set (iD := (/ D)%Q) in *.
  clearbody N D A B iB iD.
  assert (HDB : (1 <= D * iB)%Q) by nra.
  assert (HBD : (B * iD <= 1)%Q) by nra.
  assert (HDB2 : (D * iB < 2)%Q) by nra.
  assert (HBD2 : (1 < 2 * (B * iD))%Q) by nra.
  assert (Hup : (N * iD < 2 * (A * iB))%Q).
  { assert (H1 : (N * iD < 2 * A * iD)%Q) by nra.
    assert (H2 : (A * iD <= A * iB)%Q).
    { assert (iD <= iB)%Q; [|nra].
      assert (H3 : (iD == iD * (B * iB))%Q) by (rewrite HiB; ring).
      assert (H4 : (iB == iB * (D * iD))%Q) by (rewrite HiD; ring).
      rewrite H3, H4.
      assert (0 <= iD * iB)%Q by nra.
      setoid_rewrite (Qmult_comm iB (D * iD)).
      nra. }
    lra. }
  assert (Hlo : (A * iB <= 2 * (N * iD))%Q).
  { assert (H3 : (iB < 2 * iD)%Q).
    { assert (H3 : (iD == iD * (B * iB))%Q) by (rewrite HiB; ring).
      assert (H4 : (iB == iB * (D * iD))%Q) by (rewrite HiD; ring).
      assert (H5 : (0 < iD * iB)%Q) by nra.
      assert (H6 : (iB * (D * iD) < 2 * (iD * (B * iB)))%Q) by nra.
      lra. }
    assert (H1 : (A * iB <= A * (2 * iD))%Q) by nra.
    assert (H2 : (A * iD <= N * iD)%Q) by nra.
    lra. }
  destruct (Qle_bool (2 ^ (a - b)) (Qabs (n # d))) eqn:E.
  - apply Qle_bool_iff in E. split; [exact E|].
    rewrite Qpower2_succ, Hk, Habs. exact Hup.
  - assert (E' : (Qabs (n # d) < 2 ^ (a - b))%Q).
    { apply Qnot_le_lt. intros H. apply Qle_bool_iff in H. congruence. }
    replace (a - b - 1 + 1) with (a - b) by lia. split; [|exact E'].
    pose proof (Qpower2_pred (a - b)) as Hp. rewrite Hk in Hp.
    rewrite Habs. pose proof (Qpower2_pos (a - b - 1)). lra.
Qed.

Lemma round_float_comp (prec emin : Z) (x y : Q) :
  (x == y)%Q -> round_float prec emin x = round_float prec emin y.
Proof.
  intros H. unfold round_float. by rewrite (Qred_complete x y H).
Qed.

#[local] Instance round_float_proper prec emin :
  Proper (Qeq ==> Qeq) (round_float prec emin).
Proof. intros x y H. by rewrite (round_float_comp prec emin x y H). Qed.

Lemma round_float_0 prec emin : round_float prec emin 0 = 0%Q.
Proof. reflexivity. Qed.

(** The error of a rounding: at most [2^-prec] of the value, or half
    of the least spacing [2^emin]. *)
Lemma round_float_error (prec emin : Z) (x : Q) :
  (Qabs (round_float prec emin x - x)
   <= Qabs x * 2 ^ (- prec) + 2 ^ (emin - 1))%Q.
Proof.
  unfold round_float.
  pose proof (Qred_correct x) as Hred. set (y := Qred x) in *.
  rewrite <- Hred. clearbody y. clear x Hred.
  pose proof (Qpower2_pos (- prec)) as Hp2.
  pose proof (Qpower2_pos (emin - 1)) as Hp3.
  pose proof (Qabs_nonneg y) as Hy0.
  destruct (Qeq_bool y 0) eqn:E.
  - apply Qeq_bool_iff in E. rewrite E.
    assert (H0 : (0 - 0 == 0)%Q) by ring. rewrite H0.
    change (Qabs 0) with 0%Q. rewrite Qmult_0_l. lra.
  - assert (Hy : ~ (y == 0)%Q).
    { intros H. apply Qeq_bool_iff in H. congruence. }
    destruct (ilog2_spec y Hy) as [Hlo _].
    set (e0 := ilog2 y - (prec - 1)).
    set (e := Z.max e0 emin).
    pose proof (Qpower2_pos e) as He.
    destruct (rint_near (y / 2 ^ e)) as [H1 H2].
    set (m := inject_Z (rint (y / 2 ^ e))) in *.
    assert (Hyd : (y == y / 2 ^ e * 2 ^ e)%Q) by (field; lra).
    assert (Hdiff : (Qabs (m * 2 ^ e - y) <= 2 ^ e * (1 # 2))%Q).
    { apply Qabs_Qle_condition.
      assert (Hm : (m * 2 ^ e - y == (m - y / 2 ^ e) * 2 ^ e)%Q)
        by (rewrite Hyd at 1; ring).
      rewrite Hm. set (q := (y / 2 ^ e)%Q) in *. clearbody q m.
      split; nra. }
    eapply Qle_trans; [exact Hdiff|].
    assert (Hhalf : forall k, (2 ^ k * (1 # 2) == 2 ^ (k - 1))%Q).
    { intros k. rewrite <- (Qpower2_pred k). ring. }
    rewrite Hhalf.
    destruct (Z.max_spec e0 emin) as [[_ Hmax]|[_ Hmax]]; fold e in Hmax;
      rewrite Hmax.
    + pose proof (Qmult_le_0_compat _ _ Hy0 (Qlt_le_weak _ _ Hp2)). lra.
    + assert (Hp : (2 ^ ilog2 y == 2 ^ (prec - 1) * 2 ^ e0)%Q).
      { unfold e0. rewrite <- Qpower_plus by discriminate.
        replace (prec - 1 + (ilog2 y - (prec - 1))) with (ilog2 y) by lia.
        reflexivity. }
      assert (Hq : (2 * (2 ^ (prec - 1) * 2 ^ (- prec)) == 1)%Q).
      { rewrite <- Qpower_plus by discriminate.
        replace (prec - 1 + - prec) with (0 - 1) by lia.
        rewrite Qpower2_pred. reflexivity. }
      pose proof (Qpower2_pos (prec - 1)) as Hp1.
      pose proof (Qpower2_pos e0) as He0.
      rewrite Hp in Hlo. rewrite <- Hhalf.
      set (E2 := (2 ^ e0)%Q) in *. set (P := (2 ^ (prec - 1))%Q) in *.
      set (U := (2 ^ (- prec))%Q) in *. set (T := (2 ^ (emin - 1))%Q) in *.
      set (Y := Qabs y) in *. clearbody E2 P U Y T.
      assert (HU : (E2 * (1 # 2) == P * E2 * U)%Q).
      { assert (H : (P * E2 * U == (2 * (P * U)) * (E2 * (1 # 2)))%Q) by ring.
        rewrite H, Hq. ring. }
      rewrite HU. nra.
Qed.

(** An integer with at most [prec] bits is a float. *)
Lemma round_float_Z (prec emin z : Z) :
  0 <= prec -> emin <= 0 -> Z.abs z < 2 ^ prec ->
  (round_float prec emin (inject_Z z) == inject_Z z)%Q.
Proof.
  intros Hprec Hemin Hz. unfold round_float.
  pose proof (Qred_correct (inject_Z z)) as Hred.
  set (y := Qred (inject_Z z)) in *. clearbody y.
  destruct (Qeq_bool y 0) eqn:E.
  - apply Qeq_bool_iff in E. rewrite <- Hred, E. reflexivity.
  - assert (Hy : ~ (y == 0)%Q).
    { intros H. apply Qeq_bool_iff in H. congruence. }
    destruct (ilog2_spec y Hy) as [Hlo _].
    assert (Habs : (Qabs y == inject_Z (Z.abs z))%Q).
    { rewrite Hred. reflexivity. }
    assert (HL : ilog2 y < prec).
    { apply (Qpower_lt_compat_l_inv 2); [|reflexivity].
      eapply Qle_lt_trans; [exact Hlo|]. rewrite Habs.
      rewrite <- (Zpower_Qpower 2 prec Hprec). rewrite <- Zlt_Qlt. exact Hz. }
    set (e := Z.max (ilog2 y - (prec - 1)) emin).
    assert (He : 0 <= - e) by (unfold e; lia).
    assert (Hpe : (2 ^ e == / inject_Z (2 ^ (- e)))%Q).
    { rewrite (Zpower_Qpower 2 (- e) He). rewrite <- Qpower_opp.
      replace (- - e) with e by lia. reflexivity. }
    assert (Hpos : (0 < inject_Z (2 ^ (- e)))%Q).
    { rewrite (Zpower_Qpower 2 (- e) He). apply Qpower2_pos. }
    assert (Hq : (y / 2 ^ e == inject_Z (z * 2 ^ (- e)))%Q).
    { rewrite Hpe, Hred, inject_Z_mult. field. lra. }
    rewrite Hq, rint_Z, Hpe, inject_Z_mult. field. lra.
Qed.

#[local] Instance binary32_proper : Proper (Qeq ==> Qeq) binary32.
Proof. apply round_float_proper. Qed.

#[local] Instance binary64_proper : Proper (Qeq ==> Qeq) binary64.
Proof. apply round_float_proper. Qed.

#[local] Instance v_fma_proper fused :
  Proper (Qeq ==> Qeq ==> Qeq ==> Qeq) (v_fma fused).
Proof.
  intros a a' Ha b b' Hb c c' Hc. unfold v_fma.
  destruct fused; by rewrite Ha, Hb, Hc.
Qed.

(** The absolute error of a rounding of a value of size at most [B]. *)
Lemma binary32_near (x B : Q) :
  (- B <= x)%Q -> (x <= B)%Q ->
  (x - (B * (1 # 16777216) + (1 # 1000000000000)) <= binary32 x)%Q /\
  (binary32 x <= x + (B * (1 # 16777216) + (1 # 1000000000000)))%Q.
Proof.
  intros H1 H2. pose proof (round_float_error 24 (-149) x) as H.
  fold binary32 in H.
  assert (Hu : (2 ^ (-24) == 1 # 16777216)%Q) by reflexivity.
  assert (Ht : (2 ^ (-149 - 1) <= 1 # 1000000000000)%Q) by (vm_compute; discriminate).
  rewrite Hu in H.
  assert (Hx : (Qabs x <= B)%Q) by (apply Qabs_Qle_condition; split; lra).
  set (t := (2 ^ (-149 - 1))%Q) in *. clearbody t.
  apply Qabs_Qle_condition in H. destruct H as [Ha Hb].
  pose proof (Qabs_nonneg x). split; nra.
Qed.

Lemma binary64_near (x B : Q) :
  (- B <= x)%Q -> (x <= B)%Q ->
  (x - (B * (1 # 9007199254740992) + (1 # 1000000000000)) <= binary64 x)%Q /\
  (binary64 x <= x + (B * (1 # 9007199254740992) + (1 # 1000000000000)))%Q.
Proof.
  intros H1 H2. pose proof (round_float_error 53 (-1074) x) as H.
  fold binary64 in H.
  assert (Hu : (2 ^ (-53) == 1 # 9007199254740992)%Q) by reflexivity.
  assert (Ht : (2 ^ (-1074 - 1) <= 1 # 1000000000000)%Q) by (vm_compute; discriminate).
  rewrite Hu in H.
  assert (Hx : (Qabs x <= B)%Q) by (apply Qabs_Qle_condition; split; lra).
  set (t := (2 ^ (-1074 - 1))%Q) in *. clearbody t.
  apply Qabs_Qle_condition in H. destruct H as [Ha Hb].
  pose proof (Qabs_nonneg x). split; nra.
Qed.

Lemma v_fma_near (fused : bool) (a b c : Q) :
  (-256 <= a * b)%Q -> (a * b <= 256)%Q -> (-256 <= c)%Q -> (c <= 256)%Q ->
  (a * b + c - (1 # 8192) <= v_fma fused a b c)%Q /\
  (v_fma fused a b c <= a * b + c + (1 # 8192))%Q.
Proof.
  intros H1 H2 H3 H4. unfold v_fma. destruct fused.
  - destruct (binary32_near (a * b + c) 512) as [Ha Hb]; [lra|lra|]. split; lra.
  - destruct (binary32_near (a * b) 256) as [Ha Hb]; [lra|lra|].
    destruct (binary32_near (binary32 (a * b) + c) 1024) as [Hc Hd]; [lra|lra|].
    split; lra.
Qed.

(** The blend of [addWeighted] in single precision is within [1/2048]
    of the weighted mean. *)
Lemma blend_near (fused : bool) (alpha : Q) (o f : Z) :
  (0 <= alpha)%Q -> (alpha <= 1)%Q -> 0 <= o <= 255 -> 0 <= f <= 255 ->
  let v := v_fma fused (inject_Z o) (binary32 alpha)
             (v_fma fused (inject_Z f) (binary32 (binary64 (1 - alpha)))
                (binary32 0)) in
  (Qabs (v - (alpha * inject_Z o + (1 - alpha) * inject_Z f)) <= 1 # 2048)%Q.
Proof.
  intros Ha0 Ha1 [Ho0 Ho1] [Hf0 Hf1] v. subst v.
  rewrite Zle_Qle in Ho0, Ho1, Hf0, Hf1.
  change (inject_Z 0) with 0%Q in *. change (inject_Z 255) with 255%Q in *.
  set (a := inject_Z o) in *. set (b := inject_Z f) in *. clearbody a b.
  change (binary32 0) with 0%Q.
  destruct (binary32_near alpha 1) as [A1 A2]; [lra|lra|].
  destruct (binary64_near (1 - alpha) 1) as [B1 B2]; [lra|lra|].
  destruct (binary32_near (binary64 (1 - alpha)) 2) as [C1 C2]; [lra|lra|].
  set (alpha' := binary32 alpha) in *.
  set (beta' := binary32 (binary64 (1 - alpha))) in *.
  set (beta := binary64 (1 - alpha)) in *. clearbody alpha' beta' beta.
  assert (P1 : (a * alpha - 255 * (2 # 16777216) <= a * alpha')%Q) by nra.
  assert (P2 : (a * alpha' <= a * alpha + 255 * (2 # 16777216))%Q) by nra.
  assert (P3 : (b * (1 - alpha) - 255 * (3 # 16777216) <= b * beta')%Q) by nra.
  assert (P4 : (b * beta' <= b * (1 - alpha) + 255 * (3 # 16777216))%Q) by nra.
  assert (R1 : (0 <= a * alpha)%Q) by nra.
  assert (R2 : (a * alpha <= 255)%Q) by nra.
  assert (R3 : (0 <= b * (1 - alpha))%Q) by nra.
  assert (R4 : (b * (1 - alpha) <= 255)%Q) by nra.
  destruct (v_fma_near fused b beta' 0) as [I1 I2]; [lra|lra|lra|lra|].
  set (t := v_fma fused b beta' 0) in *. clearbody t.
  destruct (v_fma_near fused a alpha' t) as [O1 O2]; [lra|lra|lra|lra|].
  apply Qabs_Qle_condition. split; lra.
Qed.

(** Rounding a value that is close to a mean of two integers. *)
Lemma rint_between (v s : Q) (lo hi : Z) :
  (Qabs (v - s) <= 1 # 2048)%Q ->
  (inject_Z lo <= s)%Q -> (s <= inject_Z hi)%Q ->
  lo <= rint v <= hi /\
  (Qabs (inject_Z (rint v) - s) <= (1 # 2) + (1 # 2048))%Q.
Proof.
  intros Hv Hlo Hhi. apply Qabs_Qle_condition in Hv. destruct Hv as [H1 H2].
  destruct (rint_near v) as [Ha Hb]. split; [split|].
  - assert (H : (inject_Z (lo - 1) < inject_Z (rint v))%Q).
    { replace (lo - 1) with (lo + (-1)) by lia. rewrite inject_Z_plus.
      change (inject_Z (-1)) with (-1)%Q. lra. }
    rewrite <- Zlt_Qlt in H. lia.
  - assert (H : (inject_Z (rint v) < inject_Z (hi + 1))%Q).
    { rewrite inject_Z_plus. change (inject_Z 1) with 1%Q. lra. }
    rewrite <- Zlt_Qlt in H. lia.
  - apply Qabs_Qle_condition. split; lra.
Qed.

Lemma binary32_uint8 (z : Z) : 0 <= z <= 255 -> (binary32 (inject_Z z) == inject_Z z)%Q.
Proof.
  intros H. apply round_float_Z; [lia|lia|]. change (2 ^ 24) with 16777216. lia.
Qed.

Lemma v_fma_one (fused : bool) (z : Z) :
  0 <= z <= 255 -> (v_fma fused (inject_Z z) 1 0 == inject_Z z)%Q.
Proof.
  intros H. unfold v_fma.
  assert (H1 : (inject_Z z * 1 == inject_Z z)%Q) by ring.
  assert (H2 : (inject_Z z * 1 + 0 == inject_Z z)%Q) by ring.
  assert (H3 : (inject_Z z + 0 == inject_Z z)%Q) by ring.
  destruct fused.
  - rewrite H2. by apply binary32_uint8.
  - rewrite H1, (binary32_uint8 z H), H3. by apply binary32_uint8.
Qed.

Lemma v_fma_zero (fused : bool) (a c : Q) :
  (binary32 c == c)%Q -> (v_fma fused a 0 c == c)%Q.
Proof.
  intros Hc. unfold v_fma.
  assert (H1 : (a * 0 == 0)%Q) by ring.
  assert (H2 : (a * 0 + c == c)%Q) by ring.
  assert (H3 : (0 + c == c)%Q) by ring.
  destruct fused.
  - by rewrite H2.
  - rewrite H1. change (binary32 0) with 0%Q. by rewrite H3.
Qed.

(** At the weights 1 and 0 the blend is exact. *)
Lemma blend_full (fused : bool) (alpha : Q) (o f : Z) :
  (alpha == 1)%Q -> 0 <= o <= 255 ->
  (v_fma fused (inject_Z o) (binary32 alpha)
     (v_fma fused (inject_Z f) (binary32 (binary64 (1 - alpha))) (binary32 0))
   == inject_Z o)%Q.
Proof.
  intros Ha Ho.
  assert (H0 : (1 - alpha == 0)%Q) by (rewrite Ha; reflexivity).
  rewrite H0, Ha. change (binary64 0) with 0%Q. change (binary32 0) with 0%Q.
  assert (H1 : (binary32 1 == 1)%Q)
    by (apply (round_float_Z 24 (-149) 1); [lia|lia|reflexivity]).
  rewrite H1, v_fma_zero by reflexivity. by apply v_fma_one.
Qed.

Lemma blend_none (fused : bool) (alpha : Q) (o f : Z) :
  (alpha == 0)%Q -> 0 <= f <= 255 ->
  (v_fma fused (inject_Z o) (binary32 alpha)
     (v_fma fused (inject_Z f) (binary32 (binary64 (1 - alpha))) (binary32 0))
   == inject_Z f)%Q.
Proof.
  intros Ha Hf.
  assert (H0 : (1 - alpha == 1)%Q) by (rewrite Ha; reflexivity).
  rewrite H0, Ha. change (binary32 0) with 0%Q.
  assert (H1 : (binary32 1 == 1)%Q)
    by (apply (round_float_Z 24 (-149) 1); [lia|lia|reflexivity]).
  assert (H2 : (binary64 1 == 1)%Q)
    by (apply (round_float_Z 53 (-1074) 1); [lia|lia|reflexivity]).
  rewrite H2, H1, (v_fma_one fused f Hf).
  apply v_fma_zero. by apply binary32_uint8.
Qed.

Lemma saturate_cast_uint8 v : is_uint8 v -> saturate_cast v = v.
Proof. unfold is_uint8, saturate_cast. lia. Qed.

Lemma zip_with_first {A B} (g : A -> B -> A) (l1 : list A) (l2 : list B) :
  length l1 = length l2 ->
  (forall a b, a ∈ l1 -> b ∈ l2 -> g a b = a) -> zip_with g l1 l2 = l1.
Proof.
  revert l2. induction l1 as [|a l1 IH]; intros [|b l2] Hl Hg; try done.
  cbn. rewrite Hg by left. f_equal. apply IH; [by inversion Hl|].
  intros a' b' Ha' Hb'. apply Hg; by right.
Qed.

Lemma zip_with_second {A B} (g : A -> B -> B) (l1 : list A) (l2 : list B) :
  length l1 = length l2 ->
  (forall a b, a ∈ l1 -> b ∈ l2 -> g a b = b) -> zip_with g l1 l2 = l2.
Proof.
  revert l2. induction l1 as [|a l1 IH]; intros [|b l2] Hl Hg; try done.
  cbn. rewrite Hg by left. f_equal. apply IH; [by inversion Hl|].
  intros a' b' Ha' Hb'. apply Hg; by right.
Qed.

(** A weighted mean of two integers lies between them. *)
Lemma mean_between (alpha : Q) (o f : Z) :
  (0 <= alpha)%Q -> (alpha <= 1)%Q ->
  (inject_Z (Z.min o f) <= alpha * inject_Z o + (1 - alpha) * inject_Z f)%Q /\
  (alpha * inject_Z o + (1 - alpha) * inject_Z f <= inject_Z (Z.max o f))%Q.
Proof.
  intros Ha0 Ha1.
  destruct (Z.le_ge_cases o f) as [Hle|Hle].
  - rewrite Z.min_l, Z.max_r by lia. rewrite Zle_Qle in Hle. split; nra.
  - rewrite Z.min_r, Z.max_l by lia. rewrite Zle_Qle in Hle. split; nra.
Qed.

(** One channel value of [watermark_frame]. *)
Lemma watermark_frame_lookup cv width height watermark_text position opacity
    frame i o f :
  draw_overlay cv width height watermark_text position frame !! i = Some o ->
  frame !! i = Some f ->
  watermark_frame cv width height watermark_text position opacity frame !! i
  = Some (saturate_cast
            (cvRound
               (v_fma (fused_multiply_add cv) (inject_Z o) (binary32 opacity)
                  (v_fma (fused_multiply_add cv) (inject_Z f)
                     (binary32 (binary64 (1 - opacity))) (binary32 0))))).
Proof.
  intros Ho Hf. unfold watermark_frame, addWeighted.
  rewrite lookup_zip_with, Ho. cbn. rewrite Hf. reflexivity.
Qed.

(** C9. Every channel value of the output is the blend
    [opacity * overlay + (1 - opacity) * original] as
    [cv2.addWeighted] evaluates it, in single precision, and stores it
    in the 8-bit frame: the stored value is the rounding of the
    computed one and lies within [1/2 + 1/2048] of the weighted mean of
    the two values. At opacity 1 the output is the drawn overlay, value
    for value; at opacity 0 it is the original frame. *)
Theorem watermark_blend :
  forall (cv : cv2) (width height : Z) (watermark_text position : string)
         (opacity : Q) (frame : image),
    Forall is_uint8 frame ->
    Forall is_uint8 (draw_overlay cv width height watermark_text position frame) ->
    length (draw_overlay cv width height watermark_text position frame)
    = length frame ->
    ((0 <= opacity)%Q -> (opacity <= 1)%Q ->
     forall i o f,
       draw_overlay cv width height watermark_text position frame !! i = Some o ->
       frame !! i = Some f ->
       exists out,
         watermark_frame cv width height watermark_text position opacity frame
           !! i = Some out /\
         is_uint8 out /\
         out = cvRound
                 (v_fma (fused_multiply_add cv) (inject_Z o) (binary32 opacity)
                    (v_fma (fused_multiply_add cv) (inject_Z f)
                       (binary32 (binary64 (1 - opacity))) (binary32 0))) /\
         (Qabs (inject_Z out
                - (opacity * inject_Z o + (1 - opacity) * inject_Z f))
          <= (1 # 2) + (1 # 2048))%Q)
    /\
    ((opacity == 1)%Q ->
     watermark_frame cv width height watermark_text position opacity frame
     = draw_overlay cv width height watermark_text position frame)
    /\
    ((opacity == 0)%Q ->
     watermark_frame cv width height watermark_text position opacity frame = frame).
Proof.
  intros cv width height watermark_text position opacity frame Hframe Hover Hlen.
  split; [|split].
  - intros Ha0 Ha1 i o f Ho Hf.
    assert (Huo : is_uint8 o) by exact (Forall_lookup_1 _ _ _ _ Hover Ho).
    assert (Huf : is_uint8 f) by exact (Forall_lookup_1 _ _ _ _ Hframe Hf).
    pose proof (blend_near (fused_multiply_add cv) opacity o f Ha0 Ha1 Huo Huf)
      as Hnear. cbv zeta in Hnear.
    destruct (mean_between opacity o f Ha0 Ha1) as [Hlo Hhi].
    assert (Hlo' : (inject_Z 0 <= opacity * inject_Z o + (1 - opacity) * inject_Z f)%Q).
    { eapply Qle_trans; [|exact Hlo]. rewrite <- Zle_Qle.
      unfold is_uint8 in *. lia. }
    assert (Hhi' : (opacity * inject_Z o + (1 - opacity) * inject_Z f <= inject_Z 255)%Q).
    { eapply Qle_trans; [exact Hhi|]. rewrite <- Zle_Qle.
      unfold is_uint8 in *. lia. }
    destruct (rint_between _ _ 0 255 Hnear Hlo' Hhi') as [Hu Hd].
    eexists. split; [by apply watermark_frame_lookup|].
    unfold cvRound. rewrite saturate_cast_uint8 by exact Hu.
    split; [exact Hu|]. split; [reflexivity|exact Hd].
  - intros H1. unfold watermark_frame, addWeighted.
    apply zip_with_first; [exact Hlen|].
    intros a b Ha Hb.
    assert (Hua : is_uint8 a) by (eapply Forall_forall in Hover; eauto).
    unfold cvRound.
    rewrite (blend_full (fused_multiply_add cv) opacity a b H1 Hua), rint_Z.
    by apply saturate_cast_uint8.
  - intros H0. unfold watermark_frame, addWeighted.
    apply zip_with_second; [exact Hlen|].
    intros a b Ha Hb.
    assert (Hub : is_uint8 b) by (eapply Forall_forall in Hframe; eauto).
    unfold cvRound.
    rewrite (blend_none (fused_multiply_add cv) opacity a b H0 Hub), rint_Z.
    by apply saturate_cast_uint8.
Qed.

Lemma watermark_blend_witness :
  watermark_frame demo_cv2 640 480 "@channel" "center" 1 [10; 20; 30]
  = [255; 20; 30] /\
  watermark_frame demo_cv2_fma 640 480 "@channel" "center" 0 [10; 20; 30]
  = [10; 20; 30] /\
  (exists out,
     watermark_frame demo_cv2 640 480 "@channel" "center" (1 # 10) [10; 20; 30]
       !! 0%nat = Some out /\
     (Qabs (inject_Z out - ((1 # 10) * inject_Z 255 + (1 - (1 # 10)) * inject_Z 10))
      <= (1 # 2) + (1 # 2048))%Q) /\
  addWeighted demo_cv2 [6; 255] (1 # 10) [41; 10] (binary64 (1 - (1 # 10))) 0
  = [37; 34].
Proof.
  assert (Hf : Forall is_uint8 [10; 20; 30])
    by (repeat constructor; unfold is_uint8; lia).
  assert (Ho : Forall is_uint8
                 (draw_overlay demo_cv2 640 480 "@channel" "center" [10; 20; 30]))
    by (change (Forall is_uint8 [255; 20; 30]);
        repeat constructor; unfold is_uint8; lia).
  destruct (watermark_blend demo_cv2 640 480 "@channel" "center" 1 [10; 20; 30]
              Hf Ho eq_refl) as (_ & H1 & _).
  destruct (watermark_blend demo_cv2_fma 640 480 "@channel" "center" 0 [10; 20; 30]
              Hf Ho eq_refl) as (_ & _ & H0).
  destruct (watermark_blend demo_cv2 640 480 "@channel" "center" (1 # 10)
              [10; 20; 30] Hf Ho eq_refl) as (Hmid & _ & _).
  split; [apply H1; reflexivity|]. split; [apply H0; reflexivity|]. split.
  - destruct (Hmid ltac:(discriminate) ltac:(discriminate) 0%nat 255 10
                eq_refl eq_refl) as (out & Hout & _ & _ & Hd).
    exists out. split; [exact Hout|exact Hd].
  - vm_compute. reflexivity.
Defined.

(** * Further properties of the handlers *)

(** ** Sessions *)

(** What a callback of [user_id] may change: the session of that user,
    and rows added to the registry. *)
Lemma update_settings_others f user_id st :
  media (update_settings f user_id st) = media st /\
  users (update_settings f user_id st) = users st /\
  BOT_CONFIG (update_settings f user_id st) = BOT_CONFIG st /\
  (forall other, other <> user_id ->
     PENDING_UPLOADS (update_settings f user_id st) !! other
     = PENDING_UPLOADS st !! other).
Proof.
  unfold update_settings, set_pending. cbn.
  split; [done|]. split; [done|]. split; [done|].
  intros other Hne. by rewrite lookup_alter_ne.
Qed.

Lemma process_media_cases e st user_id :
  (exists sent x, process_media e st user_id = (st, sent, Some x)) \/
  (exists s sent,
     PENDING_UPLOADS st !! user_id = Some s /\
     media st !! make_payload (uuid4 e) = None /\
     process_media e st user_id =
     (if negb (generate_preview s || generate_collage s || watermark_enabled s)
      then set_pending (delete user_id (PENDING_UPLOADS st))
             (set_media (<[make_payload (uuid4 e) :=
                             MediaRow (file_id s) (media_type s)
                               (Some (protection_int (content_protection s)))]>
                           (media st)) st)
      else set_media (<[make_payload (uuid4 e) :=
                          MediaRow (file_id s) (media_type s)
                            (Some (protection_int (content_protection s)))]>
                        (media st)) st,
      sent, None)).
Proof.
  destruct (PENDING_UPLOADS st !! user_id) as [s|] eqn:Hs.
  - destruct (media st !! make_payload (uuid4 e)) as [r|] eqn:Hfresh.
    + left. unfold process_media, issue_token, insert_media. rewrite Hs, Hfresh.
      destruct (negb _); eauto.
    + right. destruct (process_media_fresh e st user_id s Hs Hfresh)
        as (sent & _ & Hpm). eauto.
  - left. unfold process_media. rewrite Hs. eauto.
Qed.

Lemma only_touches_refl user_id st : only_touches user_id st st.
Proof. unfold only_touches. done. Qed.

Lemma only_touches_update f user_id st :
  only_touches user_id st (update_settings f user_id st).
Proof.
  destruct (update_settings_others f user_id st) as (Hm & Hu & Hc & Hp).
  unfold only_touches. rewrite Hm. done.
Qed.

Lemma only_touches_insert user_id st tok row :
  media st !! tok = None ->
  only_touches user_id st (set_media (<[tok := row]> (media st)) st) /\
  only_touches user_id st
    (set_pending (delete user_id (PENDING_UPLOADS st))
       (set_media (<[tok := row]> (media st)) st)).
Proof.
  intros Hfresh. unfold only_touches. cbn.
  assert (Hrows : forall t r, media st !! t = Some r ->
                              <[tok := row]> (media st) !! t = Some r).
  { intros t r Hr. rewrite lookup_insert_ne; [done|]. intros ->. congruence. }
  split; (split; [done|]; split; [done|]; split; [|exact Hrows]).
  - done.
  - intros other Hne. by rewrite lookup_delete_ne.
Qed.

Lemma only_touches_delete user_id st st' :
  only_touches user_id st st' ->
  only_touches user_id st
    (set_pending (delete user_id (PENDING_UPLOADS st')) st').
Proof.
  intros (Hu & Hc & Hp & Hm). unfold only_touches. cbn.
  split; [done|]. split; [done|]. split; [|done].
  intros other Hne. rewrite lookup_delete_ne by done. by apply Hp.
Qed.

Lemma only_touches_process_media e st user_id :
  only_touches user_id st (process_media e st user_id).1.1.
Proof.
  destruct (process_media_cases e st user_id)
    as [(sent & x & ->)|(s & sent & Hs & Hfresh & ->)].
  - apply only_touches_refl.
  - cbn [fst].
    destruct (only_touches_insert user_id st (make_payload (uuid4 e))
                (MediaRow (file_id s) (media_type s)
                   (Some (protection_int (content_protection s)))) Hfresh)
      as [H1 H2].
    by destruct (negb _).
Qed.

(** The state after a callback is the state before, the state with the
    caller's session updated, or what the "process_now" branch leaves. *)
Lemma handle_callback_state ADMINS e st call :
  (handle_callback ADMINS e st call).1.1 = st \/
  (exists f,
     (handle_callback ADMINS e st call).1.1
     = update_settings f (call_from_user call) st /\
     data call <> "process_now") \/
  (data call = "process_now" /\
   ((handle_callback ADMINS e st call).1.1
    = (process_media e st (call_from_user call)).1.1 \/
    (handle_callback ADMINS e st call).1.1
    = set_pending (delete (call_from_user call)
                     (PENDING_UPLOADS (process_media e st (call_from_user call)).1.1))
        (process_media e st (call_from_user call)).1.1)).
Proof.
  unfold handle_callback.
  destruct (negb (is_admin ADMINS (call_from_user call))); [by left|].
  destruct (PENDING_UPLOADS st !! call_from_user call) as [s|]; [|by left].
  cbv zeta.
  repeat match goal with
  | |- context [if String.eqb (data call) "process_now" then _ else _] =>
      destruct (String.eqb_spec (data call) "process_now") as [Hd|Hd]
  | |- context [if ?b then _ else _] => destruct b eqn:?
  | |- context [match py_int e ?x with _ => _ end] => destruct (py_int e x)
  | |- context [match py_float e ?x with _ => _ end] => destruct (py_float e x)
  | |- context [match percent ?o with _ => _ end] => destruct (percent o)
  end;
  try (by left);
  try (right; left; eexists; split; [reflexivity|];
       intros Hd'; rewrite Hd' in *; discriminate).
  right. right. split; [done|].
  destruct (process_media e st (call_from_user call)) as [[st' sent] [x|]];
    cbn [fst snd]; [by left|].
  destruct (PENDING_UPLOADS st' !! call_from_user call); [by right|by left].
Qed.

(** X1. A callback changes nothing but the session of the user who
    pressed the button, and it only adds rows to the registry: the
    sessions of other users, the users table and the configuration
    stay as they are, every stored row stays, and unless the button is
    "process_now" the registry is unchanged. *)
Theorem callback_touches_own_session_only :
  forall ADMINS e st call,
    only_touches (call_from_user call) st (handle_callback ADMINS e st call).1.1 /\
    (data call <> "process_now" ->
     media (handle_callback ADMINS e st call).1.1 = media st).
Proof.
  intros ADMINS e st call.
  destruct (handle_callback_state ADMINS e st call)
    as [->|[(f & -> & Hd)|(Hd & [->| ->])]].
  - split; [apply only_touches_refl|done].
  - split; [apply only_touches_update|].
    intros _. apply update_settings_others.
  - split; [apply only_touches_process_media|done].
  - split; [|done]. apply only_touches_delete, only_touches_process_media.
Qed.





Lemma callback_touches_own_session_only_witness :
  PENDING_UPLOADS
    (handle_callback [7; 8] demo_env demo_two_sessions
       (demo_call "menu_toggle_protection")).1.1 !! 8
  = PENDING_UPLOADS demo_two_sessions !! 8 /\
  media (handle_callback [7; 8] demo_env demo_two_sessions
           (demo_call "menu_toggle_protection")).1.1
  = media demo_two_sessions.
Proof.
  destruct (callback_touches_own_session_only [7; 8] demo_env demo_two_sessions
              (demo_call "menu_toggle_protection")) as ((_ & _ & Hp & _) & Hm).
  split; [apply Hp; discriminate|apply Hm; discriminate].
Defined.

Lemma handle_callback_toggle ADMINS e st call s :
  is_admin ADMINS (call_from_user call) = true ->
  PENDING_UPLOADS st !! call_from_user call = Some s ->
  data call = "menu_toggle_protection" ->
  handle_callback ADMINS e st call =
  (update_settings (fun s => with_protection (negb (content_protection s)) s)
     (call_from_user call) st,
   AnswerCallback "Protection" ::
   back_to_main
     (update_settings (fun s => with_protection (negb (content_protection s)) s)
        (call_from_user call) st) (call_from_user call),
   None).
Proof.
  intros Hadm Hs Hd. unfold handle_callback. rewrite Hadm, Hs, Hd. reflexivity.
Qed.

Lemma with_protection_twice s :
  with_protection (negb (content_protection (with_protection
                     (negb (content_protection s)) s)))
    (with_protection (negb (content_protection s)) s) = s.
Proof. destruct s. cbn. by rewrite negb_involutive. Qed.

(** X3. The protection button is a toggle: pressed once it flips the
    flag of the caller's session and nothing else, pressed twice it
    leaves the whole state as it was. *)
Theorem protection_toggle_twice :
  forall ADMINS e e' st call s,
    is_admin ADMINS (call_from_user call) = true ->
    PENDING_UPLOADS st !! call_from_user call = Some s ->
    data call = "menu_toggle_protection" ->
    PENDING_UPLOADS (handle_callback ADMINS e st call).1.1 !! call_from_user call
    = Some (with_protection (negb (content_protection s)) s) /\
    (handle_callback ADMINS e' (handle_callback ADMINS e st call).1.1 call).1.1
    = st.
Proof.
  intros ADMINS e e' st call s Hadm Hs Hd.
  rewrite (handle_callback_toggle ADMINS e st call s Hadm Hs Hd). cbn [fst].
  set (f := fun s0 => with_protection (negb (content_protection s0)) s0).
  assert (Hs1 : PENDING_UPLOADS (update_settings f (call_from_user call) st)
                  !! call_from_user call = Some (f s)).
  { unfold update_settings, set_pending. cbn. by rewrite lookup_alter_eq, Hs. }
  split; [exact Hs1|].
  rewrite (handle_callback_toggle ADMINS e' _ call (f s) Hadm Hs1 Hd). cbn [fst].
  fold f. unfold update_settings, set_pending. cbn.
  destruct st as [m u p c]. cbn in *. f_equal.
  rewrite alter_alter_eq. apply alter_id.
  intros x _. apply with_protection_twice.
Qed.

Lemma protection_toggle_twice_witness :
  (content_protection <$>
     PENDING_UPLOADS (handle_callback [7] demo_env demo_session_state
                        (demo_call "menu_toggle_protection")).1.1 !! 7)
  = Some false /\
  (handle_callback [7] demo_env
     (handle_callback [7] demo_env demo_session_state
        (demo_call "menu_toggle_protection")).1.1
     (demo_call "menu_toggle_protection")).1.1
  = demo_session_state.
Proof.
  destruct (protection_toggle_twice [7] demo_env demo_env demo_session_state
              (demo_call "menu_toggle_protection") _ eq_refl eq_refl eq_refl)
    as [H1 H2].
  split; [|exact H2].
  change (content_protection <$>
            PENDING_UPLOADS (handle_callback [7] demo_env demo_session_state
              (demo_call "menu_toggle_protection")).1.1
            !! call_from_user (demo_call "menu_toggle_protection") = Some false).
  by rewrite H1.
Defined.





(** X6. An upload by an admin (a video, or a photo with at least one
    size) replaces whatever session that user had: the new session
    carries the uploaded file (for a photo the last, largest size), every stage off, protection on and no text awaited;
    the sessions of other users and the registry are untouched, and a
    user who is not an admin changes nothing. *)
Theorem upload_resets_session :
  forall ADMINS st msg,
    (is_admin ADMINS (from_user msg) = false ->
     handle_media ADMINS st msg = (st, [ReplyChannelMessage])) /\
    (is_admin ADMINS (from_user msg) = true ->
     (video msg = None -> photo msg <> []) ->
     (exists s,
        PENDING_UPLOADS (handle_media ADMINS st msg).1 !! from_user msg = Some s /\
        file_id s = match video msg with
                    | Some f => f
                    | None => List.last (photo msg) EmptyString
                    end /\
        media_type s = match video msg with
                       | Some _ => "video"
                       | None => "photo"
                       end /\
        generate_preview s = false /\ generate_collage s = false /\
        watermark_enabled s = false /\
        preview_length s = None /\ collage_frames s = None /\
        content_protection s = true /\ waiting_for s = None) /\
     only_touches (from_user msg) st (handle_media ADMINS st msg).1 /\
     media (handle_media ADMINS st msg).1 = media st /\
     (handle_media ADMINS st msg).2 = [ShowAllOptionsMenu None None false true]).
Proof.
  intros ADMINS st msg. unfold handle_media. split; intros Hadm; rewrite Hadm.
  - reflexivity.
  - intros _. cbn [negb fst snd]. unfold show_all_options_menu, set_pending.
    cbn [PENDING_UPLOADS]. rewrite lookup_insert_eq. cbn.
    split; [|split; [|done]].
    + eexists. split; [reflexivity|]. cbn. repeat split; reflexivity.
    + unfold only_touches. cbn. split; [done|]. split; [done|].
      split; [|done]. intros other Hne. by rewrite lookup_insert_ne.
Qed.

Lemma upload_resets_session_witness :
  handle_media [7] demo_session_state
    {| from_user := 9; chat_id := 9; message_id := 1; text := EmptyString;
       video := Some "X"; photo := [] |}
  = (demo_session_state, [ReplyChannelMessage]) /\
  (file_id <$> PENDING_UPLOADS demo_two_sessions !! 8) = Some "LARGE" /\
  PENDING_UPLOADS demo_two_sessions !! 7 = PENDING_UPLOADS demo_session_state !! 7.
Proof.
  split.
  - apply (proj1 (upload_resets_session [7] demo_session_state _)). reflexivity.
  - destruct (proj2 (upload_resets_session [7; 8] demo_session_state
                {| from_user := 8; chat_id := 8; message_id := 6;
                   text := EmptyString; video := None;
                   photo := ["SMALL"; "LARGE"] |}) eq_refl)
      as ((s & Hs & Hf & _) & (_ & _ & Ho & _) & _); [discriminate|].
    split.
    + change (file_id <$> PENDING_UPLOADS demo_two_sessions !! 8)
        with (file_id <$>
                PENDING_UPLOADS
                  (handle_media [7; 8] demo_session_state
                     {| from_user := 8; chat_id := 8; message_id := 6;
                        text := EmptyString; video := None;
                        photo := ["SMALL"; "LARGE"] |}).1
                !! from_user {| from_user := 8; chat_id := 8; message_id := 6;
                                text := EmptyString; video := None;
                                photo := ["SMALL"; "LARGE"] |}).
      rewrite Hs. cbn. by rewrite Hf.
    + apply (Ho 7). discriminate.
Defined.






(** ** Words *)

Lemma string_app_nil_r (s : string) : s +:+ EmptyString = s.
Proof. induction s as [|c s IH]; [done|]. unfold String.append; fold String.append. by rewrite IH. Qed.

Lemma string_app_cons c (s t : string) : String c s +:+ t = String c (s +:+ t).
Proof. reflexivity. Qed.

Lemma string_app_assoc (a b c : string) : (a +:+ b) +:+ c = a +:+ (b +:+ c).
Proof.
  induction a as [|x a IH]; [done|]. rewrite !string_app_cons. by rewrite IH.
Qed.

(** A white-space character at the start of [s] is one at the start of
    every string that [s] starts. *)
Lemma space_width_app (s t : string) :
  space_width s <> 0%nat -> space_width (s +:+ t) = space_width s.
Proof.
  destruct s as [|a [|b [|c r]]]; cbn [space_width is_space2 is_space3];
    rewrite ?string_app_cons; cbn [space_width is_space2 is_space3];
    try done.
  - destruct (is_space a); [done|]. intros H. done.
  - destruct (is_space a); [done|].
    destruct (byte_in 194 194 a && (byte_in 133 133 b || byte_in 160 160 b));
      [by destruct t|done].
Qed.

(** No white-space character starts in a string that ends before a
    space, or at the end of the text, unless it starts in the string
    alone. *)
Ltac case_bytes :=
  repeat match goal with
  | |- context [byte_in ?l ?h ?c] =>
      match c with
      | " "%char => fail 1
      | _ => destruct (byte_in l h c)
      end
  end.

Lemma space_width_before (s t : string) :
  s <> EmptyString -> space_width s = 0%nat ->
  space_width (s +:+ String " " t) = 0%nat.
Proof.
  intros Hs Hw.
  destruct s as [|a [|b [|c r]]]; [done|..];
    rewrite ?string_app_cons;
    change (EmptyString +:+ String " " t) with (String " " t);
    revert Hw; cbn [space_width is_space2 is_space3].
  - destruct (is_space a); [done|]. intros _.
    destruct t; case_bytes; reflexivity.
  - destruct (is_space a); [done|].
    destruct (byte_in 194 194 a && (byte_in 133 133 b || byte_in 160 160 b)); [done|].
    intros _. case_bytes; reflexivity.
  - done.
Qed.

Lemma clear_before_step (w : string) (c : ascii) (s : string) :
  clear_before w (String c s) = true ->
  space_width (String c s) = 0%nat ->
  clear_before (w +:+ String c EmptyString) s = true.
Proof.
  intros Hw Hc. induction w as [|a w IH].
  - change (EmptyString +:+ String c EmptyString) with (String c EmptyString).
    cbn [clear_before]. change (String c EmptyString +:+ s) with (String c s).
    rewrite Hc. reflexivity.
  - rewrite string_app_cons. cbn [clear_before] in *.
    apply andb_true_iff in Hw as [H1 H2].
    rewrite <- string_app_cons, string_app_assoc.
    change (String c EmptyString +:+ s) with (String c s).
    rewrite H1. cbn [andb]. by apply IH.
Qed.

Lemma clear_before_no_space (w s : string) :
  clear_before w s = true -> no_space w = true.
Proof.
  induction w as [|a w IH]; [done|]. cbn [clear_before no_space].
  intros H. apply andb_true_iff in H as [H1 H2].
  rewrite (IH H2), andb_true_r.
  apply Nat.eqb_eq in H1. apply Nat.eqb_eq.
  destruct (Nat.eq_dec (space_width (String a w)) 0%nat) as [E|E]; [exact E|].
  rewrite (space_width_app _ s E) in H1. contradiction.
Qed.

Lemma app_nonempty (w : string) (c : ascii) :
  w +:+ String c EmptyString <> EmptyString.
Proof. by destruct w. Qed.

(** [split] returns words: none is empty, none holds white space. *)
Lemma split_go_words s :
  forall cur skip,
    (forall w, cur = Some w -> w <> EmptyString /\ clear_before w s = true) ->
    (skip <> 0%nat -> cur = None) ->
    Forall is_word (split_go cur skip s).
Proof.
  induction s as [|c s IH]; intros cur skip Hcur Hskip.
  - cbn [split_go]. destruct cur as [w|]; [|constructor].
    destruct (Hcur w eq_refl) as [Hne Hcl].
    constructor; [|constructor]. split; [exact Hne|].
    by apply (clear_before_no_space w EmptyString).
  - cbn [split_go]. destruct skip as [|k].
    + destruct (space_width (String c s)) as [|k] eqn:Hc.
      * apply IH; [|done]. intros w [= <-]. split; [apply app_nonempty|].
        apply clear_before_step; [|exact Hc].
        destruct cur as [w|]; [by apply Hcur|reflexivity].
      * apply Forall_app. split.
        -- destruct cur as [w|]; [|constructor].
           destruct (Hcur w eq_refl) as [Hne Hcl].
           constructor; [|constructor]. split; [exact Hne|].
           by apply (clear_before_no_space w (String c s)).
        -- apply IH; [intros w [=]|done].
    + rewrite (Hskip ltac:(done)). apply IH; [intros w [=]|done].
Qed.

Lemma split_words s : Forall is_word (split s).
Proof. apply split_go_words; [intros w [=]|done]. Qed.

Lemma string_app_empty_l (s : string) : EmptyString +:+ s = s.
Proof. reflexivity. Qed.

(** Reading a word that is followed by a space or by the end of the
    text. *)
Lemma split_go_word (w : string) :
  forall cur rest,
    w <> EmptyString -> no_space w = true ->
    (rest = EmptyString \/ exists t, rest = String " " t) ->
    split_go cur 0 (w +:+ rest)
    = split_go (Some (default EmptyString cur +:+ w)) 0 rest.
Proof.
  induction w as [|a w IH]; intros cur rest Hne Hw Hrest; [done|].
  cbn [no_space] in Hw. apply andb_true_iff in Hw as [Ha Hw].
  apply Nat.eqb_eq in Ha.
  assert (Hhere : space_width (String a w +:+ rest) = 0%nat).
  { destruct Hrest as [->|[t ->]].
    - by rewrite string_app_nil_r.
    - by apply space_width_before. }
  rewrite string_app_cons in *. cbn [split_go]. rewrite Hhere.
  destruct w as [|b w].
  - rewrite string_app_empty_l. reflexivity.
  - rewrite (IH _ rest) by done. cbn [default from_option id].
    rewrite string_app_assoc. reflexivity.
Qed.

Lemma split_word w : is_word w -> split w = [w].
Proof.
  intros [Hne Hw]. unfold split. rewrite <- (string_app_nil_r w) at 1.
  rewrite split_go_word by (done || by left). reflexivity.
Qed.

(** Joining words with single spaces and splitting again gives the
    words back. *)
Lemma split_join ws : Forall is_word ws -> split (join " " ws) = ws.
Proof.
  induction 1 as [|w ws Hw Hws IH]; [done|].
  destruct ws as [|w2 ws]; [by apply split_word|].
  change (join " " (w :: w2 :: ws)) with (w +:+ String " " (join " " (w2 :: ws))).
  destruct Hw as [Hne Hw]. unfold split in *.
  rewrite split_go_word by (done || right; by eexists).
  cbn [split_go default from_option id]. 
  change (space_width (String " " (join " " (w2 :: ws)))) with 1%nat.
  cbn iota. rewrite IH. reflexivity.
Qed.

Lemma broadcast_loop_spec delivers m us :
  forall sc fc,
    broadcast_loop delivers m us sc fc
    = (map (fun u => (u, m)) (List.filter delivers us),
       sc + Z.of_nat (length (List.filter delivers us)),
       fc + Z.of_nat (length (List.filter (fun u => negb (delivers u)) us))).
Proof.
  induction us as [|u us IH]; intros sc fc.
  - cbn. by rewrite !Z.add_0_r.
  - cbn [broadcast_loop List.filter]. destruct (delivers u); cbn [negb].
    + rewrite IH. cbn [map length]. do 2 f_equal. lia.
    + rewrite IH. cbn [length]. f_equal. lia.
Qed.

Lemma filter_split_length {A} (f : A -> bool) (l : list A) :
  (length (List.filter f l) + length (List.filter (fun x => negb (f x)) l)
   = length l)%nat.
Proof.
  induction l as [|x l IH]; [done|]. cbn. destruct (f x); cbn; lia.
Qed.

Lemma elem_of_select_users (us : gset Z) (u : Z) :
  u ∈ select_users us <-> u ∈ us.
Proof.
  unfold select_users. rewrite merge_sort_Permutation. apply elem_of_elements.
Qed.

Lemma select_users_once (us : gset Z) :
  Sorted Z.le (select_users us) /\ NoDup (select_users us) /\
  length (select_users us) = size us.
Proof.
  unfold select_users. split; [apply Sorted_merge_sort, _|]. split.
  - rewrite merge_sort_Permutation. apply NoDup_elements.
  - rewrite merge_sort_Permutation. reflexivity.
Qed.

Lemma broadcast_sent ADMINS st delivers msg cmd w ws :
  is_admin ADMINS (from_user msg) = true ->
  split (text msg) = cmd :: w :: ws ->
  broadcast ADMINS st delivers msg
  = (map (fun u => (u, join " " (w :: ws)))
         (List.filter delivers (select_users (users st))),
     BroadcastReport
       (0 + Z.of_nat (length (List.filter delivers (select_users (users st)))))
       (0 + Z.of_nat (length (List.filter (fun u => negb (delivers u))
                                (select_users (users st)))))).
Proof.
  intros Hadm Hsplit. unfold broadcast. rewrite Hadm, Hsplit. cbn [negb].
  by rewrite broadcast_loop_spec.
Qed.

(** X8. A broadcast by an admin with some text after the command: the
    text sent is the words after the command joined by single spaces
    (white space of the message, line breaks and the white space
    beyond ASCII included, is not kept: splitting the text sent gives
    those words back); the users of the users table are tried in
    ascending order of their id, every one exactly once, the users
    whose delivery does not raise get the text, and the reported counts
    of sent and failed add up to the number of users. *)
Theorem broadcast_reaches_every_user :
  forall ADMINS st delivers msg cmd w ws,
    is_admin ADMINS (from_user msg) = true ->
    split (text msg) = cmd :: w :: ws ->
    (broadcast ADMINS st delivers msg).1
    = map (fun u => (u, join " " (w :: ws)))
          (List.filter delivers (select_users (users st))) /\
    Sorted Z.le (select_users (users st)) /\
    NoDup (select_users (users st)) /\
    (forall u, u ∈ select_users (users st) <-> u ∈ users st) /\
    Forall is_word (w :: ws) /\
    split (join " " (w :: ws)) = w :: ws /\
    (forall u, (u, join " " (w :: ws)) ∈ (broadcast ADMINS st delivers msg).1
               <-> u ∈ users st /\ delivers u = true) /\
    exists sent_count failed_count,
      (broadcast ADMINS st delivers msg).2
      = BroadcastReport sent_count failed_count /\
      sent_count = Z.of_nat (length (broadcast ADMINS st delivers msg).1) /\
      sent_count + failed_count = Z.of_nat (size (users st)).
Proof.
  intros ADMINS st delivers msg cmd w ws Hadm Hsplit.
  assert (Hwords : Forall is_word (w :: ws)).
  { pose proof (split_words (text msg)) as H. rewrite Hsplit in H.
    by inversion H. }
  destruct (select_users_once (users st)) as (Hsorted & Hnodup & Hlen).
  rewrite (broadcast_sent ADMINS st delivers msg cmd w ws Hadm Hsplit).
  cbn [fst snd].
  split; [done|]. split; [exact Hsorted|]. split; [exact Hnodup|].
  split; [apply elem_of_select_users|]. split; [exact Hwords|].
  split; [by apply split_join|]. split.
  - intros u. rewrite list_elem_of_fmap. split.
    + intros (u' & [= <-] & Hin). apply list_elem_of_In, filter_In in Hin as [Hin Hd].
      split; [|done]. by apply elem_of_select_users, list_elem_of_In.
    + intros [Hin Hd]. exists u. split; [done|].
      apply list_elem_of_In, filter_In. split; [|done].
      by apply list_elem_of_In, elem_of_select_users.
  - eexists _, _. split; [reflexivity|]. split.
    + by rewrite length_map.
    + pose proof (filter_split_length delivers (select_users (users st))). lia.
Qed.

Lemma broadcast_reaches_every_user_witness :
  broadcast [7] demo_users_state (fun u => negb (u =? 8))
    (demo_message demo_broadcast_text)
  = ([(7, "hello big world"); (9, "hello big world")], BroadcastReport 2 1).
Proof.
  destruct (broadcast_reaches_every_user [7] demo_users_state
              (fun u => negb (u =? 8))
              (demo_message demo_broadcast_text) "/broadcast" "hello"
              ["big"; "world"] eq_refl eq_refl)
    as (Hsent & _ & _ & _ & _ & _ & _ & sc & fc & Hreply & Hsc & Hsum).
  rewrite (surjective_pairing (broadcast _ _ _ _)), Hreply.
  rewrite Hsent in *.
  change (select_users (users demo_users_state)) with [7; 8; 9] in *.
  cbn in Hsc. subst sc.
  change (Z.of_nat (size (users demo_users_state))) with 3 in Hsum.
  assert (fc = 1) as -> by lia. reflexivity.
Defined.

(** X9. [handle_start] never changes the registry, the sessions or the
    configuration. A request that resolves records the chat in the
    users table once the file has been sent, so that a later broadcast
    reaches that chat when delivery succeeds; when the send raises, the
    handler ends with that exception and the chat is not recorded. A
    request for an unknown payload, or one without payload, leaves the
    whole state as it was. *)
Theorem redeem_records_requester :
  forall ADMINS delivers st msg,
    media (handle_start ADMINS delivers st msg).1.1 = media st /\
    PENDING_UPLOADS (handle_start ADMINS delivers st msg).1.1 = PENDING_UPLOADS st /\
    BOT_CONFIG (handle_start ADMINS delivers st msg).1.1 = BOT_CONFIG st /\
    ((length (split (text msg)) < 2)%nat ->
     (handle_start ADMINS delivers st msg).1.1 = st) /\
    (forall cmd tok rest,
       split (text msg) = cmd :: tok :: rest ->
       (media st !! tok = None -> (handle_start ADMINS delivers st msg).1.1 = st) /\
       (forall row,
          media st !! tok = Some row ->
          (delivers (chat_id msg) = false ->
           row_media_type row = "video" \/ row_media_type row = "photo" ->
           (handle_start ADMINS delivers st msg).1.1 = st /\
           (handle_start ADMINS delivers st msg).2 = Some ApiException) /\
          (delivers (chat_id msg) = true \/
           (row_media_type row <> "video" /\ row_media_type row <> "photo") ->
           (handle_start ADMINS delivers st msg).2 = None /\
           users (handle_start ADMINS delivers st msg).1.1
           = {[chat_id msg]} ∪ users st /\
           forall later bmsg c w ws,
             is_admin ADMINS (from_user bmsg) = true ->
             split (text bmsg) = c :: w :: ws ->
             later (chat_id msg) = true ->
             (chat_id msg, join " " (w :: ws))
             ∈ (broadcast ADMINS (handle_start ADMINS delivers st msg).1.1
                  later bmsg).1))).
Proof.
  intros ADMINS delivers st msg. unfold handle_start.
  destruct (split (text msg)) as [|cmd [|tok rest]] eqn:Hsplit.
  - destruct (is_admin _ _); cbn; repeat split; try done; intros; discriminate.
  - destruct (is_admin _ _); cbn; repeat split; try done; intros; discriminate.
  - rewrite redeem_lookup.
    assert (Hreach : forall st' later bmsg c w ws,
              users st' = {[chat_id msg]} ∪ users st ->
              is_admin ADMINS (from_user bmsg) = true ->
              split (text bmsg) = c :: w :: ws ->
              later (chat_id msg) = true ->
              (chat_id msg, join " " (w :: ws))
              ∈ (broadcast ADMINS st' later bmsg).1).
    { intros st' later bmsg c w ws Hus Hadm Hb Hd.
      rewrite (broadcast_sent ADMINS st' later bmsg c w ws Hadm Hb). cbn [fst].
      apply list_elem_of_fmap. exists (chat_id msg). split; [done|].
      apply list_elem_of_In, filter_In. split; [|done].
      apply list_elem_of_In, elem_of_select_users. rewrite Hus.
      apply elem_of_union_l, elem_of_singleton. reflexivity. }
    destruct (media st !! tok) as [row|] eqn:Hrow;
      cbn [fmap option_fmap option_map].
    + assert (Hcases :
        (delivers (chat_id msg) = false /\
         (row_media_type row = "video" \/ row_media_type row = "photo") /\
         exists sent,
           (if String.eqb (row_media_type row) "video"
            then (if delivers (chat_id msg)
                  then (set_users ({[chat_id msg]} ∪ users st) st,
                        [SendVideo (chat_id msg) (row_file_id row)
                           (protect_of (row_content_protection row))], None)
                  else (st, [SendVideo (chat_id msg) (row_file_id row)
                               (protect_of (row_content_protection row))],
                        Some ApiException))
            else if String.eqb (row_media_type row) "photo"
            then (if delivers (chat_id msg)
                  then (set_users ({[chat_id msg]} ∪ users st) st,
                        [SendPhoto (chat_id msg) (row_file_id row)
                           (protect_of (row_content_protection row))], None)
                  else (st, [SendPhoto (chat_id msg) (row_file_id row)
                               (protect_of (row_content_protection row))],
                        Some ApiException))
            else (set_users ({[chat_id msg]} ∪ users st) st, [], None))
           = (st, sent, Some ApiException)) \/
        ((delivers (chat_id msg) = true \/
          (row_media_type row <> "video" /\ row_media_type row <> "photo")) /\
         exists sent,
           (if String.eqb (row_media_type row) "video"
            then (if delivers (chat_id msg)
                  then (set_users ({[chat_id msg]} ∪ users st) st,
                        [SendVideo (chat_id msg) (row_file_id row)
                           (protect_of (row_content_protection row))], None)
                  else (st, [SendVideo (chat_id msg) (row_file_id row)
                               (protect_of (row_content_protection row))],
                        Some ApiException))
            else if String.eqb (row_media_type row) "photo"
            then (if delivers (chat_id msg)
                  then (set_users ({[chat_id msg]} ∪ users st) st,
                        [SendPhoto (chat_id msg) (row_file_id row)
                           (protect_of (row_content_protection row))], None)
                  else (st, [SendPhoto (chat_id msg) (row_file_id row)
                               (protect_of (row_content_protection row))],
                        Some ApiException))
            else (set_users ({[chat_id msg]} ∪ users st) st, [], None))
           = (set_users ({[chat_id msg]} ∪ users st) st, sent, None))).
      { destruct (String.eqb_spec (row_media_type row) "video") as [Hv|Hv];
          [|destruct (String.eqb_spec (row_media_type row) "photo") as [Hp|Hp]];
          destruct (delivers (chat_id msg)) eqn:Hd;
          first [ left; split; [reflexivity|]; split; [by auto|];
                  eexists; reflexivity
                | right; split; [by auto|]; eexists; reflexivity ]. }
      destruct Hcases as [(Hd & Hk & sent & ->)|(Hok & sent & ->)]; cbn [fst snd].
      * split; [done|]. split; [done|]. split; [done|]. split; [cbn; lia|].
        intros cmd' tok' rest' [= <- <- <-]. rewrite Hrow.
        split; [discriminate|]. intros row' [= <-]. split; [done|].
        intros [Ht|[Hn1 Hn2]]; [congruence|]. destruct Hk; contradiction.
      * split; [done|]. split; [done|]. split; [done|]. split; [cbn; lia|].
        intros cmd' tok' rest' [= <- <- <-]. rewrite Hrow.
        split; [discriminate|]. intros row' [= <-]. split.
        -- intros Hf Hk. exfalso. destruct Hok as [Ht|[Hn1 Hn2]]; [congruence|].
           destruct Hk; contradiction.
        -- intros _. split; [reflexivity|]. split; [reflexivity|].
           intros later bmsg c w ws. by apply Hreach.
    + cbn [fst snd]. split; [done|]. split; [done|]. split; [done|].
      split; [cbn; lia|].
      intros cmd' tok' rest' [= <- <- <-]. rewrite Hrow.
      split; [done|]. intros row [=].
Qed.

Lemma redeem_records_requester_witness :
  users (handle_start [1] (fun _ => true)
           (demo_state (<[ "123e4567e89" := MediaRow "FILE" "photo" None ]> ∅))
           (demo_message "/start 123e4567e89")).1.1 = {[7]} ∪ ∅ /\
  handle_start [1] (fun _ => false)
    (demo_state (<[ "123e4567e89" := MediaRow "FILE" "photo" None ]> ∅))
    (demo_message "/start 123e4567e89")
  = (demo_state (<[ "123e4567e89" := MediaRow "FILE" "photo" None ]> ∅),
     [SendPhoto 7 "FILE" true], Some ApiException) /\
  (handle_start [1] (fun _ => true) (demo_state ∅)
     (demo_message "/start 123e4567e89")).1.1
  = demo_state ∅ /\
  (handle_start [1] (fun _ => true) (demo_state ∅) (demo_message "/start")).1.1
  = demo_state ∅.
Proof.
  destruct (redeem_records_requester [1] (fun _ => true)
              (demo_state (<[ "123e4567e89" := MediaRow "FILE" "photo" None ]> ∅))
              (demo_message "/start 123e4567e89")) as (_ & _ & _ & _ & Hhit).
  destruct (redeem_records_requester [1] (fun _ => false)
              (demo_state (<[ "123e4567e89" := MediaRow "FILE" "photo" None ]> ∅))
              (demo_message "/start 123e4567e89")) as (_ & _ & _ & _ & Hfail).
  destruct (redeem_records_requester [1] (fun _ => true) (demo_state ∅)
              (demo_message "/start 123e4567e89")) as (_ & _ & _ & _ & Hmiss).
  destruct (redeem_records_requester [1] (fun _ => true) (demo_state ∅)
              (demo_message "/start")) as (_ & _ & _ & Hplain & _).
  split; [|split; [|split]].
  - destruct (Hhit "/start" "123e4567e89" [] eq_refl) as [_ Hrow].
    destruct (Hrow (MediaRow "FILE" "photo" None) eq_refl) as [_ Hok].
    apply Hok. by left.
  - destruct (Hfail "/start" "123e4567e89" [] eq_refl) as [_ Hrow].
    destruct (Hrow (MediaRow "FILE" "photo" None) eq_refl) as [Hraise _].
    destruct (Hraise eq_refl) as [Hst Hx]; [by right|].
    rewrite (surjective_pairing (handle_start _ _ _ _)).
    rewrite (surjective_pairing (handle_start _ _ _ _).1).
    rewrite Hst, Hx. reflexivity.
  - apply (Hmiss "/start" "123e4567e89" [] eq_refl). reflexivity.
  - apply Hplain. vm_compute. lia.
Defined.






(** ** The parallel download, whatever the server sends *)

(** X11. With a known size, at least one worker and any order of the
    workers: the call returns [True] exactly when every request ran to
    the end of its body, and the destination then holds the bodies in
    part order, whatever they are (neither status nor length of a
    response is checked: a server that ignores the Range header makes
    the call return [True] with a file of [n] copies). In every case
    no part file of the call is left and no file other than the
    destination and the part files is touched. *)
Theorem download_keeps_what_it_receives :
  forall (srv : remote) (destination : string) (file_size n : Z)
         (schedule : list nat) (fs : filesystem),
    head srv = Ok (Some file_size) ->
    file_size <> 0 ->
    1 <= n ->
    schedule ≡ₚ range n ->
    (returned (download_file_parallel srv destination n schedule fs) = true
     <-> forall i, (i < Z.to_nat n)%nat ->
                   complete (response_of srv file_size n i) = true) /\
    (returned (download_file_parallel srv destination n schedule fs) = true ->
     disk (download_file_parallel srv destination n schedule fs) !! destination
     = Some (concat (map (body_of srv file_size n) (range n)))) /\
    (forall i, (i < Z.to_nat n)%nat ->
       disk (download_file_parallel srv destination n schedule fs)
         !! part_path destination i = None) /\
    (forall p, p <> destination ->
       p ∉ map (part_path destination) (range n) ->
       disk (download_file_parallel srv destination n schedule fs) !! p = fs !! p).
Proof.
  intros srv destination file_size n schedule fs Hhead Hsize Hn Hsched.
  rewrite (download_file_parallel_known _ _ _ _ _ file_size) by (done || lia).
  assert (Hvalid : forall i, i ∈ schedule -> (i < Z.to_nat n)%nat)
    by (intros i; by apply range_elem_lt).
  pose proof (run_workers_spec srv destination file_size n schedule fs [] Hvalid)
    as Hrun.
  destruct (run_workers srv destination (submitted file_size n) schedule (fs, []))
    as [[fs1 started] results].
  cbn [fst snd] in *. destruct Hrun as (Hstarted & Hres & Hother & Hbody).
  cbn [app] in Hstarted.
  assert (Hparts : forall p, p ∈ started <->
                             p ∈ map (part_path destination) (range n))
    by (intros p; by rewrite Hstarted, Hsched).
  assert (Hall : forallb (fun r : bool => r) results = true <->
                 forall i, (i < Z.to_nat n)%nat ->
                           complete (response_of srv file_size n i) = true).
  { rewrite forallb_forall, Hres. split.
    - intros H i Hi. apply H, in_map_iff. exists i. split; [done|].
      apply list_elem_of_In. by apply (range_elem_lt n).
    - intros H r Hr. apply in_map_iff in Hr as (i & <- & Hi).
      apply H. apply list_elem_of_In in Hi. by apply (range_elem_lt n schedule). }
  destruct (forallb (fun r : bool => r) results) eqn:Hok.
  - assert (Hcomplete : forall i, (i < Z.to_nat n)%nat ->
                          response_of srv file_size n i
                          = Body (body_of srv file_size n i)).
    { intros i Hi. pose proof (proj1 Hall eq_refl i Hi) as Hc.
      unfold body_of. by destruct (response_of srv file_size n i). }
    destruct (merge_parts_spec destination (body_of srv file_size n)
                (seq 0 (Z.to_nat n)) (<[destination := []]> fs1) [])
      as (fs2 & Hm & Hd & Hgone & Hrest).
    { apply NoDup_seq. }
    { apply lookup_insert_eq. }
    { intros i Hi. apply elem_of_seq in Hi.
      rewrite lookup_insert_ne
        by (intros E; symmetry in E; by apply part_path_not_destination in E).
      apply Hbody; [|apply Hcomplete; lia].
      apply (range_elem_lt n schedule i Hsched). lia. }
    rewrite Hm. cbn [disk returned].
    split; [by rewrite <- Hall|]. split; [intros _; exact Hd|]. split.
    + intros i Hi. apply Hgone, elem_of_seq. lia.
    + intros p Hpd Hp. rewrite (Hrest p Hpd Hp).
      rewrite lookup_insert_ne by done. apply Hother.
      rewrite <- Hstarted. by rewrite Hparts.
  - cbn [disk returned].
    split; [by rewrite <- Hall|]. split; [discriminate|]. split.
    + intros i Hi. rewrite lookup_remove_temp_files.
      destruct (decide (part_path destination i ∈ started)) as [_|Hnin]; [done|].
      exfalso. apply Hnin, Hparts, list_elem_of_fmap_2.
      unfold range. apply elem_of_seq. lia.
    + intros p _ Hp. rewrite lookup_remove_temp_files.
      destruct (decide (p ∈ started)) as [Hin|Hnin]; [by apply Hparts in Hin|].
      apply Hother. by rewrite <- Hstarted.
Qed.

Lemma download_keeps_what_it_receives_witness :
  returned (download_file_parallel demo_rangeless_server "temp.mp4" 2
              [1; 0]%nat ∅) = true /\
  disk (download_file_parallel demo_rangeless_server "temp.mp4" 2 [1; 0]%nat ∅)
    !! "temp.mp4" = Some (demo_content ++ demo_content).
Proof.
  destruct (download_keeps_what_it_receives demo_rangeless_server "temp.mp4" 10 2
              [1; 0]%nat ∅) as (Hret & Hdest & _).
  - reflexivity.
  - discriminate.
  - discriminate.
  - apply perm_swap.
  - assert (Hr : returned (download_file_parallel demo_rangeless_server
                             "temp.mp4" 2 [1; 0]%nat ∅) = true).
    { apply Hret. intros i _. reflexivity. }
    split; [exact Hr|]. rewrite (Hdest Hr). reflexivity.
Defined.

(** X12. The paths of the download without workers. When the size is
    unknown (no content-length, or 0) the call streams the plain GET
    into the destination, whatever [num_connections] is: a complete
    body gives [True]; a stream that breaks gives [False] and leaves
    the bytes written so far in the destination; a refused request
    gives [False] and no file. With a known size and no positive
    number of connections, or when the HEAD request fails, the call
    returns [False] and touches no file. *)
Theorem download_without_workers :
  forall (srv : remote) (destination : string) (n : Z) (schedule : list nat)
         (fs : filesystem),
    (forall h, head srv = Ok h -> default 0 h = 0 ->
       download_file_parallel srv destination n schedule fs
       = match get srv with
         | Body data =>
             {| disk := <[destination := data]> fs; returned := true;
                temp_files := [] |}
         | Broken written =>
             {| disk := <[destination := written]> fs; returned := false;
                temp_files := [] |}
         | Refused => {| disk := fs; returned := false; temp_files := [] |}
         end) /\
    (forall file_size, head srv = Ok (Some file_size) -> file_size <> 0 ->
       n <= 0 ->
       download_file_parallel srv destination n schedule fs
       = {| disk := fs; returned := false; temp_files := [] |}) /\
    (forall x, head srv = Raise x ->
       download_file_parallel srv destination n schedule fs
       = {| disk := fs; returned := false; temp_files := [] |}).
Proof.
  intros srv destination n schedule fs. unfold download_file_parallel.
  split; [|split].
  - intros h -> Hh. rewrite Hh. reflexivity.
  - intros file_size -> Hs Hn. cbn [from_option id].
    destruct (Z.eqb_spec file_size 0) as [?|_]; [done|].
    destruct (Z.leb_spec n 0) as [_|?]; [done|lia].
  - intros x ->. reflexivity.
Qed.

Lemma download_without_workers_witness :
  download_file_parallel
    {| head := Ok None; get := Broken [Byte.x00; Byte.x01];
       get_range := fun _ _ _ => Refused |} "temp.mp4" 8 [] ∅
  = {| disk := <["temp.mp4" := [Byte.x00; Byte.x01]]> ∅; returned := false;
       temp_files := [] |} /\
  download_file_parallel demo_server "temp.mp4" 0 [] ∅
  = {| disk := ∅; returned := false; temp_files := [] |}.
Proof.
  split.
  - exact (proj1 (download_without_workers
             {| head := Ok None; get := Broken [Byte.x00; Byte.x01];
                get_range := fun _ _ _ => Refused |} "temp.mp4" 8 [] ∅)
             None eq_refl eq_refl).
  - apply (proj1 (proj2 (download_without_workers demo_server "temp.mp4" 0 [] ∅))
             10); [reflexivity|discriminate|reflexivity].
Defined.

(** ** The watermark *)

(** X13. The anchor of the watermark text, for each of the nine
    position names and for any other name (which is taken as
    "bottom-right"): when the text with a margin of 20 on both sides
    fits the frame, the text box lies inside the frame and keeps the
    margin from every edge. *)
Theorem text_position_inside_frame :
  forall (width height text_width text_height : Z) (position : string),
    0 <= text_width -> 0 <= text_height ->
    text_width + 2 * margin <= width ->
    text_height + 2 * margin <= height ->
    margin <= (text_position width height text_width text_height position).1 /\
    (text_position width height text_width text_height position).1 + text_width
    <= width - margin /\
    margin + text_height
    <= (text_position width height text_width text_height position).2 /\
    (text_position width height text_width text_height position).2
    <= height - margin.
Proof.
  intros width height tw th position Htw Hth Hw Hh.
  unfold text_position, margin in *.
  repeat match goal with
  | |- context [if ?b then _ else _] => destruct b
  end; cbn [fst snd];
  pose proof (Z.div_mod (width - tw) 2);
  pose proof (Z.mod_pos_bound (width - tw) 2);
  pose proof (Z.div_mod (height + th) 2);
  pose proof (Z.mod_pos_bound (height + th) 2); lia.
Qed.

Lemma text_position_inside_frame_witness :
  text_position 640 480 100 30 "top-center" = (270, 50) /\
  text_position 640 480 100 30 "middle" = (520, 460) /\
  20 <= (text_position 640 480 100 30 "center").1 /\
  (text_position 640 480 100 30 "center").2 <= 480 - 20.
Proof.
  destruct (text_position_inside_frame 640 480 100 30 "center")
    as (H1 & _ & _ & H4); [lia|lia|unfold margin; lia|unfold margin; lia|].
  split; [reflexivity|]. split; [reflexivity|]. split; [exact H1|exact H4].
Defined.

(** X14. For an opacity between 0 and 1 the blend never overshoots,
    whatever the roundings of the single-precision evaluation: every
    channel value of the output lies between the value of the original
    frame and the value of the overlay. Where nothing was drawn
    (overlay and original agree) the frame is unchanged. *)
Theorem watermark_stays_between :
  forall (cv : cv2) (width height : Z) (watermark_text position : string)
         (opacity : Q) (frame : image) (i : nat) (o f : Z),
    (0 <= opacity)%Q -> (opacity <= 1)%Q ->
    is_uint8 o -> is_uint8 f ->
    draw_overlay cv width height watermark_text position frame !! i = Some o ->
    frame !! i = Some f ->
    exists out,
      watermark_frame cv width height watermark_text position opacity frame !! i
      = Some out /\
      Z.min o f <= out <= Z.max o f /\
      (o = f -> out = f).
Proof.
  intros cv width height watermark_text position opacity frame i o f
         Ha0 Ha1 Huo Huf Ho Hf.
  pose proof (blend_near (fused_multiply_add cv) opacity o f Ha0 Ha1 Huo Huf)
    as Hnear. cbv zeta in Hnear.
  destruct (mean_between opacity o f Ha0 Ha1) as [Hlo Hhi].
  destruct (rint_between _ _ _ _ Hnear Hlo Hhi) as [Hr _].
  eexists. split; [by apply watermark_frame_lookup|].
  unfold cvRound. rewrite saturate_cast_uint8 by (unfold is_uint8 in *; lia).
  split; [exact Hr|].
  intros ->. rewrite Z.min_id, Z.max_id in Hr. lia.
Qed.

Lemma watermark_stays_between_witness :
  exists out,
    watermark_frame demo_cv2_fma 640 480 "@channel" "center" (1 # 4) [10; 20; 30]
      !! 0%nat = Some out /\
    Z.min 255 10 <= out <= Z.max 255 10.
Proof.
  assert (Hu : forall v, 0 <= v <= 255 -> is_uint8 v) by (intros v H; exact H).
  destruct (watermark_stays_between demo_cv2_fma 640 480 "@channel" "center"
              (1 # 4) [10; 20; 30] 0%nat 255 10
              ltac:(discriminate) ltac:(discriminate)
              (Hu 255 ltac:(lia)) (Hu 10 ltac:(lia)) eq_refl eq_refl)
    as (out & H1 & H2 & _).
  exists out. split; [exact H1|exact H2].
Defined.

(** ** The collage grid *)

Lemma collage_outcome_shape collage_frames video_duration rng extracted
    W H pasted c :
  generate_video_collage collage_frames video_duration rng extracted
  = Collage W H pasted c ->
  W = 640 * (grid c).1 /\ H = 480 * (grid c).2 /\
  exists frames : list Q,
    length frames = Z.to_nat c /\ (c <= 0 -> frames = []) /\
    pasted = imap (fun idx frame =>
                     (frame, (Z.of_nat idx mod (grid c).1 * 640,
                              Z.of_nat idx / (grid c).1 * 480)))
                  frames.
Proof.
  rewrite generate_video_collage_unfold. cbv zeta.
  set (tn := collage_timestamps (default (60 : Q) video_duration) collage_frames rng).
  pose proof (collage_timestamps_length (default (60 : Q) video_duration)
                collage_frames rng) as Hlen. fold tn in Hlen.
  pose proof (extract_frames_spec tn.1 extracted) as (Hle & _ & _).
  set (frames := extract_frames tn.1 extracted) in *.
  clearbody frames. clearbody tn. destruct tn as [times n']. cbn [fst snd] in *.
  rewrite Z.geb_leb.
  destruct (Z.leb_spec n' (Z.of_nat (length frames))) as [Hge|]; [|discriminate].
  intros [= <- <- <- <-]. split; [done|]. split; [done|].
  exists (slice_to n' frames). unfold slice_to.
  destruct (Z.ltb_spec n' 0) as [Hneg|Hpos].
  - assert (Hnil : frames = []) by (apply length_zero_iff_nil; lia).
    rewrite Hnil, take_nil. cbn [length]. split; [lia|]. split; done.
  - split; [rewrite length_take; lia|]. split; [|done].
    intros H0. assert (n' = 0) as -> by lia. reflexivity.
Qed.

(** X15. The cells of a composed collage. For a frame count of the
    table (4, 6, 9, 12), and for a count below 4, every frame is pasted
    inside the canvas, no two frames at the same place; for the table
    counts the frames fill the grid. For a count above 4 that is not in
    the table (a 9-frame collage of a 7-second video is lowered to 7
    frames) the canvas is the 2x2 one of 1280x960 and the fifth frame
    is pasted at (0, 960), below the canvas. *)
Theorem collage_cells :
  forall collage_frames video_duration rng extracted W H pasted c,
    generate_video_collage collage_frames video_duration rng extracted
    = Collage W H pasted c ->
    length pasted = Z.to_nat c /\
    (c <= 4 \/ c = 6 \/ c = 9 \/ c = 12 ->
     Forall (fun p : Q * (Z * Z) =>
               0 <= p.2.1 /\ p.2.1 + 640 <= W /\ 0 <= p.2.2 /\ p.2.2 + 480 <= H)
            pasted /\
     NoDup (map snd pasted)) /\
    (c = 4 \/ c = 6 \/ c = 9 \/ c = 12 ->
     Z.of_nat (length pasted) * (640 * 480) = W * H) /\
    (4 < c -> c <> 6 -> c <> 9 -> c <> 12 ->
     W = 1280 /\ H = 960 /\ exists t, pasted !! 4%nat = Some (t, (0, 960))).
Proof.
  intros collage_frames video_duration rng extracted W H pasted c Hout.
  destruct (collage_outcome_shape _ _ _ _ _ _ _ _ Hout)
    as (-> & -> & frames & Hlen & Hnil & ->).
  assert (Hplen : length (imap (fun (idx : nat) (frame : Q) =>
                    (frame, (Z.of_nat idx mod (grid c).1 * 640,
                             Z.of_nat idx / (grid c).1 * 480))) frames)
                  = Z.to_nat c) by (by rewrite length_imap).
  split; [exact Hplen|]. split; [|split].
  - intros Hc.
    assert (Hgrid : 0 < (grid c).1 /\ 0 < (grid c).2 /\
                    (0 < c -> c <= (grid c).1 * (grid c).2)).
    { unfold grid.
      destruct (Z.eqb_spec c 4); [cbn; lia|]. destruct (Z.eqb_spec c 6); [cbn; lia|].
      destruct (Z.eqb_spec c 9); [cbn; lia|]. destruct (Z.eqb_spec c 12); cbn; lia. }
    destruct Hgrid as (Hcols & Hrows & Hfit).
    split.
    + apply Forall_forall. intros [t [x y]] Hin.
      apply list_elem_of_lookup in Hin as [idx Hidx].
      rewrite list_lookup_imap in Hidx.
      destruct (frames !! idx) as [t'|] eqn:Hf; [|discriminate].
      apply lookup_lt_Some in Hf. cbn in Hidx. injection Hidx as <- <- <-.
      cbn [fst snd].
      assert (Hi : 0 <= Z.of_nat idx < (grid c).1 * (grid c).2) by lia.
      pose proof (Z.mod_pos_bound (Z.of_nat idx) (grid c).1 Hcols).
      pose proof (Z.div_pos (Z.of_nat idx) (grid c).1 ltac:(lia) Hcols).
      assert (Z.of_nat idx / (grid c).1 < (grid c).2)
        by (apply Z.div_lt_upper_bound; lia).
      nia.
    + apply NoDup_alt. intros i j pos Hi Hj.
      rewrite list_lookup_fmap, list_lookup_imap in Hi, Hj.
      destruct (frames !! i) as [ti|]; [|discriminate].
      destruct (frames !! j) as [tj|]; [|discriminate].
      cbn in Hi, Hj. rewrite <- Hj in Hi. injection Hi as Hx Hy.
      pose proof (Z.div_mod (Z.of_nat i) (grid c).1 ltac:(lia)).
      pose proof (Z.div_mod (Z.of_nat j) (grid c).1 ltac:(lia)).
      nia.
  - intros Hc. rewrite Hplen.
    destruct Hc as [-> |[-> |[-> | ->]]]; reflexivity.
  - intros H4 H6 H9 H12.
    assert (Hg : grid c = (2, 2)).
    { unfold grid.
      destruct (Z.eqb_spec c 4); [lia|]. destruct (Z.eqb_spec c 6); [lia|].
      destruct (Z.eqb_spec c 9); [lia|]. by destruct (Z.eqb_spec c 12). }
    rewrite Hg. cbn [fst snd]. split; [done|]. split; [done|].
    rewrite list_lookup_imap.
    destruct (frames !! 4%nat) as [t|] eqn:Hf.
    + exists t. reflexivity.
    + apply lookup_ge_None in Hf. lia.
Qed.

Lemma collage_cells_witness :
  exists W H pasted,
    generate_video_collage 9 (Some (15 # 2)%Q) demo_rng (fun _ => true)
    = Collage W H pasted 7 /\
    W = 1280 /\ H = 960 /\
    exists t, pasted !! 4%nat = Some (t, (0, 960)).
Proof.
  eexists _, _, _. split; [reflexivity|].
  eapply (proj2 (proj2 (proj2
            (collage_cells 9 (Some (15 # 2)%Q) demo_rng (fun _ => true)
               _ _ _ 7 eq_refl)))); lia.
Defined.

(** ** Seeking inside the video *)

Lemma centre_within (d : Q) (a : Z) (i : nat) :
  (0 <= d)%Q -> Z.of_nat i < a ->
  (0 <= d * (inject_Z (Z.of_nat i) + (1 # 2)) / inject_Z a)%Q /\
  (d * (inject_Z (Z.of_nat i) + (1 # 2)) / inject_Z a <= d)%Q.
Proof.
  intros Hd Hi.
  assert (Ha : (0 < inject_Z a)%Q).
  { change 0%Q with (inject_Z 0). rewrite <- Zlt_Qlt. lia. }
  assert (Hi0 : (0 <= inject_Z (Z.of_nat i))%Q).
  { change 0%Q with (inject_Z 0). rewrite <- Zle_Qle. lia. }
  assert (Hi1 : (inject_Z (Z.of_nat i) + 1 <= inject_Z a)%Q).
  { change 1%Q with (inject_Z 1). rewrite <- inject_Z_plus, <- Zle_Qle. lia. }
  split.
  - apply Qle_shift_div_l; [exact Ha|]. nra.
  - apply Qle_shift_div_r; [exact Ha|]. nra.
Qed.

(** X16. Where the stages seek. For a video of at least one second
    every collage timestamp lies within the video, in each branch; for
    a video shorter than half a second the single timestamp 0.5 lies
    beyond its end. Every preview clip, with its two seconds, lies
    within the video. *)
Theorem seeks_within_video :
  forall (video_duration : Q) (collage_frames preview_length : Z)
         (rng : nat -> Q),
    (forall i, (0 <= rng i)%Q /\ (rng i < 1)%Q) ->
    ((1 <= video_duration)%Q ->
     Forall (fun t => (0 <= t)%Q /\ (t <= video_duration)%Q)
            (collage_timestamps video_duration collage_frames rng).1) /\
    ((video_duration < 1 # 2)%Q ->
     Forall (fun t => (video_duration < t)%Q)
            (collage_timestamps video_duration collage_frames rng).1 /\
     (collage_timestamps video_duration collage_frames rng).1 <> []) /\
    ((inject_Z preview_length < video_duration)%Q ->
     Forall (fun t => (0 <= t)%Q /\ (t + 2 <= video_duration)%Q)
            (random_starts video_duration preview_length rng)).
Proof.
  intros D N L rng Hrng. split; [|split].
  - intros H1. unfold collage_timestamps.
    destruct (Qlt_bool D 1) eqn:E1.
    { apply Qlt_bool_iff in E1. lra. }
    destruct (Qlt_bool D (inject_Z N)) eqn:E2; cbn [fst].
    + apply Forall_map, Forall_forall. intros i Hi.
      unfold range in Hi. apply elem_of_seq in Hi.
      apply centre_within; [lra|]. lia.
    + destruct (Qlt_bool 10 D) eqn:E3; cbn [fst].
      * apply Qlt_bool_iff in E3.
        apply sorted_Forall, Forall_map, Forall_forall. intros i _.
        destruct (Hrng i) as [Hr0 Hr1].
        destruct (scaled_draw_bounds 5 (D - 10) (rng i)) as [Ha Hb];
          [lra|done|done|]. simpl. split; lra.
      * apply sorted_Forall, Forall_map, Forall_forall. intros i _.
        destruct (Hrng i) as [Hr0 Hr1].
        destruct (scaled_draw_bounds (D * (1 # 10)) (D - 2 * (D * (1 # 10)))
                    (rng i)) as [Ha Hb]; [lra|done|done|]. simpl. split; lra.
  - intros Hshort. unfold collage_timestamps.
    assert (E1 : Qlt_bool D 1 = true) by (apply Qlt_bool_iff; lra).
    rewrite E1. cbn [fst]. split; [|done].
    constructor; [exact Hshort|constructor].
  - intros Hlong.
    pose proof (random_starts_bounds D L rng Hrng Hlong) as H.
    eapply Forall_impl; [exact H|]. intros t [H0 H2]. simpl in *. split; lra.
Qed.

Lemma seeks_within_video_witness :
  Forall (fun t => (0 <= t)%Q /\ (t <= 5 # 2)%Q)
         (collage_timestamps (5 # 2) 9 demo_rng).1 /\
  Forall (fun t => ((4 # 10) < t)%Q) (collage_timestamps (4 # 10) 9 demo_rng).1 /\
  Forall (fun t => (0 <= t)%Q /\ (t + 2 <= 20)%Q) (random_starts 20 6 demo_rng).
Proof.
  assert (Hrng : forall i, (0 <= demo_rng i)%Q /\ (demo_rng i < 1)%Q)
    by (intros i; unfold demo_rng, Qle, Qlt; simpl; lia).
  destruct (seeks_within_video (5 # 2) 9 6 demo_rng Hrng) as (H1 & _ & _).
  destruct (seeks_within_video (4 # 10) 9 6 demo_rng Hrng) as (_ & H2 & _).
  destruct (seeks_within_video 20 9 6 demo_rng Hrng) as (_ & _ & H3).
  split; [apply H1; discriminate|].
  split; [apply H2; reflexivity|apply H3; reflexivity].
Defined.

(** ** The length of the preview *)

Lemma clip_seconds_app (l1 l2 : list tool_cmd) :
  clip_seconds (l1 ++ l2) = clip_seconds l1 + clip_seconds l2.
Proof.
  induction l1 as [|c l1 IH]; [reflexivity|].
  destruct c; cbn [app clip_seconds]; rewrite IH; lia.
Qed.

Lemma clip_seconds_imap (src : string) (t : Z) (g : nat -> string) (l : list Q) :
  clip_seconds (imap (fun i ss => FfmpegClip ss src t (g i)) l) =
  t * Z.of_nat (length l).
Proof.
  revert g. induction l as [|x l IH]; intros g; [cbn; lia|].
  cbn [imap clip_seconds length].
  change (imap ((fun i ss => FfmpegClip ss src t (g i)) ∘ S) l)
    with (imap (fun i ss => FfmpegClip ss src t ((g ∘ S) i)) l).
  rewrite IH. lia.
Qed.

Lemma random_starts_length (D : Q) (L : Z) (rng : nat -> Q) :
  length (random_starts D L rng) = Z.to_nat (num_clips L).
Proof.
  unfold random_starts. rewrite sorted_length, length_map.
  unfold range. apply length_seq.
Qed.

(** X17. How long a preview is. For a video longer than the requested
    [preview_length >= 0] the clips that are cut add up to
    [2 * (preview_length // 2)] seconds: the requested length when it
    is even, one second less when it is odd (2 seconds for the default
    of 3). For a length below 2 no clip is cut and the concatenation is
    run on an empty list. *)
Theorem preview_total_length :
  forall (source_video : string) (preview_length : Z) (video_duration : Q)
         (rng : nat -> Q),
    0 <= preview_length ->
    (inject_Z preview_length < video_duration)%Q ->
    let cmds := generate_video_preview source_video preview_length
                  video_duration rng in
    clip_seconds cmds = 2 * (preview_length / 2) /\
    (Z.even preview_length = true -> clip_seconds cmds = preview_length) /\
    (Z.even preview_length = false -> clip_seconds cmds = preview_length - 1) /\
    (preview_length < 2 ->
     cmds = [FfmpegConcat [] "preview.mp4"; SendPreview "preview.mp4"]).
Proof.
  intros src L D rng HL HD cmds.
  assert (Hcmds : cmds =
    imap (fun i start_time => FfmpegClip start_time src clip_duration (temp_clip i))
         (random_starts D L rng)
    ++ [FfmpegConcat (imap (fun i _ => temp_clip i) (random_starts D L rng))
          "preview.mp4"; SendPreview "preview.mp4"]).
  { unfold cmds, generate_video_preview.
    rewrite (proj2 (Qle_bool_false _ _) HD). reflexivity. }
  assert (Hn : num_clips L = L / 2).
  { unfold num_clips, clip_duration. apply Z.quot_div_nonneg; lia. }
  assert (Hsum : clip_seconds cmds = 2 * (L / 2)).
  { rewrite Hcmds, clip_seconds_app, clip_seconds_imap, random_starts_length, Hn.
    cbn [clip_seconds]. unfold clip_duration.
    rewrite Z2Nat.id by (apply Z.div_pos; lia). lia. }
  split; [exact Hsum|]. split; [|split].
  - intros He. rewrite Hsum. apply Z.even_spec in He.
    destruct He as [k ->]. rewrite (Z.mul_comm 2 k), Z.div_mul by lia. lia.
  - intros Ho. rewrite Hsum.
    assert (Hodd : Z.odd L = true) by (rewrite <- Z.negb_even, Ho; reflexivity).
    apply Z.odd_spec in Hodd. destruct Hodd as [k ->].
    replace (2 * k + 1) with (1 + k * 2) by lia.
    rewrite Z.div_add by lia. change (1 / 2) with 0. lia.
  - intros Hsmall.
    assert (Hlen : length (random_starts D L rng) = 0%nat).
    { rewrite random_starts_length, Hn.
      assert (L / 2 = 0) as -> by (apply Z.div_small; lia). reflexivity. }
    destruct (random_starts D L rng) as [|x l]; [|discriminate].
    rewrite Hcmds. reflexivity.
Qed.

Lemma preview_total_length_witness :
  clip_seconds (generate_video_preview "video.mp4" 3 20 demo_rng) = 3 - 1.
Proof.
  apply (preview_total_length "video.mp4" 3 20 demo_rng); [lia|reflexivity|reflexivity].
Defined.

(** ** The stored configuration *)

Lemma load_config_lookup {V} (J : json V) (config : gmap string (option string))
    (BOT_CONFIG : gmap string V) (k : string) :
  load_config J config BOT_CONFIG !! k =
  match BOT_CONFIG !! k with
  | None => None
  | Some b =>
      match config !! k with
      | None => Some b
      | Some value => Some (decoded J value)
      end
  end.
Proof.
  revert k. unfold load_config.
  apply (map_fold_weak_ind
    (fun r m => forall k, r !! k =
       match BOT_CONFIG !! k with
       | None => None
       | Some b => match m !! k with
                   | None => Some b
                   | Some value => Some (decoded J value)
                   end
       end)).
  - intros k. rewrite lookup_empty. destruct (BOT_CONFIG !! k); reflexivity.
  - intros i x m r Hi IH k. unfold load_row.
    destruct (decide (k = i)) as [->|Hne].
    + rewrite lookup_insert_eq. specialize (IH i). rewrite Hi in IH.
      destruct (BOT_CONFIG !! i) as [b|] eqn:Eb.
      * rewrite IH. unfold decoded.
        destruct (loads J x); rewrite lookup_insert_eq; reflexivity.
      * rewrite IH. exact IH.
    + rewrite (lookup_insert_ne m) by congruence.
      rewrite <- IH.
      destruct (r !! i); [|reflexivity].
      destruct (loads J x); rewrite lookup_insert_ne by congruence; reflexivity.
Qed.

(** X18. A saved value and the next start. [load_config] leaves the
    keys of [BOT_CONFIG] as the defaults have them, whatever the table
    holds, and a row that does not decode gives the column value as it
    is. After [save_config(key, value)] the entry of [BOT_CONFIG] is
    the value; a [load_config] over the defaults then gives the value
    back for a key of the defaults, when [json.loads] undoes
    [json.dumps] on it, drops a key that the defaults do not have, and
    reads every other key as before the save. *)
Theorem saved_config_survives_restart :
  forall (V : Type) (J : json V) (config : gmap string (option string))
         (BOT_CONFIG defaults : gmap string V) (key : string) (value : V)
         (st' : gmap string (option string) * gmap string V),
    save_config J key value (config, BOT_CONFIG) = Ok st' ->
    (forall text, dumps J value = Ok text -> loads J (Some text) = Ok value) ->
    st'.2 !! key = Some value /\
    (is_Some (defaults !! key) ->
     load_config J st'.1 defaults !! key = Some value) /\
    (defaults !! key = None -> load_config J st'.1 defaults !! key = None) /\
    (forall k, k <> key ->
       load_config J st'.1 defaults !! k = load_config J config defaults !! k) /\
    (forall k, is_Some (load_config J config defaults !! k) <->
               is_Some (defaults !! k)) /\
    (forall k column e, is_Some (defaults !! k) -> config !! k = Some column ->
       loads J column = Raise e ->
       load_config J config defaults !! k = Some (py_value J column)).
Proof.
  intros V J config B defaults key value st' Hsave Hround.
  unfold save_config in Hsave. cbn [fst snd] in Hsave.
  destruct (dumps J value) as [text|e] eqn:Hd; [|discriminate].
  injection Hsave as <-. cbn [fst snd].
  specialize (Hround text eq_refl).
  split; [apply lookup_insert_eq|]. split; [|split; [|split; [|split]]].
  - intros [b Hb]. rewrite load_config_lookup, Hb, lookup_insert_eq.
    unfold decoded. rewrite Hround. reflexivity.
  - intros Hnone. rewrite load_config_lookup, Hnone. reflexivity.
  - intros k Hk. rewrite !load_config_lookup.
    rewrite lookup_insert_ne by congruence. reflexivity.
  - intros k. rewrite load_config_lookup.
    destruct (defaults !! k) as [b|].
    + destruct (config !! k); split; intros _; eexists; reflexivity.
    + split; intros H; exact H.
  - intros k column e [b Hb] Hrow Hraise.
    rewrite load_config_lookup, Hb, Hrow. unfold decoded.
    rewrite Hraise. reflexivity.
Qed.

Lemma saved_config_survives_restart_witness :
  load_config demo_json
    (<["content_protection" := Some "false"]> demo_config_table) demo_defaults
    !! "content_protection" = Some (CBool false) /\
  load_config demo_json demo_config_table demo_defaults !! "watermark_text" =
    Some (CStr "@channel") /\
  load_config demo_json demo_config_table demo_defaults !! "language" = None.
Proof.
  assert (Hsave : save_config demo_json "content_protection" (CBool false)
                    (demo_config_table, demo_defaults) =
                  Ok (<["content_protection" := Some "false"]> demo_config_table,
                      <["content_protection" := CBool false]> demo_defaults))
    by reflexivity.
  assert (Hround : forall text, dumps demo_json (CBool false) = Ok text ->
                     loads demo_json (Some text) = Ok (CBool false)).
  { intros text Ht. injection Ht as <-. reflexivity. }
  destruct (saved_config_survives_restart _ demo_json demo_config_table
              demo_defaults demo_defaults "content_protection" (CBool false) _
              Hsave Hround) as (_ & Hback & _ & _ & Hkeys & Hraw).
  split; [apply Hback; eexists; reflexivity|]. split.
  - apply (Hraw "watermark_text" (Some "@channel") ValueError);
      [eexists; reflexivity|reflexivity|reflexivity].
  - destruct (load_config demo_json demo_config_table demo_defaults !! "language")
      as [v|] eqn:E; [|reflexivity].
    assert (Hs : is_Some (demo_defaults !! "language"))
      by (apply Hkeys; rewrite E; eexists; reflexivity).
    destruct Hs as [w Hw]. discriminate Hw.
Defined.

(** ** The progress lines *)

(** X19. The progress lines of a download are throttled. For a total
    other than 0 the callback never raises, and whatever the calls and
    their times are, each printed line comes two seconds or more after
    the line before it or reports the end of the download, and every
    call that reports the end prints its line. With a total of 0 (a
    size that is not known) the first call that would print raises
    [ZeroDivisionError]. *)
Theorem progress_lines_throttled :
  forall (total : Z) (calls : list (Q * Z)) (last_update : Q),
    (total <> 0 ->
     exists lines,
       progress_run last_update total calls = Ok lines /\
       spaced total last_update lines /\
       sublist lines calls /\
       (forall call, call ∈ calls -> call.2 = total -> call ∈ lines)) /\
    (total = 0 ->
     forall current_time current,
       (2 <= current_time - last_update)%Q \/ current = total ->
       progress_run last_update total ((current_time, current) :: calls) =
       Raise ZeroDivisionError).
Proof.
  intros total calls last_update. split.
  - intros Htotal. revert last_update.
    induction calls as [|[t c] rest IH]; intros last_update.
    + exists []. split; [reflexivity|]. split; [exact I|].
      split; [constructor|]. intros call Hin _. exact Hin.
    + cbn [progress_run]. unfold progress.
      destruct (Qle_bool 2 (t - last_update) || (c =? total)) eqn:Hb.
      * apply Z.eqb_neq in Htotal as Hz. rewrite Hz.
        destruct (IH t) as (lines & Hrun & Hsp & Hsub & Hend).
        rewrite Hrun. exists ((t, c) :: lines).
        split; [reflexivity|]. split; [|split].
        -- cbn [spaced]. split; [|exact Hsp].
           apply orb_true_iff in Hb. destruct Hb as [Hb|Hb].
           ++ left. apply Qle_bool_iff, Hb.
           ++ right. apply Z.eqb_eq, Hb.
        -- constructor. exact Hsub.
        -- intros call Hin Hc. apply elem_of_cons in Hin.
           destruct Hin as [->|Hin]; [left|right; apply Hend; assumption].
      * destruct (IH last_update) as (lines & Hrun & Hsp & Hsub & Hend).
        rewrite Hrun. exists lines.
        split; [reflexivity|]. split; [exact Hsp|]. split.
        -- apply sublist_cons. exact Hsub.
        -- intros call Hin Hc. apply elem_of_cons in Hin.
           destruct Hin as [->|Hin]; [|apply Hend; assumption].
           cbn [snd] in Hc. apply orb_false_iff in Hb. destruct Hb as [_ Hb].
           apply Z.eqb_neq in Hb. contradiction.
  - intros -> t c Hprint. cbn [progress_run]. unfold progress.
    assert (Hb : Qle_bool 2 (t - last_update) || (c =? 0) = true).
    { apply orb_true_iff. destruct Hprint as [H|H].
      - left. apply Qle_bool_iff, H.
      - right. apply Z.eqb_eq, H. }
    rewrite Hb. reflexivity.
Qed.

Lemma progress_lines_throttled_witness :
  (exists lines,
     progress_run 0 100 demo_progress_calls = Ok lines /\
     spaced 100 0 lines /\
     sublist lines demo_progress_calls /\
     (forall call, call ∈ demo_progress_calls -> call.2 = 100 -> call ∈ lines)) /\
  progress_run 0 0 demo_progress_calls = Raise ZeroDivisionError.
Proof.
  split.
  - apply (progress_lines_throttled 100 _ 0). discriminate.
  - apply (progress_lines_throttled 0 (tail demo_progress_calls) 0); [reflexivity|].
    left. discriminate.
Defined.
